(** * Kite-AI-auto: the per-account pipeline of [main.py]

    A shallow embedding of the control logic of [main.py]: the result
    classifier [request_json], the chat budget allocator inside
    [process_account], and the staking state machine [staking_cycle] with
    its persisted store.

    Conventions of the embedding.
    - The remote service, the wall clock, the pseudo-random generator, the
      state file, the in-memory state dictionary [st] and the module-level
      [_TX_CACHE] are fields of one [world]; every function of the program
      that touches them is a computation in the monad [M].
    - A Python exception is a [Raise]; [try ... except] is [try_except].
    - Request headers and bodies are not modelled (they never influence
      control flow); the [session] argument is the world itself and the
      [access_token] argument is dropped for the same reason.
    - Console output is kept only where a line is what the user is told
      about a decision (type [report]); the other calls of [console.print]
      are not part of the model.  Some of those print a text that comes
      from the service or from a file (lines 383, 401, 411, 447, 473, 475,
      492, 502, 518, 522, 530, 543, 548, 553, 562, 583, 611, 640, 650-660,
      673, 679, 737), and rich, which reads markup in what it prints,
      raises [MarkupError] on a closing tag that matches no open one.  The
      handlers on the way print the exception in turn, so a run in which
      that happens ends there, with the process.  The model has no such
      run.  What is stated below of the requests sent and of the state holds
      of those runs as far as they get; what a function returns is stated
      for the runs that return wherever one of these lines is on the way.
    - [time.sleep] lasts exactly the time asked for in the model; it may
      last longer.
    - Python floats are the kernel's binary64 floats.
    - Strings are byte strings; [lower] folds the ASCII letters. *)

From Stdlib Require Import ZArith Floats String Ascii List.
From stdpp Require Import gmap strings list pretty.
From Equations Require Import Equations.

Local Open Scope Z_scope.

(** ** Python strings *)

Definition lower_char (c : ascii) : ascii :=
  let n := N_of_ascii c in
  if ((65 <=? n) && (n <=? 90))%N then ascii_of_N (n + 32) else c.

Fixpoint lower (s : string) : string :=
  match s with
  | EmptyString => EmptyString
  | String c s' => String (lower_char c) (lower s')
  end.

Fixpoint startswith (p s : string) : bool :=
  match p, s with
  | EmptyString, _ => true
  | String a p', String b s' => if Ascii.eqb a b then startswith p' s' else false
  | String _ _, EmptyString => false
  end.

(** [needle in hay] on strings. *)
Fixpoint py_in (needle hay : string) : bool :=
  startswith needle hay ||
  match hay with
  | EmptyString => false
  | String _ hay' => py_in needle hay'
  end.

(** What [py_in] decides. *)
Definition occurs_in (needle hay : string) : Prop :=
  ∃ pre suf, hay = pre +:+ needle +:+ suf.

(** ** Decoded JSON values *)

#[warnings="-register-all"]
Inductive json :=
  | JNull
  | JBool (b : bool)
  | JInt (z : Z)
  | JFloat (f : float)
  | JStr (s : string)
  | JArr (l : list json)
  | JObj (kv : list (string * json)).

Abbreviation dict := (list (string * json)).

Fixpoint dict_find (d : dict) (k : string) : option json :=
  match d with
  | [] => None
  | (k', v) :: d' => if String.eqb k k' then Some v else dict_find d' k
  end.

(** [d.get(k, default)] *)
Definition dict_get (d : dict) (k : string) (default : json) : json :=
  match dict_find d k with Some v => v | None => default end.

(** Python truthiness of a decoded value. *)
Definition truthy (v : json) : bool :=
  match v with
  | JNull => false
  | JBool b => b
  | JInt z => negb (z =? 0)
  | JFloat f => negb (PrimFloat.eqb f 0)
  | JStr s => negb (String.eqb s "")
  | JArr l => match l with [] => false | _ => true end
  | JObj kv => match kv with [] => false | _ => true end
  end.

(** [a or b] *)
Definition py_or (a b : json) : json := if truthy a then a else b.

Definition float_of_Z (z : Z) : float :=
  SF2Prim (binary_normalize prec emax z 0 false).

Definition is_finite (f : float) : bool :=
  match Prim2SF f with
  | S754_zero _ | S754_finite _ _ _ => true
  | _ => false
  end.

(** [int(f)]: truncation towards zero; [None] where Python raises. *)
Definition py_int (f : float) : option Z :=
  match Prim2SF f with
  | S754_zero _ => Some 0
  | S754_finite s m e =>
      let v := if 0 <=? e then Z.pos m * 2 ^ e else Z.quot (Z.pos m) (2 ^ (- e)) in
      Some (if s then - v else v)
  | _ => None
  end.

(** ** Exceptions, the remote service and the world *)

Inductive exn :=
  | TooManyRequestsError
  | HTTPError (msg : string)
  | RuntimeError (msg : string)
  | AttributeError
  | TypeError
  | ValueError
  | OverflowError
  | KeyError
  | ConnectionError.

Inductive result (A : Type) :=
  | Return (a : A)
  | Raise (e : exn).
Arguments Return {A} a.
Arguments Raise {A} e.

(** A completed HTTP exchange, or none: [session.request] raised. *)
Inductive exchange :=
  | Unreachable
  | Response (status_code : Z) (reason : string) (body : option json).

(** [body = None]: [r.json()] raises. *)

Record reply := Reply { took : Z; answer : exchange }.

Inductive endpoint :=
  | EthCall
  | Signin
  | Auth
  | Me
  | Balance
  | StakedTotals
  | Inference (agent_name message : string)
  | SubmitReceipt
  | InferenceTx
  | QuizCreate
  | QuizGet
  | QuizSubmit
  | LatestBlock
  | Delegate (subnet_addr : string)
  | ClaimRewards (subnet_addr : string)
  | Undelegate (subnet_addr : string).

Definition OZONE_BASE := "https://ozone-point-system.prod.gokite.ai".
Definition NEO_BASE := "https://neo.prod.gokite.ai".
Definition RPC_URL := "https://rpc-testnet.gokite.ai/".
Definition PANCAKE_RPC := "https://nodes.pancakeswap.info/".

Definition url (ep : endpoint) : string :=
  match ep with
  | EthCall => RPC_URL
  | Signin => NEO_BASE +:+ "/v2/signin"
  | Auth => OZONE_BASE +:+ "/auth"
  | Me => OZONE_BASE +:+ "/me"
  | Balance => OZONE_BASE +:+ "/me/balance"
  | StakedTotals => OZONE_BASE +:+ "/me/staked"
  | Inference _ _ => OZONE_BASE +:+ "/agent/inference"
  | SubmitReceipt => NEO_BASE +:+ "/v2/submit_receipt"
  | InferenceTx => NEO_BASE +:+ "/v1/inference"
  | QuizCreate => NEO_BASE +:+ "/v2/quiz/create"
  | QuizGet => NEO_BASE +:+ "/v2/quiz/get"
  | QuizSubmit => NEO_BASE +:+ "/v2/quiz/submit"
  | LatestBlock => PANCAKE_RPC
  | Delegate _ => OZONE_BASE +:+ "/subnet/delegate"
  | ClaimRewards _ => OZONE_BASE +:+ "/subnet/claim-rewards"
  | Undelegate _ => OZONE_BASE +:+ "/subnet/undelegate"
  end.

(** The persisted staking state: [{"accounts": {address: {"subnets":
    {subnet_address: row}}}}]. *)
Record row := Row {
  name : string;
  staked : bool;
  last_stake_at : option string;
  last_claim_at : option string;
  last_unstake_at : option string;
}.

Record account := Account { subnets : gmap string row }.

(** [accounts = None]: the dictionary has no ["accounts"] key. *)
Record state := State { accounts : option (gmap string account) }.

Inductive file :=
  | Missing
  | Corrupt
  | Stored (s : state).

Inductive report :=
  | LimitReached
  | ExtraRound
  | NoTopics (agent_name : string)
  | Countdown (subnet_name hms : string)
  | WaitUnstake (subnet_name hms : string)
  | TooShort (subnet_name hms : string).

Inductive event :=
  | Sent (ep : endpoint) (x : exchange)
  | Slept (sec : Z)
  | Saved (s : state)
  | Said (r : report)
  | Chatted (agent_name message : string) (ok rate_limited : bool).

Record world := World {
  script : list reply;
  clock : Z;
  dice : list nat;
  _TX_CACHE : list json;
  disk : file;
  st : state;
  log : list event;
}.

Definition M (A : Type) : Type := world → result A * world.

Definition lift {A} (r : result A) : M A := λ w, (r, w).
Definition ret {A} (a : A) : M A := lift (Return a).
Definition raise {A} (e : exn) : M A := lift (Raise e).
Definition bind {A B} (m : M A) (k : A → M B) : M B :=
  λ w, match m w with
       | (Return a, w') => k a w'
       | (Raise e, w') => (Raise e, w')
       end.

(** [try: m  except ...: h e], the handler choosing by exception. *)
Definition try_except {A} (m : M A) (h : exn → M A) : M A :=
  λ w, match m w with
       | (Return a, w') => (Return a, w')
       | (Raise e, w') => h e w'
       end.

(** Sequencing of code that touches nothing of the world. *)
Definition and_then {A B} (r : result A) (k : A → result B) : result B :=
  match r with
  | Return a => k a
  | Raise e => Raise e
  end.

Declare Scope py_scope.
Delimit Scope py_scope with py.
Notation "x <- m ;; k" := (bind m (λ x, k))
  (at level 100, m at next level, k at level 200, right associativity) : py_scope.
Notation "x <-- r ;; k" := (bind (lift r) (λ x, k))
  (at level 100, r at next level, k at level 200, right associativity) : py_scope.
Notation "m ;;; k" := (bind m (λ _, k))
  (at level 100, k at level 200, right associativity) : py_scope.
Local Open Scope py_scope.

(** *** The world after each primitive effect *)

Definition logged (e : event) (w : world) : world :=
  World (script w) (clock w) (dice w) (_TX_CACHE w) (disk w) (st w) (log w ++ [e]).

(** The answer [session.request] gets next; an exhausted script is an
    unreachable service. *)
Definition next_answer (w : world) : exchange :=
  match script w with
  | [] => Unreachable
  | r :: _ => answer r
  end.

Definition sent (ep : endpoint) (w : world) : world :=
  World (tail (script w))
        (match script w with [] => clock w | r :: _ => clock w + took r end)
        (dice w) (_TX_CACHE w) (disk w) (st w)
        (log w ++ [Sent ep (next_answer w)]).

Definition slept (sec : Z) (w : world) : world :=
  World (script w) (clock w + sec * 1000000) (dice w) (_TX_CACHE w) (disk w)
        (st w) (log w ++ [Slept sec]).

Definition rolled (w : world) : world :=
  World (script w) (clock w) (tail (dice w)) (_TX_CACHE w) (disk w) (st w) (log w).

Definition with_st (s : state) (w : world) : world :=
  World (script w) (clock w) (dice w) (_TX_CACHE w) (disk w) s (log w).

Definition with_TX_CACHE (c : list json) (w : world) : world :=
  World (script w) (clock w) (dice w) c (disk w) (st w) (log w).

Definition saved (s : state) (w : world) : world :=
  World (script w) (clock w) (dice w) (_TX_CACHE w) (Stored s) (st w)
        (log w ++ [Saved s]).

(** *** Primitive computations *)

Definition emit (e : event) : M unit := λ w, (Return tt, logged e w).

Definition console_print (r : report) : M unit := emit (Said r).

Definition session_request (ep : endpoint) : M exchange :=
  λ w, (Return (next_answer w), sent ep w).

Definition sleep_seconds (sec : Z) : M unit := λ w, (Return tt, slept sec w).

(** [now_jkt()], in microseconds. *)
Definition now_jkt : M Z := λ w, (Return (clock w), w).

(** [random.choice(l)] on a non-empty list. *)
Definition random_choice {A} (l : list A) (default : A) : M A :=
  λ w, (Return (nth (match dice w with [] => 0 | d :: _ => d mod length l end)%nat
                    l default),
        rolled w).

(** ** request_json *)

(** [r.raise_for_status()]: requests raises for 4xx and 5xx only. *)
Definition raise_for_status (ep : endpoint) (status_code : Z) (reason : string)
  : result unit :=
  if (400 <=? status_code) && (status_code <? 500) then
    Raise (HTTPError (pretty status_code +:+ " Client Error: " +:+ reason
                      +:+ " for url: " +:+ url ep))
  else if (500 <=? status_code) && (status_code <? 600) then
    Raise (HTTPError (pretty status_code +:+ " Server Error: " +:+ reason
                      +:+ " for url: " +:+ url ep))
  else Return tt.

(** [(data.get("error") or "").lower()] *)
Definition error_text (data : dict) : result string :=
  match py_or (dict_get data "error" JNull) (JStr "") with
  | JStr s => Return (lower s)
  | _ => Raise AttributeError
  end.

(** Lines 140-154 of [request_json]: what becomes of the exchange once
    [session.request] is back. *)
Definition classify (ep : endpoint) (x : exchange) : result dict :=
  match x with
  | Unreachable => Raise ConnectionError
  | Response status_code reason body =>
      if status_code =? 429 then Raise TooManyRequestsError
      else
        match body with
        | None => and_then (raise_for_status ep status_code reason) (λ _, Return [])
        | Some (JObj data) =>
            and_then (error_text data) (λ err,
              if py_in "too many" err || (py_in "rate" err && py_in "limit" err)
              then Raise TooManyRequestsError
              else if 400 <=? status_code then
                match py_or (dict_get data "error" JNull)
                            (JStr ("HTTP " +:+ pretty status_code)) with
                | JStr msg => Raise (HTTPError msg)
                | _ => Raise TypeError
                end
              else Return data)
        | Some _ => Raise AttributeError
        end
  end.

Definition request_json (ep : endpoint) : M dict :=
  x <- session_request ep ;;
  lift (classify ep x).

(** ** What the Python runtime provides *)

(** Library functions the program calls and whose text is not part of it. *)
Class Runtime := {
  (** [dt.datetime.fromisoformat(s)], localized when naive: the instant in
      microseconds, [None] where the call raises. *)
  fromisoformat : string → option Z;
  (** [t.isoformat()] of the instant [t]. *)
  isoformat : Z → string;
  (** [float(s)] on a string, [None] where it raises. *)
  float_of_str : string → option float;
  (** How an f-string renders a decoded value that is not a string. *)
  format_value : json → string;
}.

(** [f"{v}"] *)
Definition py_format `{Runtime} (v : json) : string :=
  match v with JStr s => s | _ => format_value v end.

(** [v.get(...)] is only defined on dictionaries. *)
Definition as_dict (v : json) : result dict :=
  match v with JObj d => Return d | _ => Raise AttributeError end.

(** [float(v)] *)
Definition py_float `{Runtime} (v : json) : result float :=
  match v with
  | JFloat f => Return f
  | JInt z =>
      let f := float_of_Z z in
      if is_finite f then Return f else Raise OverflowError
  | JBool b => Return (if b then 1 else 0)%float
  | JStr s => match float_of_str s with Some f => Return f | None => Raise ValueError end
  | JNull | JArr _ | JObj _ => Raise TypeError
  end.

(** [int(f)] inside the program. *)
Definition int_of_float (f : float) : result Z :=
  match py_int f with
  | Some z => Return z
  | None => if PrimFloat.eqb f f then Raise OverflowError else Raise ValueError
  end.

(** [v[:10]] *)
Definition slice10 (v : json) : result unit :=
  match v with JStr _ | JArr _ => Return tt | _ => Raise TypeError end.

(** ** Time *)

Definition pad2 (n : Z) : string :=
  if n <? 10 then "0" +:+ pretty n else pretty n.

Definition human_tdelta (seconds : Z) : string :=
  let seconds := if seconds <? 0 then 0 else seconds in
  let h := seconds `div` 3600 in
  let m := (seconds `mod` 3600) `div` 60 in
  let s := seconds `mod` 60 in
  pad2 h +:+ ":" +:+ pad2 m +:+ ":" +:+ pad2 s.

Definition ts_now_iso `{Runtime} : M string :=
  t <- now_jkt ;; ret (isoformat t).

(** [delta.total_seconds() / 3600.0] for a difference of [delta]
    microseconds (exactly Python's value for differences below 2^53
    microseconds, about 285 years). *)
Definition hours_of_micros (delta : Z) : float :=
  (float_of_Z delta / float_of_Z 1000000 / 3600)%float.

Definition hours_since `{Runtime} (ts_iso : option string) : M (option float) :=
  match ts_iso with
  | None => ret None
  | Some s =>
      if String.eqb s "" then ret None
      else match fromisoformat s with
           | Some t => now <- now_jkt ;; ret (Some (hours_of_micros (now - t)))
           | None => ret None
           end
  end.

(** [h or 0.0] *)
Definition or_zero (h : option float) : float :=
  match h with
  | Some f => if PrimFloat.eqb f 0 then 0%float else f
  | None => 0%float
  end.

(** [int(24*3600 - hrs*3600)] *)
Definition seconds_to_24h (hrs : float) : result Z :=
  int_of_float (float_of_Z (24 * 3600) - hrs * float_of_Z 3600)%float.

(** ** The staking store *)

Definition SUBNET_ORDER : list string := ["Kite AI Agents"; "Bitte"; "Bitmind"].

Definition SUBNETS (name : string) : string :=
  if String.eqb name "Kite AI Agents" then "0xb132001567650917d6bd695d1fab55db7986e9a5"
  else if String.eqb name "Bitte" then "0xca312b44a57cc9fd60f37e6c9a343a1ad92a3b6c"
  else if String.eqb name "Bitmind" then "0xc368ae279275f80125284d16d292b650ecbbff8d"
  else "".

Definition STAKE_MIN : float := 1%float.
Definition UNSTAKE_AFTER_HOURS : float := 24%float.

Definition set_st (s : state) : M unit := λ w, (Return tt, with_st s w).

Definition get_st : M state := λ w, (Return (st w), w).

Definition state_load : M state :=
  λ w, (Return (match disk w with
                | Stored s => s
                | Missing | Corrupt => State (Some ∅)
                end), w).

Definition state_save (s : state) : M unit := λ w, (Return tt, saved s w).

Definition default_row (name : string) : row := Row name false None None None.

(** The loop body of [ensure_account_state] for one subnet name. *)
Definition ensure_subnet (address : string) (accts : gmap string account)
    (name : string) : gmap string account :=
  let addr := SUBNETS name in
  match accts !! address with
  | Some a =>
      match subnets a !! addr with
      | Some _ => accts
      | None => <[address := Account (<[addr := default_row name]> (subnets a))]> accts
      end
  | None => accts
  end.

(** [ensure_account_state(st, address)]: the dictionary after the call. *)
Definition ensure_account_state (s : state) (address : string) : state :=
  let accts := match accounts s with Some a => a | None => ∅ end in
  let accts := match accts !! address with
               | Some _ => accts
               | None => <[address := Account ∅]> accts
               end in
  State (Some (foldl (ensure_subnet address) accts SUBNET_ORDER)).

(** [st["accounts"][address]["subnets"][subnet]] *)
Definition lookup_row (s : state) (address subnet : string) : option row :=
  a ← accounts s; acct ← a !! address; subnets acct !! subnet.

Definition get_row (address subnet : string) : M row :=
  s <- get_st ;;
  match lookup_row s address subnet with
  | Some r => ret r
  | None => raise KeyError
  end.

(** An assignment [row[field] = value] through the alias [row]: it is the
    dictionary [st] that changes. *)
Definition update_row (s : state) (address subnet : string) (f : row → row) : state :=
  match accounts s with
  | Some a =>
      State (Some (alter (λ acct, Account (alter f subnet (subnets acct))) address a))
  | None => s
  end.

Definition assign_row (address subnet : string) (f : row → row) : M unit :=
  s <- get_st ;; set_st (update_row s address subnet f).

Definition set_staked (b : bool) (r : row) : row :=
  Row (name r) b (last_stake_at r) (last_claim_at r) (last_unstake_at r).
Definition set_last_stake_at (t : string) (r : row) : row :=
  Row (name r) (staked r) (Some t) (last_claim_at r) (last_unstake_at r).
Definition set_last_claim_at (t : string) (r : row) : row :=
  Row (name r) (staked r) (last_stake_at r) (Some t) (last_unstake_at r).
Definition set_last_unstake_at (t : string) (r : row) : row :=
  Row (name r) (staked r) (last_stake_at r) (last_claim_at r) (Some t).

(** ** Remote calls of the staking machine *)

(** [data.get("data", {}).get("balances", {}) or {}], then
    [float(bals.get("kite", 0.0)), float(bals.get("usdt", 0.0))]. *)
Definition get_balances `{Runtime} : M (float * float) :=
  data <- request_json Balance ;;
  d <-- as_dict (dict_get data "data" (JObj [])) ;;
  bals <-- as_dict (py_or (dict_get d "balances" (JObj [])) (JObj [])) ;;
  kite <-- py_float (dict_get bals "kite" (JFloat 0)) ;;
  usdt <-- py_float (dict_get bals "usdt" (JFloat 0)) ;;
  ret (kite, usdt).

Definition delegate (subnet_addr : string) : M dict :=
  request_json (Delegate subnet_addr).

Definition claim_rewards (subnet_addr : string) : M dict :=
  request_json (ClaimRewards subnet_addr).

Definition undelegate (subnet_addr : string) : M dict :=
  request_json (Undelegate subnet_addr).

(** ** Loops *)

(** What one iteration of a [for] loop tells the loop: go on, or leave
    ([break], or [return] from the enclosing function). *)
Inductive step (S : Type) :=
  | Continue (s : S)
  | Break (s : S).
Arguments Continue {S} s.
Arguments Break {S} s.

Fixpoint for_each {X S} (xs : list X) (body : X → S → M (step S)) (s : S)
  : M (step S) :=
  match xs with
  | [] => ret (Continue s)
  | x :: xs' =>
      r <- body x s ;;
      match r with
      | Continue s' => for_each xs' body s'
      | Break s' => ret (Break s')
      end
  end.

(** ** staking_cycle *)

(** The local variables of [staking_cycle]. *)
Record tally := Tally {
  kite_bal : float;
  staked_count : Z;
  claimed_count : Z;
  unstaked_count : Z;
}.

Definition counts (t : tally) : Z * Z * Z :=
  (staked_count t, claimed_count t, unstaked_count t).

(** [except TooManyRequestsError:] of every phase: report, save, return. *)
Definition throttled_return (t : tally) : M (step tally) :=
  console_print LimitReached ;;;
  s <- get_st ;;
  state_save s ;;;
  ret (Break t).

(** Body of the stake loop and of the re-stake loop. *)
Definition stake_target `{Runtime} (address : string) (name : string) (t : tally)
  : M (step tally) :=
  let subnet := SUBNETS name in
  row <- get_row address subnet ;;
  if negb (staked row) && (STAKE_MIN <=? kite_bal t)%float then
    try_except
      (data <- delegate subnet ;;
       d <-- as_dict (py_or (dict_get data "data" JNull) (JObj [])) ;;
       lift (slice10 (dict_get d "tx_hash" (JStr ""))) ;;;
       assign_row address subnet (set_staked true) ;;;
       now <- ts_now_iso ;;
       assign_row address subnet (set_last_stake_at now) ;;;
       ret (Continue (Tally (kite_bal t - 1)%float (staked_count t + 1)
                            (claimed_count t) (unstaked_count t))))
      (λ e, match e with
            | TooManyRequestsError => throttled_return t
            | _ => ret (Continue t)
            end)
  else ret (Continue t).

(** Body of the loop that lists the active stakes when the balance is
    below the minimum. *)
Definition detect_target `{Runtime} (address : string) (name : string) (t : tally)
  : M (step tally) :=
  let subnet := SUBNETS name in
  row <- get_row address subnet ;;
  if staked row then
    h <- hours_since (last_stake_at row) ;;
    to24 <-- seconds_to_24h (or_zero h) ;;
    console_print (Countdown name (human_tdelta (Z.max 0 to24))) ;;;
    ret (Continue t)
  else ret (Continue t).

(** Body of the claim loop. *)
Definition claim_target `{Runtime} (address : string) (name : string) (t : tally)
  : M (step tally) :=
  let subnet := SUBNETS name in
  row <- get_row address subnet ;;
  if staked row then
    try_except
      (data <- claim_rewards subnet ;;
       d <-- as_dict (py_or (dict_get data "data" JNull) (JObj [])) ;;
       lift (py_float (dict_get d "claim_amount" (JFloat 0))) ;;;
       now <- ts_now_iso ;;
       assign_row address subnet (set_last_claim_at now) ;;;
       ret (Continue (Tally (kite_bal t) (staked_count t)
                            (claimed_count t + 1) (unstaked_count t))))
      (λ e, match e with
            | TooManyRequestsError => throttled_return t
            | _ => ret (Continue t)
            end)
  else ret (Continue t).

(** Body of the unstake loop. *)
Definition unstake_target `{Runtime} (address : string) (name : string) (t : tally)
  : M (step tally) :=
  let subnet := SUBNETS name in
  row <- get_row address subnet ;;
  if staked row then
    h <- hours_since (last_stake_at row) ;;
    let hrs := or_zero h in
    if (UNSTAKE_AFTER_HOURS <=? hrs)%float then
      try_except
        (undelegate subnet ;;;
         assign_row address subnet (set_staked false) ;;;
         now <- ts_now_iso ;;
         assign_row address subnet (set_last_unstake_at now) ;;;
         ret (Continue (Tally (kite_bal t) (staked_count t)
                              (claimed_count t) (unstaked_count t + 1))))
        (λ e, match e with
              | TooManyRequestsError => throttled_return t
              | HTTPError msg =>
                  if py_in "too short" (lower msg) then
                    to24s <-- seconds_to_24h hrs ;;
                    console_print (TooShort name (human_tdelta to24s)) ;;;
                    ret (Continue t)
                  else ret (Continue t)
              | _ => ret (Continue t)
              end)
    else
      to24 <-- seconds_to_24h hrs ;;
      console_print (WaitUnstake name (human_tdelta to24)) ;;;
      ret (Continue t)
  else ret (Continue t).

(** The part of [staking_cycle] after the unstake loop. *)
Definition restake_phase `{Runtime} (address : string) (t : tally) : M (Z * Z * Z) :=
  kite <- try_except (b <- get_balances ;; ret (fst b)) (λ _, ret 0%float) ;;
  let t := Tally kite (staked_count t) (claimed_count t) (unstaked_count t) in
  r <- (if (STAKE_MIN <=? kite)%float
        then for_each SUBNET_ORDER (stake_target address) t
        else ret (Continue t)) ;;
  match r with
  | Break t' => ret (counts t')
  | Continue t' => s <- get_st ;; state_save s ;;; ret (counts t')
  end.

Definition unstake_phase `{Runtime} (address : string) (t : tally) : M (Z * Z * Z) :=
  r <- for_each SUBNET_ORDER (unstake_target address) t ;;
  match r with
  | Break t' => ret (counts t')
  | Continue t' => restake_phase address t'
  end.

(** The claim loop (lines 430-447). *)
Definition claim_loop `{Runtime} (address : string) (t : tally) : M (step tally) :=
  for_each SUBNET_ORDER (claim_target address) t.

Definition claim_phase `{Runtime} (address : string) (t : tally) : M (Z * Z * Z) :=
  r <- claim_loop address t ;;
  match r with
  | Break t' => ret (counts t')
  | Continue t' => unstake_phase address t'
  end.

Definition stake_phase `{Runtime} (address : string) (t : tally) : M (Z * Z * Z) :=
  r <- (if (STAKE_MIN <=? kite_bal t)%float
        then for_each SUBNET_ORDER (stake_target address) t
        else for_each SUBNET_ORDER (detect_target address) t) ;;
  match r with
  | Break t' => ret (counts t')
  | Continue t' => claim_phase address t'
  end.

Definition staking_cycle `{Runtime} (address : string) : M (Z * Z * Z) :=
  loaded <- state_load ;;
  set_st (ensure_account_state loaded address) ;;;
  b <- try_except (b <- get_balances ;; ret (Some (fst b)))
         (λ e, match e with
               | TooManyRequestsError => console_print LimitReached ;;; ret None
               | _ => ret (Some 0%float)
               end) ;;
  match b with
  | None => ret (0, 0, 0)
  | Some kite => stake_phase address (Tally kite 0 0 0)
  end.

(** ** Remote calls of the account pipeline *)

Definition last40 (s : string) : string :=
  let n := String.length s in substring (n - 40) 40 s.

Definition rpc_eth_call_smart_account (eoa : string) : M string :=
  data <- request_json EthCall ;;
  let res := dict_get data "result" (JStr "") in
  if negb (truthy res) then raise (RuntimeError "eth_call returned empty result")
  else match res with
       | JStr s =>
           if String.eqb s "0x" then raise (RuntimeError "eth_call returned empty result")
           else ret ("0x" +:+ last40 s)
       | _ => raise TypeError
       end.

Definition signin_and_login (eoa aa_address : string) : M (string * json) :=
  data <- request_json Signin ;;
  d <-- as_dict (dict_get data "data" (JObj [])) ;;
  let access_token := dict_get d "access_token" (JStr "") in
  if negb (truthy access_token) then raise (RuntimeError "signin: missing access_token")
  else
    try_except (request_json Auth ;;; ret tt)
      (λ e, match e with
            | HTTPError msg =>
                if py_in "already exists" (lower msg) then ret tt else raise e
            | _ => raise e
            end) ;;;
    ret (aa_address, access_token).

Definition wallet_info : M (json * json * json) :=
  data <- request_json Me ;;
  d <-- as_dict (dict_get data "data" (JObj [])) ;;
  prof <-- as_dict (dict_get d "profile" (JObj [])) ;;
  ret (dict_get prof "username" (JStr "-"), dict_get prof "rank" (JInt 0),
       dict_get prof "total_xp_points" (JInt 0)).

Definition get_staked_totals `{Runtime} : M (float * float) :=
  data <- request_json StakedTotals ;;
  d <-- as_dict (py_or (dict_get data "data" (JObj [])) (JObj [])) ;;
  total <-- py_float (dict_get d "total_staked_amount" (JFloat 0)) ;;
  claimed <-- py_float (dict_get d "total_claim_reward_amount" (JFloat 0)) ;;
  ret (total, claimed).

Definition chat_ai (agent_name eoa message : string) : M dict :=
  request_json (Inference agent_name message).

Definition submit_receipt : M json :=
  data <- request_json SubmitReceipt ;;
  d <-- as_dict (dict_get data "data" (JObj [])) ;;
  let rid := dict_get d "id" (JStr "") in
  if negb (truthy rid) then raise (RuntimeError "submit_receipt: missing id")
  else ret rid.

(** [for _ in range(max_retry)] of [get_inference_tx]. *)
Fixpoint get_inference_tx (max_retry : nat) (wait_sec : Z) : M json :=
  match max_retry with
  | O => ret (JStr "")
  | S n =>
      r <- try_except (data <- request_json InferenceTx ;; ret (Some data))
             (λ e, match e with
                   | TooManyRequestsError => sleep_seconds wait_sec ;;; ret None
                   | _ => raise e
                   end) ;;
      match r with
      | None => get_inference_tx n wait_sec
      | Some data =>
          d <-- as_dict (dict_get data "data" (JObj [])) ;;
          let txh := dict_get d "tx_hash" (JStr "") in
          if truthy txh then ret txh
          else sleep_seconds wait_sec ;;; get_inference_tx n wait_sec
      end
  end.

Definition create_quiz (eoa : string) : M json :=
  now_jkt ;;;
  data <- request_json QuizCreate ;;
  d <-- as_dict (dict_get data "data" (JObj [])) ;;
  let qid := dict_get d "quiz_id" (JStr "") in
  if negb (truthy qid) then raise (RuntimeError "quiz/create: missing quiz_id")
  else ret qid.

Definition get_quiz_and_answer : M (json * json) :=
  data <- request_json QuizGet ;;
  d <-- as_dict (dict_get data "data" (JObj [])) ;;
  let questions := dict_get d "question" (JArr []) in
  if negb (truthy questions) then raise (RuntimeError "quiz/get: no questions")
  else match questions with
       | JArr (first :: _) =>
           f <-- as_dict first ;;
           ret (dict_get f "question_id" (JStr ""), dict_get f "answer" (JStr ""))
       | JStr _ => raise AttributeError
       | JObj _ => raise KeyError
       | _ => raise TypeError
       end.

Definition submit_quiz : M bool :=
  data <- request_json QuizSubmit ;;
  d <-- as_dict (dict_get data "data" (JObj [])) ;;
  ret (truthy (dict_get d "result" JNull)).

(** ** The transaction-hash fallback *)

Definition set_TX_CACHE (c : list json) : M unit :=
  λ w, (Return tt, with_TX_CACHE c w).

Definition get_TX_CACHE : M (list json) := λ w, (Return (_TX_CACHE w), w).

Definition zero_hash : string :=
  "0x0000000000000000000000000000000000000000000000000000000000000000".

(** [[tx.get("hash") for tx in txs if tx.get("hash")]] *)
Fixpoint tx_hashes (txs : list json) : result (list json) :=
  match txs with
  | [] => Return []
  | tx :: rest =>
      and_then (as_dict tx) (λ d,
      and_then (tx_hashes rest) (λ hs,
        let h := dict_get d "hash" JNull in
        Return (if truthy h then h :: hs else hs)))
  end.

Definition fetch_tx_hashes : M (list json) :=
  data <- request_json LatestBlock ;;
  result <-- as_dict (py_or (dict_get data "result" JNull) (JObj [])) ;;
  match py_or (dict_get result "transactions" JNull) (JArr []) with
  | JArr txs => lift (tx_hashes txs)
  | JStr _ | JObj _ => raise AttributeError
  | _ => raise TypeError
  end.

Definition get_random_tx_hash : M json :=
  cache <- get_TX_CACHE ;;
  match cache with
  | _ :: _ => random_choice cache JNull
  | [] =>
      try_except (hs <- fetch_tx_hashes ;; set_TX_CACHE hs) (λ _, ret tt) ;;;
      cache <- get_TX_CACHE ;;
      match cache with
      | [] => ret (JStr zero_hash)
      | _ :: _ => random_choice cache JNull
      end
  end.

(** ** The chat budget allocator *)

Definition AGENT_ORDER : list string :=
  ["Professor"; "Crypto Buddy"; "Sherlock"; "Zane"; "Vyn"; "Avril"; "Noa";
   "Diane"; "Sakura"].

Definition GLOBAL_DAILY_CHAT_CAP : Z := 9.

(** [_send_one_chat]; the event [Chatted] records the call together with the
    pair it returns. *)
Definition _send_one_chat (aa_address address agent_name message : string)
  : M (bool * bool) :=
  r <- try_except
         (chat_ai agent_name address message ;;;
          submit_receipt ;;;
          get_inference_tx 5 8 ;;;
          ret (true, false))
         (λ e, match e with
               | TooManyRequestsError => ret (false, true)
               | _ => ret (false, false)
               end) ;;
  emit (Chatted agent_name message (fst r) (snd r)) ;;;
  ret r.

(** The local variables of [process_account] that the chat loops update. *)
Record chat := Chat {
  success : Z;
  failed : Z;
  total_success_today : Z;
  consecutive_429 : Z;
  hit_global_limit : bool;
}.

Definition tx_question `{Runtime} (h : json) : string :=
  "What do you think of this transaction? " +:+ py_format h.

(** The bookkeeping after [_send_one_chat] returned [(ok, rate_limited)],
    up to and including [sleep_seconds(2)]. *)
Definition account_outcome (ok rate_limited : bool) (c : chat) : M (step chat) :=
  if ok then
    sleep_seconds 2 ;;;
    ret (Continue (Chat (success c + 1) (failed c) (total_success_today c + 1) 0
                        (hit_global_limit c)))
  else if rate_limited then
    if 5 <=? consecutive_429 c + 1 then
      ret (Break (Chat (success c) (failed c + 1) (total_success_today c)
                       (consecutive_429 c + 1) true))
    else
      sleep_seconds 2 ;;;
      ret (Continue (Chat (success c) (failed c + 1) (total_success_today c)
                          (consecutive_429 c + 1) (hit_global_limit c)))
  else
    sleep_seconds 2 ;;;
    ret (Continue (Chat (success c) (failed c + 1) (total_success_today c)
                        (consecutive_429 c) (hit_global_limit c))).

(** Body of [for i in range(attempts)] for one agent. *)
Definition chat_slot `{Runtime} (aa_address address agent_name : string)
    (pool : list string) (i : nat) (c : chat) : M (step chat) :=
  if GLOBAL_DAILY_CHAT_CAP <=? total_success_today c then ret (Break c)
  else if String.eqb agent_name "Sherlock" && bool_decide (pool = []) then
    h <- get_random_tx_hash ;;
    r <- _send_one_chat aa_address address agent_name (tx_question h) ;;
    account_outcome (fst r) (snd r) c
  else if bool_decide (pool = []) then
    console_print (NoTopics agent_name) ;;; ret (Break c)
  else
    msg <- random_choice pool "" ;;
    r <- _send_one_chat aa_address address agent_name msg ;;
    account_outcome (fst r) (snd r) c.

(** Body of the first [for agent_name in AGENT_ORDER]. *)
Definition chat_agent `{Runtime} (aa_address address : string) (chat_per_agent : Z)
    (topics : gmap string (list string)) (agent_name : string) (c : chat)
  : M (step chat) :=
  if GLOBAL_DAILY_CHAT_CAP <=? total_success_today c then ret (Break c)
  else
    let pool := default [] (topics !! agent_name) in
    let attempts := Z.min chat_per_agent (GLOBAL_DAILY_CHAT_CAP - total_success_today c) in
    r <- for_each (seq 0 (Z.to_nat attempts))
           (chat_slot aa_address address agent_name pool) c ;;
    let c' := match r with Continue c' | Break c' => c' end in
    if hit_global_limit c' then ret (Break c') else ret (Continue c').

(** Body of the second [for agent_name in AGENT_ORDER] (the extra round). *)
Definition retry_agent `{Runtime} (aa_address address : string)
    (topics : gmap string (list string)) (agent_name : string) (c : chat)
  : M (step chat) :=
  if GLOBAL_DAILY_CHAT_CAP <=? total_success_today c then ret (Break c)
  else
    let pool := default [] (topics !! agent_name) in
    if String.eqb agent_name "Sherlock" && bool_decide (pool = []) then
      h <- get_random_tx_hash ;;
      r <- _send_one_chat aa_address address agent_name (tx_question h) ;;
      account_outcome (fst r) (snd r) c
    else if bool_decide (pool = []) then ret (Continue c)
    else
      msg <- random_choice pool "" ;;
      r <- _send_one_chat aa_address address agent_name msg ;;
      account_outcome (fst r) (snd r) c.

Definition result_state {S} (r : step S) : S :=
  match r with Continue s | Break s => s end.

(** The two chat loops of [process_account]. *)
Definition chat_rounds `{Runtime} (aa_address address : string) (chat_per_agent : Z)
    (topics : gmap string (list string)) (c : chat) : M chat :=
  r <- for_each AGENT_ORDER (chat_agent aa_address address chat_per_agent topics) c ;;
  let c := result_state r in
  if (chat_per_agent =? 1) && (total_success_today c <? GLOBAL_DAILY_CHAT_CAP)
     && negb (hit_global_limit c)
  then
    console_print ExtraRound ;;;
    r <- for_each AGENT_ORDER (retry_agent aa_address address topics) c ;;
    ret (result_state r)
  else ret c.

(** The daily quiz: the new values of [success] and [failed]. *)
Definition daily_quiz (address : string) (c : chat) : M chat :=
  try_except
    (qid <- create_quiz address ;;
     get_quiz_and_answer ;;;
     ok <- submit_quiz ;;
     if ok : bool
     then ret (Chat (success c + 1) (failed c) (total_success_today c)
                    (consecutive_429 c) (hit_global_limit c))
     else ret (Chat (success c) (failed c + 1) (total_success_today c)
                    (consecutive_429 c) (hit_global_limit c)))
    (λ _, ret (Chat (success c) (failed c + 1) (total_success_today c)
                    (consecutive_429 c) (hit_global_limit c))).

Definition final_statistics `{Runtime} : M unit :=
  try_except (wallet_info ;;; get_balances ;;; get_staked_totals ;;; ret tt)
    (λ _, ret tt).

Definition process_account `{Runtime} (address : string) (chat_per_agent : Z)
    (topics : gmap string (list string)) : M (Z * Z * bool) :=
  r <- try_except (aa <- rpc_eth_call_smart_account address ;; ret (inl aa))
         (λ e, match e with
               | TooManyRequestsError => ret (inr true)
               | _ => ret (inr false)
               end) ;;
  match r with
  | inr limited => ret (0, 1, limited)
  | inl aa_address =>
      r <- try_except (signin_and_login address aa_address ;;; ret (inl tt))
             (λ e, match e with
                   | TooManyRequestsError => ret (inr true)
                   | _ => ret (inr false)
                   end) ;;
      match r with
      | inr limited => ret (0, 1, limited)
      | inl _ =>
          c <- chat_rounds aa_address address chat_per_agent topics
                 (Chat 0 0 0 0 false) ;;
          c <- daily_quiz address c ;;
          staking_cycle address ;;;
          final_statistics ;;;
          ret (success c, failed c, hit_global_limit c)
      end
  end.

(** ** run_cycle *)

(** What the host gives [run_cycle]: the files it reads, the string
    functions of the library, and the address that [Account.from_key]
    derives from a private key ([None] where it raises). *)
Inductive file_read :=
  | NoFile
  | Unreadable (e : exn)
  | Text (s : string).

Class Host := {
  (** [open(path).read()]; [NoFile] when [os.path.exists] says no. *)
  file_text : string → file_read;
  (** [s.splitlines()] *)
  splitlines : string → list string;
  (** [s.strip()] *)
  strip : string → string;
  (** [Account.from_key(pk).address] *)
  address_of_key : string → option string;
}.

(** [s.replace("\r", "")] *)
Fixpoint remove_cr (s : string) : string :=
  match s with
  | EmptyString => EmptyString
  | String c s' =>
      if Ascii.eqb c "013" then remove_cr s' else String c (remove_cr s')
  end.

Definition read_lines `{Host} (path : string) : result (list string) :=
  match file_text path with
  | NoFile => Return []
  | Unreadable e => Raise e
  | Text s =>
      Return (map (λ ln, remove_cr (strip ln))
                (List.filter (λ ln, negb (String.eqb (strip ln) "")) (splitlines s)))
  end.

Fixpoint all_chars (p : ascii → bool) (s : string) : bool :=
  match s with
  | EmptyString => true
  | String c s' => p c && all_chars p s'
  end.

Definition is_hex_digit (c : ascii) : bool :=
  let n := N_of_ascii c in
  ((48 <=? n) && (n <=? 57) || (97 <=? n) && (n <=? 102))%N.

(** [bool(re.fullmatch(r"[0-9a-f]{64}", s))] *)
Definition hex64 (s : string) : bool :=
  (String.length s =? 64)%nat && all_chars is_hex_digit s.

(** [s[2:]] *)
Definition drop2 (s : string) : string :=
  match s with
  | String _ (String _ s') => s'
  | _ => EmptyString
  end.

Definition is_valid_pk (pk : string) : bool :=
  let pk := lower pk in
  let pk := if startswith "0x" pk then drop2 pk else pk in
  hex64 pk.

(** [pk if pk.lower().startswith("0x") else "0x" + pk] *)
Definition pk_norm (pk : string) : string :=
  if startswith "0x" (lower pk) then pk else "0x" +:+ pk.

(** How [run_cycle] ends: [sys.exit(code)], or its return value. *)
Inductive cycle_end :=
  | Exit (code : Z)
  | Done (hit_global_limit_any : bool).

(** The loop over the lines of accounts.txt (lines 669-681); [None] where
    it leaves through [sys.exit(1)]. *)
Fixpoint load_accounts `{Host} (acc_lines : list string)
  : option (list (string * string)) :=
  match acc_lines with
  | [] => Some []
  | raw :: rest =>
      let pk := pk_norm (strip raw) in
      if negb (is_valid_pk pk) then None
      else match address_of_key pk with
           | None => None
           | Some addr =>
               match load_accounts rest with
               | None => None
               | Some accounts => Some ((addr, pk) :: accounts)
               end
           end
  end.

(** [proxies] (lines 682-692): [p_lines[i % len(p_lines)]] for each
    account. *)
Definition assign_proxies `{Host} (use_proxy : bool) (n : nat)
  : result (list (option string)) :=
  if use_proxy then
    and_then (read_lines "proxy.txt") (λ p_lines,
      match p_lines with
      | [] => Return (replicate n None)
      | _ :: _ =>
          Return (map (λ i, Some (nth (i mod length p_lines) p_lines ""%string))
                    (seq 0 n))
      end)
  else Return (replicate n None).

Definition TOPIC_FILES : list (string * string) :=
  [("Professor", "pesan_professor.txt");
   ("Crypto Buddy", "pesan_cryptobuddy.txt");
   ("Sherlock", "pesan_sherlock.txt");
   ("Zane", "pesan_zane.txt");
   ("Vyn", "pesan_vyn.txt");
   ("Avril", "pesan_avril.txt");
   ("Noa", "pesan_noa.txt");
   ("Diane", "pesan_diane.txt");
   ("Sakura", "pesan_sakura.txt")].

(** [x and all(ord(ch) < 128 for ch in x)] *)
Definition is_ascii_text (x : string) : bool :=
  negb (String.eqb x "") && all_chars (λ c, (N_of_ascii c <? 128)%N) x.

(** The loop over [TOPIC_FILES] (lines 693-697). *)
Fixpoint load_topics `{Host} (files : list (string * string))
    (topics : gmap string (list string)) : result (gmap string (list string)) :=
  match files with
  | [] => Return topics
  | (agent, fname) :: rest =>
      and_then (read_lines fname) (λ t,
        load_topics rest (<[agent := List.filter is_ascii_text t]> topics))
  end.

(** Body of the loop over the accounts (lines 700-705); the state is
    [(total_ok, total_fail, hit_global_limit_any)]. *)
Definition account_step `{Runtime} (chat_per_agent : Z)
    (topics : gmap string (list string)) (acct : string * string)
    (totals : Z * Z * bool) : M (step (Z * Z * bool)) :=
  r <- process_account (fst acct) chat_per_agent topics ;;
  let total_ok := fst (fst totals) + fst (fst r) in
  let total_fail := snd (fst totals) + snd (fst r) in
  if snd r then ret (Break (total_ok, total_fail, true))
  else ret (Continue (total_ok, total_fail, snd totals)).

(** The proxy of an account only configures its session, which the
    scripted replies stand for: [process_account] does not take it. *)
Definition run_cycle `{Runtime} `{Host} (chat_per_agent : Z) (use_proxy : bool)
  : M cycle_end :=
  acc_lines <-- read_lines "accounts.txt" ;;
  match acc_lines with
  | [] => ret (Exit 1)
  | _ :: _ =>
      match load_accounts acc_lines with
      | None => ret (Exit 1)
      | Some accounts =>
          proxies <-- assign_proxies use_proxy (length accounts) ;;
          topics <-- load_topics TOPIC_FILES ∅ ;;
          r <- for_each accounts (account_step chat_per_agent topics)
                 (0, 0, false) ;;
          ret (Done (snd (result_state r)))
      end
  end.

(** ** countdown_to and main *)

(** [countdown_to(next_time)] (lines 714-726): the loop leaves once
    [now_jkt()] has reached [next_time] and sleeps one second otherwise.
    The remaining time it prints in between is not recorded. *)
Equations? countdown_to (next_time : Z) (w : world) : result unit * world
  by wf (Z.to_nat (next_time - clock w)) lt :=
  countdown_to next_time w with Z_le_gt_dec next_time (clock w) => {
    | left _ := (Return tt, w);
    | right Hgt := countdown_to next_time (slept 1 w) }.
Proof. unfold slept. simpl. lia. Qed.

(** One turn of the [while True] of [main] (lines 732-741): [Some code]
    when [run_cycle] left through [sys.exit(code)], which nothing catches;
    [None] when the loop goes on.  [hit_limit] is assigned and never
    read. *)
Definition main_iteration `{Runtime} `{Host} (chat_per_agent : Z) (use_proxy : bool)
  : M (option Z) :=
  r <- try_except (run_cycle chat_per_agent use_proxy) (λ _, ret (Done false)) ;;
  match r with
  | Exit code => ret (Some code)
  | Done _ =>
      now <- now_jkt ;;
      countdown_to (now + 24 * 3600 * 1000000) ;;;
      ret None
  end.

(** * Concrete runs *)

(** A toy runtime: timestamps are rendered as their count of
    microseconds. *)
Fixpoint digits (s : string) (acc : Z) : option Z :=
  match s with
  | EmptyString => Some acc
  | String c s' =>
      let n := Z.of_N (N_of_ascii c) in
      if (48 <=? n) && (n <=? 57) then digits s' (10 * acc + (n - 48)) else None
  end.

Definition toy_runtime : Runtime := {|
  fromisoformat s :=
    match s with
    | String "-" s' => option_map Z.opp (digits s' 0)
    | _ => digits s 0
    end;
  isoformat t := pretty t;
  float_of_str _ := None;
  format_value _ := "?";
|}.

(** A fresh process whose remote service will give the replies [sc]. *)
Definition fresh (sc : list reply) : world :=
  World sc 0 [] [] Missing (State None) [].

Definition world_answering (x : exchange) : world := fresh [Reply 0 x].

(** * Vocabulary of the statements *)

(** [m.setdefault(k, v)] as a function on maps. *)
Definition ensure_key (k : string) (v : row) (m : gmap string row) : gmap string row :=
  match m !! k with Some _ => m | None => <[k := v]> m end.


(** The subnet entries of one account after [ensure_account_state]. *)
Definition ensured (m : gmap string row) : gmap string row :=
  foldl (λ m name, ensure_key (SUBNETS name) (default_row name) m) m SUBNET_ORDER.

(** The default entry of a delegation target, if [t] is one. *)
Definition default_for (t : string) : option row :=
  default_row <$> List.find (λ name, String.eqb (SUBNETS name) t) SUBNET_ORDER.


(** What holds of the result and the world once [m] has run from [w]. *)
Definition wp {A} (m : M A) (w : world) (Q : result A → world → Prop) : Prop :=
  Q (m w).1 (m w).2.

(** Every run of [m] relates the world before to the world after. *)
Definition respects {A} (R : relation world) (m : M A) : Prop :=
  ∀ w, R w (m w).2.

(** The events a run added to the log. *)
Definition new_events (w w' : world) : list event :=
  drop (length (log w)) (log w').


(** The run only appended events that satisfy [P]. *)
Definition adds (P : event → bool) (w w' : world) : Prop :=
  ∃ evs, log w' = log w ++ evs ∧ Forall (λ e, P e = true) evs.

(** The run left the field [f] of the world as it was. *)
Definition keeps {F} (f : world → F) (w w' : world) : Prop := f w' = f w.

Definition is_chat (e : event) : bool :=
  match e with Chatted _ _ _ _ => true | _ => false end.

Definition is_sent (e : event) : bool :=
  match e with Sent _ _ => true | _ => false end.

(** Events that are neither a chat attempt nor the banner of the extra
    round. *)
Definition background (e : event) : bool :=
  match e with
  | Chatted _ _ _ _ | Said ExtraRound => false
  | _ => true
  end.

(** The chat attempts among the events, in order. *)
Definition chats (l : list event) : list event := List.filter is_chat l.

Definition chat_ok (e : event) : bool :=
  match e with Chatted _ _ true _ => true | _ => false end.

(** A chat attempt classified Throttled. *)
Definition throttled_chat (e : event) : bool :=
  match e with Chatted _ _ false true => true | _ => false end.

Definition chat_agent_of (e : event) : option string :=
  match e with Chatted a _ _ _ => Some a | _ => None end.

(** Number of successful sends among the events. *)
Definition oks (l : list event) : Z := Z.of_nat (length (List.filter chat_ok l)).

(** The bookkeeping of [account_outcome] without its pauses. *)
Definition settle (ok rate_limited : bool) (c : chat) : step chat :=
  if ok then
    Continue (Chat (success c + 1) (failed c) (total_success_today c + 1) 0
                   (hit_global_limit c))
  else if rate_limited then
    if 5 <=? consecutive_429 c + 1 then
      Break (Chat (success c) (failed c + 1) (total_success_today c)
                  (consecutive_429 c + 1) true)
    else
      Continue (Chat (success c) (failed c + 1) (total_success_today c)
                     (consecutive_429 c + 1) (hit_global_limit c))
  else
    Continue (Chat (success c) (failed c + 1) (total_success_today c)
                   (consecutive_429 c) (hit_global_limit c)).

(** The counters after the attempts recorded in a list of events. *)
Definition on_event (c : chat) (e : event) : chat :=
  match e with
  | Chatted _ _ ok rate_limited => result_state (settle ok rate_limited c)
  | _ => c
  end.

Definition replay (c : chat) (l : list event) : chat := foldl on_event c l.

(** The counters [process_account] starts from. *)
Definition chat0 : chat := Chat 0 0 0 0 false.

(** The agent has something to send: a topic, or the fallback. *)
Definition can_send (agent_name : string) (pool : list string) : bool :=
  String.eqb agent_name "Sherlock" || negb (bool_decide (pool = [])).

Definition has_message (topics : gmap string (list string)) (agent_name : string)
  : bool :=
  can_send agent_name (default [] (topics !! agent_name)).

(** Every attempt was made below the cap and before the global limit. *)
Definition paced (c : chat) (l : list event) : Prop :=
  ∀ pre e post, l = pre ++ e :: post → is_chat e = true →
    total_success_today (replay c pre) < GLOBAL_DAILY_CHAT_CAP ∧
    hit_global_limit (replay c pre) = false.


(** One attempt with [message] was made for the agent between [w] and
    [w'], and [r] is what the bookkeeping made of its outcome. *)
Definition attempted (agent_name message : string) (c : chat) (w : world)
    (r : result (step chat)) (w' : world) : Prop :=
  ∃ ok rate_limited pre post,
    log w' = log w ++ pre ++ Chatted agent_name message ok rate_limited :: post ∧
    Forall (λ e, background e = true) pre ∧
    Forall (λ e, background e = true) post ∧
    r = Return (settle ok rate_limited c).


(** The message of an attempt is a topic of the pool or, for Sherlock
    without topics, the question about a transaction hash. *)
Definition message_from `{Runtime} (agent_name : string) (pool : list string)
    (message : string) (w' : world) : Prop :=
  if String.eqb agent_name "Sherlock" && bool_decide (pool = []) then
    ∃ h, message = tx_question h ∧ (h ∈ _TX_CACHE w' ∨ h = JStr zero_hash)
  else message ∈ pool.

(** What one iteration of the inner loop of the first round does. *)
Definition slot_post `{Runtime} (agent_name : string) (pool : list string) (c : chat)
    (w : world) (r : result (step chat)) (w' : world) : Prop :=
  if bool_decide (GLOBAL_DAILY_CHAT_CAP ≤ total_success_today c) then
    r = Return (Break c) ∧ w' = w
  else if can_send agent_name pool then
    ∃ message, attempted agent_name message c w r w' ∧
               message_from agent_name pool message w'
  else r = Return (Break c) ∧ w' = logged (Said (NoTopics agent_name)) w.

(** What one iteration of the extra round does. *)
Definition retry_post `{Runtime} (agent_name : string) (pool : list string) (c : chat)
    (w : world) (r : result (step chat)) (w' : world) : Prop :=
  if bool_decide (GLOBAL_DAILY_CHAT_CAP ≤ total_success_today c) then
    r = Return (Break c) ∧ w' = w
  else if can_send agent_name pool then
    ∃ message, attempted agent_name message c w r w' ∧
               message_from agent_name pool message w'
  else r = Return (Continue c) ∧ w' = w.


(** A chat attempt that did not succeed. *)
Definition chat_failed (e : event) : bool :=
  match e with Chatted _ _ false _ => true | _ => false end.

(** An event of the turn of one agent: in the background, or an attempt for
    this agent with one of its messages. *)
Definition for_agent `{Runtime} (agent_name : string) (pool : list string)
    (e : event) : Prop :=
  background e = true ∨
  ∃ message ok rate_limited,
    e = Chatted agent_name message ok rate_limited ∧
    (message ∈ pool ∨
     (pool = [] ∧ agent_name = "Sherlock" ∧ ∃ h, message = tx_question h)).

(** An event of the turn of some agent. *)
Definition of_some_agent `{Runtime} (topics : gmap string (list string))
    (e : event) : Prop :=
  ∃ agent_name, for_agent agent_name (default [] (topics !! agent_name)) e.

(** The agents of the attempts, in order. *)
Definition agents_of (l : list event) : list string := omap chat_agent_of l.

(** Attempts the first round grants an agent. *)
Definition granted (chat_per_agent : Z) (c : chat) : nat :=
  Z.to_nat (Z.min chat_per_agent (GLOBAL_DAILY_CHAT_CAP - total_success_today c)).


(** What the turn of one agent in the first round does, when it starts
    below the cap with the flag down: the events [T] it adds are paced and
    belong to the agent; the loop is left when the flag is up; an agent
    with nothing to send makes no attempt; any other agent makes all the
    attempts it was granted unless the flag goes up. *)
Definition agent_post `{Runtime} (agent_name : string) (pool : list string)
    (chat_per_agent : Z) (c : chat) (w : world) (r : result (step chat))
    (w' : world) : Prop :=
  ∃ T, log w' = log w ++ T ∧ paced c T ∧ Forall (for_agent agent_name pool) T ∧
       r = Return (if hit_global_limit (replay c T)
                   then Break (replay c T) else Continue (replay c T)) ∧
       (can_send agent_name pool = false → chats T = []) ∧
       (can_send agent_name pool = true →
        hit_global_limit (replay c T) = true
        ∨ length (chats T) = granted chat_per_agent c).


Definition is_banner (e : event) : bool :=
  match e with Said ExtraRound => true | _ => false end.

(** Agents of the fixed order that have something to send. *)
Definition senders (topics : gmap string (list string)) (agents : list string)
  : list string :=
  List.filter (has_message topics) agents.

(** The condition under which the extra round runs, on the counters after
    the first round. *)
Definition extra_round_due (chat_per_agent : Z) (c : chat) : bool :=
  (chat_per_agent =? 1) && (total_success_today c <? GLOBAL_DAILY_CHAT_CAP)
  && negb (hit_global_limit c).

(** What the two chat loops do from counters [c]: [T1] are the events of the
    first round, [T2] those of the extra round. *)
Definition rounds_post `{Runtime} (chat_per_agent : Z)
    (topics : gmap string (list string))
    (c : chat) (w : world) (r : result chat) (w' : world) : Prop :=
  ∃ T1 T2,
    let c1 := replay c T1 in
    let extra := extra_round_due chat_per_agent c1 in
    r = Return (replay c (T1 ++ T2)) ∧
    log w' = log w ++ T1 ++ (if extra then Said ExtraRound :: T2 else []) ∧
    (extra = false → T2 = []) ∧
    paced c (T1 ++ T2) ∧
    Forall (of_some_agent topics) (T1 ++ T2) ∧
    (Forall (λ e, chat_failed e = false) T1 →
     Z.min GLOBAL_DAILY_CHAT_CAP
       (total_success_today c
        + Z.max chat_per_agent 0 * Z.of_nat (length (senders topics AGENT_ORDER)))
     ≤ total_success_today c1) ∧
    ∃ done rest,
      AGENT_ORDER = done ++ rest ∧ agents_of T2 = senders topics done ∧
      (extra = true →
       rest = [] ∨ GLOBAL_DAILY_CHAT_CAP ≤ total_success_today (replay c (T1 ++ T2))
       ∨ hit_global_limit (replay c (T1 ++ T2)) = true).


Definition ok_reply (body : json) : reply := Reply 1000 (Response 200 "OK" (Some body)).

Definition status_reply (status_code : Z) : reply :=
  Reply 1000 (Response status_code "" None).

(** The three replies that make one chat attempt succeed. *)
Definition chat_success : list reply :=
  [ok_reply (JObj [("reply", JStr "hello")]);
   ok_reply (JObj [("data", JObj [("id", JStr "receipt-1")])]);
   ok_reply (JObj [("data", JObj [("tx_hash", JStr "0xfeed")])])].

Definition block_reply : reply :=
  ok_reply (JObj [("result",
                   JObj [("transactions", JArr [JObj [("hash", JStr "0xbeef")]])])]).

(** Smart-account lookup, sign-in and registration all succeed. *)
Definition login_replies : list reply :=
  [ok_reply (JObj [("result",
       JStr "0x000000000000000000000000aabbccddeeff00112233445566778899aabbccdd")]);
   ok_reply (JObj [("data", JObj [("access_token", JStr "token")])]);
   ok_reply (JObj [])].

Definition balance_reply (kite : Z) : reply :=
  ok_reply (JObj [("data", JObj [("balances", JObj [("kite", JInt kite)])])]).

Definition tx_reply : reply :=
  ok_reply (JObj [("data", JObj [("tx_hash", JStr "0xabc")])]).

(** Only the Professor has topics. *)
Definition topics_professor : gmap string (list string) :=
  {[ "Professor" := ["hi"] ]}.


(** Replies under which every attempt of both rounds succeeds when only the
    Professor has topics and one chat per agent is requested. *)
Definition all_success_script : list reply :=
  chat_success ++ block_reply :: chat_success ++ chat_success ++ chat_success.


(** Login succeeds, then the service throttles five chat requests in a row,
    rejects the quiz, reports a balance of 2 KITE and accepts a stake. *)
Definition throttled_then_staking : list reply :=
  login_replies ++ replicate 5 (status_reply 429)
  ++ [status_reply 500; balance_reply 2; tx_reply].

(** A request of the staking machine. *)
Definition is_staking_request (e : event) : bool :=
  match e with
  | Sent Balance _ | Sent (Delegate _) _ | Sent (ClaimRewards _) _
  | Sent (Undelegate _) _ => true
  | _ => false
  end.


(** *** Vocabulary of the staking machine *)

(** The exchange is classified Throttled by [request_json]. *)
Definition throttles (ep : endpoint) (x : exchange) : bool :=
  match classify ep x with
  | Raise TooManyRequestsError => true
  | _ => false
  end.

Definition throttled_sent (e : event) : bool :=
  match e with Sent ep x => throttles ep x | _ => false end.

(** What the stake loop makes of the answer to [delegate]: the payload must
    hold a sliceable [tx_hash]. *)
Definition stake_answer (r : result dict) : result unit :=
  and_then r (λ data,
  and_then (as_dict (py_or (dict_get data "data" JNull) (JObj []))) (λ d,
    slice10 (dict_get d "tx_hash" (JStr "")))).

(** What the claim loop makes of the answer to [claim_rewards]: the payload
    must hold a [claim_amount] that converts to a float. *)
Definition claim_answer `{Runtime} (r : result dict) : result float :=
  and_then r (λ data,
  and_then (as_dict (py_or (dict_get data "data" JNull) (JObj []))) (λ d,
    py_float (dict_get d "claim_amount" (JFloat 0)))).

(** The world once [f] has been assigned through the row alias. *)
Definition mutated (address subnet : string) (f : row → row) (w : world) : world :=
  with_st (update_row (st w) address subnet f) w.

(** The world after the [except TooManyRequestsError] branch of a phase. *)
Definition throttled_world (w : world) : world :=
  saved (st w) (logged (Said LimitReached) w).

Definition staked_tally (t : tally) : tally :=
  Tally (kite_bal t - 1)%float (staked_count t + 1) (claimed_count t) (unstaked_count t).
Definition claimed_tally (t : tally) : tally :=
  Tally (kite_bal t) (staked_count t) (claimed_count t + 1) (unstaked_count t).
Definition unstaked_tally (t : tally) : tally :=
  Tally (kite_bal t) (staked_count t) (claimed_count t) (unstaked_count t + 1).

(** The elapsed hours the unstake loop computes for a row, [h or 0.0]. *)
Definition elapsed_hours `{Runtime} (r : row) (now : Z) : float :=
  or_zero
    match last_stake_at r with
    | None => None
    | Some s =>
        if String.eqb s "" then None
        else match fromisoformat s with
             | Some t => Some (hours_of_micros (now - t))
             | None => None
             end
    end.


(** The invariant of a position: a staked position has its stake time. *)
Definition row_ok (r : row) : Prop := staked r = true → is_Some (last_stake_at r).

Definition state_ok (s : state) : Prop :=
  ∀ a t r, lookup_row s a t = Some r → row_ok r.

(** The invariant holds in memory, in the state file, and held of every
    state that was saved. *)
Definition sound (w : world) : Prop :=
  state_ok (st w) ∧
  (∀ s, disk w = Stored s → state_ok s) ∧
  (∀ s, In (Saved s) (log w) → state_ok s).

(** The positions (account, target) of a state file. *)
Definition on_disk (d : file) (a t : string) : Prop :=
  ∃ s, d = Stored s ∧ is_Some (lookup_row s a t).

(** The invariant of one run of [staking_cycle] for [address] that started
    with the state file [d0]: [sound], every configured target of the
    address has its position in memory, and no position of [d0] has been
    lost, in memory or in the file. *)
Definition cycle_inv (address : string) (d0 : file) (w : world) : Prop :=
  sound w ∧
  (∀ name, In name SUBNET_ORDER →
           is_Some (lookup_row (st w) address (SUBNETS name))) ∧
  (∀ a t, on_disk d0 a t → is_Some (lookup_row (st w) a t)) ∧
  (∀ a t, on_disk d0 a t → on_disk (disk w) a t) ∧
  (∀ a t, is_Some (lookup_row (st w) a t) →
          on_disk d0 a t
          ∨ (a = address ∧ ∃ name, In name SUBNET_ORDER ∧ t = SUBNETS name)).

(** The relation "if [I] held before, it holds after". *)
Definition preserved (I : world → Prop) : relation world := λ w w', I w → I w'.

(** Reachable worlds: a fresh process over a sound state file, runs of
    [staking_cycle] and of [process_account], and anything the environment
    does to the replies to come, the clock and the random generator. *)
Inductive reachable `{Runtime} : world → Prop :=
  | reach_start sc now d :
      (∀ s, d = Stored s → state_ok s) →
      reachable (World sc now [] [] d (State None) [])
  | reach_cycle address w :
      reachable w → reachable (staking_cycle address w).2
  | reach_account address chat_per_agent topics w :
      reachable w → reachable (process_account address chat_per_agent topics w).2
  | reach_env sc now ds w :
      reachable w →
      reachable (World sc now ds (_TX_CACHE w) (disk w) (st w) (log w)).


(** No request among the events was answered with a throttle. *)
Definition clean (evs : list event) : Prop :=
  Forall (λ e, throttled_sent e = false) evs.

(** The events end with a throttled request, followed at most by the
    report of the limit, and the run ended by saving the state it holds in
    memory. *)
Definition halted (evs : list event) (w' : world) : Prop :=
  ∃ pre ep x tail,
    evs = pre ++ Sent ep x :: tail ++ [Saved (st w')] ∧
    clean pre ∧ throttles ep x = true ∧
    (tail = [] ∨ tail = [Said LimitReached]) ∧
    disk w' = Stored (st w').

(** What one target step adds: it leaves the loop exactly when its request
    was throttled, after saving. *)
Definition step_post (w : world) (r : result (step tally)) (w' : world) : Prop :=
  ∃ evs, log w' = log w ++ evs ∧
         match r with
         | Return (Break _) => halted evs w'
         | _ => clean evs
         end.

(** The run saved the state it holds in memory as its last action. *)
Definition saved_last (evs : list event) (w' : world) : Prop :=
  disk w' = Stored (st w') ∧ ∃ evs0, evs = evs0 ++ [Saved (st w')].

(** What the phases from a given one to the end of the cycle add. *)
Definition phase_post (w : world) (r : result (Z * Z * Z)) (w' : world) : Prop :=
  ∃ evs, log w' = log w ++ evs ∧
         ((halted evs w' ∧ ∃ v, r = Return v) ∨
          (clean evs ∧ ∀ v, r = Return v → saved_last evs w')).

(** What [get_balances] makes of the answer: the KITE balance. *)
Definition balance_answer `{Runtime} (r : result dict) : result float :=
  and_then r (λ data,
  and_then (as_dict (dict_get data "data" (JObj []))) (λ d,
  and_then (as_dict (py_or (dict_get d "balances" (JObj [])) (JObj []))) (λ bals,
  and_then (py_float (dict_get bals "kite" (JFloat 0))) (λ kite,
  and_then (py_float (dict_get bals "usdt" (JFloat 0))) (λ _, Return kite))))).

(** The balance as the re-stake phase reads it: any failure counts as an
    empty balance. *)
Definition refetched `{Runtime} (w : world) : float :=
  match balance_answer (classify Balance (next_answer w)) with
  | Return kite => kite
  | Raise _ => 0%float
  end.


(** The world once [staking_cycle] has loaded the store and made sure the
    account has its rows. *)
Definition opened (address : string) (w : world) : world :=
  with_st (ensure_account_state
             match disk w with
             | Stored s => s
             | Missing | Corrupt => State (Some ∅)
             end address) w.

(** What a whole staking cycle adds after its opening balance request. *)
Definition cycle_post `{Runtime} (address : string) (w : world)
    (r : result (Z * Z * Z)) (w' : world) : Prop :=
  let x0 := next_answer w in
  ∃ evs, log w' = log w ++ Sent Balance x0 :: evs ∧
    if throttles Balance x0
    then evs = [Said LimitReached] ∧ r = Return (0, 0, 0) ∧
         disk w' = disk w ∧ st w' = st (opened address w)
    else (halted evs w' ∧ ∃ v, r = Return v) ∨
         (clean evs ∧ ∀ v, r = Return v → saved_last evs w').

(** The step of the loop for [name] changes neither the state in memory
    nor the store and, when it returns, the loop over the targets goes past
    [name] with the tally it had. *)
Definition passed_over (body : string → tally → M (step tally)) (name : string)
    (t : tally) (w : world) : Prop :=
  let out := body name t w in
  st out.2 = st w ∧ disk out.2 = disk w ∧
  ∀ r, out.1 = Return r →
       r = Continue t ∧
       ∀ rest, for_each (name :: rest) body t w = for_each rest body t out.2.


Definition claim_reply : reply :=
  ok_reply (JObj [("data", JObj [("claim_amount", JInt 3)])]).

(** Two targets have been staked in an earlier cycle; the service will
    accept the first claim and reject the second. *)
Definition two_staked : world :=
  let w0 := (staking_cycle (H:=toy_runtime) "0xme"
               (fresh [balance_reply 2; tx_reply; tx_reply])).2 in
  World [claim_reply; status_reply 500] (clock w0) [] [] (disk w0) (st w0) [].

(** A toy host: accounts.txt holds [accounts], one key per line, no other
    file exists, and the address of a key is the key after a tag. *)
Fixpoint split_newline (s cur : string) : list string :=
  match s with
  | EmptyString => if String.eqb cur "" then [] else [cur]
  | String c s' =>
      if Ascii.eqb c "010" then cur :: split_newline s' ""
      else split_newline s' (cur +:+ String c "")
  end.

Definition toy_host (accounts : string) : Host := {|
  file_text path :=
    if String.eqb path "accounts.txt" then Text accounts else NoFile;
  splitlines s := split_newline s "";
  strip s := s;
  address_of_key pk := Some ("addr:" +:+ pk);
|}.

Definition key_a : string :=
  "aaaaaaaaaaaaaaaaaaaaaaaaaaaaaaaaaaaaaaaaaaaaaaaaaaaaaaaaaaaaaaaa".
Definition key_b : string :=
  "0XBBBBBBBBBBBBBBBBBBBBBBBBBBBBBBBBBBBBBBBBBBBBBBBBBBBBBBBBBBBBBBBB".

(** One account whose position on Bitte was staked at the instant [t]. *)
Definition staked_since (t : option string) : state :=
  State (Some {[ "0xme" :=
    Account {[ SUBNETS "Bitte" := Row "Bitte" true t None None ]} ]}).

(** The process at the instant [now] (in microseconds), holding a position
    staked at the instant 0. *)
Definition waiting (now : Z) : world :=
  World [] now [] [] Missing (staked_since (Some "0")) [].

(** The service reports a balance of 2 KITE, accepts one stake and
    throttles the next. *)
Definition stake_then_throttled : list reply :=
  [balance_reply 2; tx_reply; status_reply 429].


(** *** Vocabulary of the claim phase *)



(** The endpoints of the requests among the events, in order. *)
Definition requests (evs : list event) : list endpoint :=
  omap (λ e, match e with Sent ep _ => Some ep | _ => None end) evs.

(** The target [name] of [address] is staked in [s]. *)
Definition staked_at (s : state) (address name : string) : bool :=
  match lookup_row s address (SUBNETS name) with
  | Some r => staked r
  | None => false
  end.




(** *** Vocabulary of the remaining pipeline *)

(** An event of the polling loop of [get_inference_tx]: a lookup request or
    a sleep of [wait_sec] seconds. *)
Definition poll_event (wait_sec : Z) (e : event) : bool :=
  match e with
  | Sent InferenceTx _ => true
  | Slept sec => sec =? wait_sec
  | _ => false
  end.

(** What one poll of [get_inference_tx] makes of the answer: the
    transaction hash of the payload. *)
Definition poll_answer (r : result dict) : result json :=
  and_then r (λ data,
  and_then (as_dict (dict_get data "data" (JObj []))) (λ d,
    Return (dict_get d "tx_hash" (JStr "")))).


(** What [submit_receipt] makes of the answer: the receipt id. *)
Definition receipt_answer (r : result dict) : result json :=
  and_then r (λ data,
  and_then (as_dict (dict_get data "data" (JObj []))) (λ d,
    let rid := dict_get d "id" (JStr "") in
    if negb (truthy rid) then Raise (RuntimeError "submit_receipt: missing id")
    else Return rid)).

(** [except TooManyRequestsError] against [except Exception]. *)
Definition is_throttle (e : exn) : bool :=
  match e with TooManyRequestsError => true | _ => false end.

(** The end of [_send_one_chat]: the pair is recorded and returned. *)
Definition chat_returned (agent_name message : string) (r : bool * bool) (w : world)
  : result (bool * bool) * world :=
  (Return r, logged (Chatted agent_name message (fst r) (snd r)) w).


(** What [get_random_tx_hash] makes of the answer to its block request:
    the hashes for the cache. *)
Definition fetched (r : result dict) : result (list json) :=
  and_then r (λ data,
  and_then (as_dict (py_or (dict_get data "result" JNull) (JObj []))) (λ result,
    match py_or (dict_get result "transactions" JNull) (JArr []) with
    | JArr txs => tx_hashes txs
    | JStr _ | JObj _ => Raise AttributeError
    | _ => Raise TypeError
    end)).


(** The cache of transaction hashes once [get_random_tx_hash] has run
    from [w]: the cache as it was when it held a hash, and otherwise the
    hashes the reply to the block request gives, none when the request or
    its decoding fails. *)
Definition cache_after (w : world) : list json :=
  match _TX_CACHE w with
  | [] =>
      match fetched (classify LatestBlock (next_answer w)) with
      | Return hs => hs
      | Raise _ => []
      end
  | h :: hs => h :: hs
  end.

(** The two login steps of [process_account] (lines 547-563). *)
Definition login (address : string) : M (string * json) :=
  aa <- rpc_eth_call_smart_account address ;; signin_and_login address aa.


(** *** Vocabulary of the cycle *)

(** A line of accounts.txt that [run_cycle] refuses. *)
Definition refused `{Host} (raw : string) : Prop :=
  is_valid_pk (pk_norm (strip raw)) = false
  ∨ address_of_key (pk_norm (strip raw)) = None.

(** [process_account] was run for the accounts, one after the other, from
    the world [w]; it returned the outcomes and left the world [w']. *)
Inductive processed `{Runtime} (chat_per_agent : Z)
    (topics : gmap string (list string))
  : list (string * string) → world → list (Z * Z * bool) → world → Prop :=
  | processed_nil w : processed chat_per_agent topics [] w [] w
  | processed_cons acct accts w r w1 rs w2 :
      process_account (fst acct) chat_per_agent topics w = (Return r, w1) →
      processed chat_per_agent topics accts w1 rs w2 →
      processed chat_per_agent topics (acct :: accts) w (r :: rs) w2.


(** The number of one-second sleeps that separate the clock of [w] from
    [next_time]. *)
Definition seconds_left (next_time : Z) (w : world) : nat :=
  Z.to_nat ((next_time - clock w + 999999) `div` 1000000).


(** *** Vocabulary of the history of a position *)

(** The row [r'] has the name of [r] and every timestamp that [r] has. *)
Definition keeps_history (r r' : row) : Prop :=
  name r' = name r ∧
  (is_Some (last_stake_at r) → is_Some (last_stake_at r')) ∧
  (is_Some (last_claim_at r) → is_Some (last_claim_at r')) ∧
  (is_Some (last_unstake_at r) → is_Some (last_unstake_at r')).

(** Every position of [s] is a position of [s'] that keeps its history. *)
Definition history_kept (s s' : state) : Prop :=
  ∀ a t r, lookup_row s a t = Some r →
           ∃ r', lookup_row s' a t = Some r' ∧ keeps_history r r'.

(** The state in memory and the state file keep the history of [s0]. *)
Definition history_inv (s0 : state) (w : world) : Prop :=
  history_kept s0 (st w) ∧ ∃ s, disk w = Stored s ∧ history_kept s0 s.


(** Every staked position of [s] is in [s'] exactly as it was. *)
Definition stays_staked (s s' : state) : Prop :=
  ∀ a t r, lookup_row s a t = Some r → staked r = true →
           lookup_row s' a t = Some r.

(** The stake loop of [staking_cycle] (lines 392-410 and 483-499). *)
Definition stake_loop `{Runtime} (address : string) (t : tally) : M (step tally) :=
  for_each SUBNET_ORDER (stake_target address) t.

(** What the stake loop over the targets [xs] adds, in a cycle whose stake
    loop started from the state [s0]. *)
Definition stake_post (address : string) (xs : list string) (s0 : state)
    (w w' : world) : Prop :=
  stays_staked s0 (st w') ∧
  ∃ evs, log w' = log w ++ evs ∧
    Forall (λ ep, ∃ name, In name xs ∧ ep = Delegate (SUBNETS name) ∧
                          staked_at s0 address name = false) (requests evs).


(** The files of a host whose pesan_professor.txt holds the one line
    [[/b] hi] and which has no other topic file. *)
Definition markup_topic_host : Host := {|
  file_text path :=
    if String.eqb path "pesan_professor.txt" then Text "[/b] hi" else NoFile;
  splitlines s := split_newline s "";
  strip s := s;
  address_of_key pk := Some ("addr:" +:+ pk);
|}.

(** A delegate request refused with an error text that names a page. *)
Definition refused_with_markup : exchange :=
  Response 400 "Bad Request" (Some (JObj [("error", JStr "see [/docs]")])).

(** * Properties *)

(** ** Strings *)

Lemma startswith_spec p s : startswith p s = true ↔ ∃ suf, s = p +:+ suf.
Proof.
  revert s. induction p as [|a p IH]; intros s; simpl.
  - split; [intros _; by exists s | done].
  - destruct s as [|b s].
    + split; [done | intros [suf Hs]; discriminate].
    + destruct (Ascii.eqb_spec a b) as [->|Hne].
      * rewrite IH. split; intros [suf Hs]; exists suf; [by rewrite Hs | by injection Hs].
      * split; [done | intros [suf Hs]; injection Hs; intros _ ?; by subst].
Qed.

Lemma py_in_spec needle hay : py_in needle hay = true ↔ occurs_in needle hay.
Proof.
  unfold occurs_in. split.
  - induction hay as [|c hay IH]; simpl; rewrite orb_true_iff.
    + intros [Hs|]; [|done]. apply startswith_spec in Hs as [suf ->].
      by exists "", suf.
    + intros [Hs|Hin].
      * apply startswith_spec in Hs as [suf ->]. by exists "", suf.
      * destruct (IH Hin) as (pre & suf & ->). by exists (String c pre), suf.
  - intros (pre & suf & ->). induction pre as [|c pre IH]; simpl.
    + assert (startswith needle (needle +:+ suf) = true) as Hs
        by (apply startswith_spec; by exists suf).
      destruct (needle +:+ suf); simpl in *; by rewrite Hs.
    + simpl in IH. rewrite IH. apply orb_true_r.
Qed.

(** ** The result classifier *)

Lemma request_json_run ep w :
  request_json ep w = (classify ep (next_answer w), sent ep w).
Proof. reflexivity. Qed.

Lemma error_text_found data e :
  dict_find data "error" = Some (JStr e) → error_text data = Return (lower e).
Proof.
  intros Hf. unfold error_text, dict_get, py_or. rewrite Hf. simpl.
  by destruct (String.eqb e "") eqn:He; [apply String.eqb_eq in He as ->|].
Qed.

(** For every completed exchange, [request_json] raises
    [TooManyRequestsError] when the status is 429, and when the body decodes
    to a dictionary whose error message contains, in any letter case,
    "too many" or both "rate" and "limit"; a body that does not decode
    yields the empty dictionary when the status is below 400 and an
    exception when the status is from 400 to 599. *)
Theorem request_json_classifies ep w status_code reason body :
  next_answer w = Response status_code reason body →
  (status_code = 429 → fst (request_json ep w) = Raise TooManyRequestsError) ∧
  (∀ data e,
     body = Some (JObj data) → dict_find data "error" = Some (JStr e) →
     occurs_in "too many" (lower e)
     ∨ (occurs_in "rate" (lower e) ∧ occurs_in "limit" (lower e)) →
     fst (request_json ep w) = Raise TooManyRequestsError) ∧
  (body = None → status_code < 400 → fst (request_json ep w) = Return []) ∧
  (body = None → 400 ≤ status_code < 600 → ∃ e, fst (request_json ep w) = Raise e).
Proof.
  intros Hx. rewrite request_json_run, Hx. simpl fst. repeat split.
  - intros ->. reflexivity.
  - intros data e -> Hf Hocc. unfold classify.
    destruct (status_code =? 429); [done|].
    rewrite (error_text_found _ _ Hf). simpl.
    assert (py_in "too many" (lower e)
            || (py_in "rate" (lower e) && py_in "limit" (lower e)) = true) as ->; [|done].
    rewrite orb_true_iff, andb_true_iff, !py_in_spec. exact Hocc.
  - intros -> Hlt. unfold classify, raise_for_status.
    destruct (Z.eqb_spec status_code 429); [lia|].
    destruct (Z.leb_spec 400 status_code); [lia|]. simpl.
    destruct (Z.leb_spec 500 status_code); [lia|]. reflexivity.
  - intros -> [Hge Hlt]. unfold classify, raise_for_status.
    destruct (status_code =? 429); [by eexists|].
    destruct (Z.leb_spec 400 status_code); [|lia].
    destruct (Z.ltb_spec status_code 500); simpl; [by eexists|].
    destruct (Z.leb_spec 500 status_code); [|lia].
    destruct (Z.ltb_spec status_code 600); simpl; [by eexists|lia].
Qed.

Lemma request_json_classifies_witness :
  fst (request_json Me (world_answering (Response 429 "Too Many Requests" None)))
    = Raise TooManyRequestsError ∧
  fst (request_json Me (world_answering
         (Response 200 "OK" (Some (JObj [("error", JStr "Rate Limit exceeded")])))))
    = Raise TooManyRequestsError ∧
  fst (request_json Me (world_answering (Response 204 "No Content" None))) = Return [] ∧
  (∃ e, fst (request_json Me (world_answering (Response 502 "Bad Gateway" None)))
        = Raise e).
Proof.
  split; [|split; [|split]].
  - exact (proj1 (request_json_classifies Me
             (world_answering (Response 429 "Too Many Requests" None)) _ _ _ eq_refl)
             eq_refl).
  - refine (proj1 (proj2 (request_json_classifies Me
              (world_answering (Response 200 "OK"
                 (Some (JObj [("error", JStr "Rate Limit exceeded")])))) _ _ _ eq_refl))
              _ _ eq_refl eq_refl _).
    right. split; [by exists "", " limit exceeded" | by exists "rate ", " exceeded"].
  - refine (proj1 (proj2 (proj2 (request_json_classifies Me
              (world_answering (Response 204 "No Content" None)) _ _ _ eq_refl)))
              eq_refl _). lia.
  - refine (proj2 (proj2 (proj2 (request_json_classifies Me
              (world_answering (Response 502 "Bad Gateway" None)) _ _ _ eq_refl)))
              eq_refl _). lia.
Defined.

(** C3, at a completed exchange with status 600.  When the body decodes,
    [request_json] raises [HTTPError] (line 151, [r.status_code >= 400]).
    When the body does not decode it returns the empty dictionary:
    [raise_for_status] (line 146) raises for 4xx and 5xx only, so the
    status, which is at least 400, is passed over. *)
Theorem request_json_undecodable_600 :
  fst (request_json Me (world_answering (Response 600 "" (Some (JObj [])))))
    = Raise (HTTPError "HTTP 600") ∧
  fst (request_json Me (world_answering (Response 600 "" None))) = Return [].
Proof. split; vm_compute; reflexivity. Qed.

(** ** ensure_account_state *)

Lemma ensure_key_lookup k v (m : gmap string row) t :
  ensure_key k v m !! t
  = match m !! t with
    | Some r => Some r
    | None => if decide (t = k) then Some v else None
    end.
Proof.
  unfold ensure_key. destruct (m !! k) eqn:Hk.
  - destruct (m !! t) eqn:Ht; [done|]. case_decide; [congruence|done].
  - case_decide as Heq.
    + subst. by rewrite lookup_insert_eq, Hk.
    + rewrite lookup_insert_ne by done. by destruct (m !! t).
Qed.

Lemma ensured_lookup (m : gmap string row) t :
  ensured m !! t = match m !! t with Some r => Some r | None => default_for t end.
Proof.
  unfold ensured, default_for. cbn [foldl SUBNET_ORDER List.find].
  rewrite !ensure_key_lookup. destruct (m !! t); [done|].
  repeat case_decide; subst; try done.
  all: repeat match goal with
         | |- context [String.eqb ?a ?b] =>
             destruct (String.eqb_spec a b); try congruence
         end; try done.
Qed.

Lemma ensured_idemp (m : gmap string row) : ensured (ensured m) = ensured m.
Proof.
  apply map_eq. intros t. rewrite !ensured_lookup.
  destruct (m !! t); [done|]. by destruct (default_for t).
Qed.

Lemma default_for_Some t r :
  default_for t = Some r →
  ∃ name, In name SUBNET_ORDER ∧ t = SUBNETS name ∧ r = default_row name.
Proof.
  unfold default_for. destruct (List.find _ _) as [name|] eqn:Hf; [|done].
  intros [= <-]. apply find_some in Hf as [Hin Heq].
  apply String.eqb_eq in Heq. by exists name.
Qed.

Lemma default_for_target name :
  In name SUBNET_ORDER → default_for (SUBNETS name) = Some (default_row name).
Proof.
  cbn. intros [<-|[<-|[<-|[]]]]; reflexivity.
Qed.

Lemma ensure_subnet_eq address (accts : gmap string account) name a :
  accts !! address = Some a →
  ensure_subnet address accts name
  = <[address := Account (ensure_key (SUBNETS name) (default_row name) (subnets a))]> accts.
Proof.
  intros Ha. unfold ensure_subnet, ensure_key. rewrite Ha.
  destruct (subnets a !! SUBNETS name); [|done].
  symmetry. apply insert_id. by destruct a.
Qed.

Lemma foldl_ensure_subnet address names (accts : gmap string account) a :
  accts !! address = Some a →
  foldl (ensure_subnet address) accts names
  = <[address := Account (foldl (λ m name, ensure_key (SUBNETS name) (default_row name) m)
                                (subnets a) names)]> accts.
Proof.
  revert accts a. induction names as [|name names IH]; intros accts a Ha; simpl.
  - symmetry. apply insert_id. by destruct a.
  - rewrite (ensure_subnet_eq _ _ _ _ Ha).
    erewrite IH by apply lookup_insert_eq. simpl. by rewrite insert_insert_eq.
Qed.

(** The accounts and the entry of [address] that the loop starts from. *)
Lemma ensure_account_state_eq s address :
  let accts := match accounts s with Some a => a | None => ∅ end in
  let a := match accts !! address with Some a => a | None => Account ∅ end in
  ensure_account_state s address
  = State (Some (<[address := Account (ensured (subnets a))]> accts)).
Proof.
  intros accts a. unfold ensure_account_state. fold accts. unfold a.
  destruct (accts !! address) as [a0|] eqn:Ha.
  - by rewrite (foldl_ensure_subnet _ _ _ _ Ha).
  - erewrite foldl_ensure_subnet by apply lookup_insert_eq.
    by rewrite insert_insert_eq.
Qed.

Lemma lookup_row_ensure s address a t :
  lookup_row (ensure_account_state s address) a t
  = match lookup_row s a t with
    | Some r => Some r
    | None => if decide (a = address) then default_for t else None
    end.
Proof.
  rewrite ensure_account_state_eq. unfold lookup_row. simpl.
  destruct (accounts s) as [accts|]; simpl.
  - case_decide as Heq.
    + subst a. rewrite lookup_insert_eq. simpl. rewrite ensured_lookup.
      destruct (accts !! address) as [acct|]; simpl; [done|].
      by rewrite lookup_empty.
    + rewrite lookup_insert_ne by done.
      destruct (accts !! a) as [acct|]; simpl; [|done].
      by destruct (subnets acct !! t).
  - case_decide as Heq.
    + subst a. rewrite lookup_insert_eq, lookup_empty. simpl.
      by rewrite ensured_lookup, lookup_empty.
    + rewrite lookup_insert_ne by done. by rewrite lookup_empty.
Qed.

Lemma ensure_account_state_rows s address :
  (∀ a t r, lookup_row s a t = Some r →
            lookup_row (ensure_account_state s address) a t = Some r) ∧
  (∀ a t r, lookup_row (ensure_account_state s address) a t = Some r →
            lookup_row s a t = Some r
            ∨ (lookup_row s a t = None ∧ a = address ∧
               ∃ name, In name SUBNET_ORDER ∧ t = SUBNETS name ∧
                       r = Row name false None None None)) ∧
  (∀ name, In name SUBNET_ORDER →
           is_Some (lookup_row (ensure_account_state s address) address (SUBNETS name))).
Proof.
  split; [|split].
  - intros a t r Hr. by rewrite lookup_row_ensure, Hr.
  - intros a t r. rewrite lookup_row_ensure.
    destruct (lookup_row s a t) as [r0|]; [by left|].
    case_decide; [|done]. intros Hd. right. split; [done|]. split; [done|].
    by apply default_for_Some.
  - intros name Hin. rewrite lookup_row_ensure.
    destruct (lookup_row s address (SUBNETS name)); [done|].
    rewrite decide_True by done. rewrite default_for_target by done. done.
Qed.

(** C10: [ensure_account_state] is idempotent; it keeps every existing
    (account, target) entry as it is; an entry it adds belongs to the given
    address, is one of the configured targets, and holds the default values
    (not staked, no timestamps); and afterwards the address has an entry for
    every configured target. *)
Theorem ensure_account_state_idempotent s address :
  ensure_account_state (ensure_account_state s address) address
    = ensure_account_state s address ∧
  (∀ a t r, lookup_row s a t = Some r →
            lookup_row (ensure_account_state s address) a t = Some r) ∧
  (∀ a t r, lookup_row (ensure_account_state s address) a t = Some r →
            lookup_row s a t = Some r
            ∨ (lookup_row s a t = None ∧ a = address ∧
               ∃ name, In name SUBNET_ORDER ∧ t = SUBNETS name ∧
                       r = Row name false None None None)) ∧
  (∀ name, In name SUBNET_ORDER →
           is_Some (lookup_row (ensure_account_state s address) address (SUBNETS name))).
Proof.
  split; [|split; [|split]].
  - rewrite (ensure_account_state_eq (ensure_account_state s address)).
    rewrite ensure_account_state_eq. cbn [accounts].
    rewrite lookup_insert_eq. cbn [subnets].
    by rewrite ensured_idemp, insert_insert_eq.
  - intros a t r Hr. by rewrite lookup_row_ensure, Hr.
  - intros a t r. rewrite lookup_row_ensure.
    destruct (lookup_row s a t) as [r0|]; [by left|].
    case_decide; [|done]. intros Hd. right. split; [done|]. split; [done|].
    by apply default_for_Some.
  - intros name Hin. rewrite lookup_row_ensure.
    destruct (lookup_row s address (SUBNETS name)); [done|].
    rewrite decide_True by done. rewrite default_for_target by done. done.
Qed.

(** ** Reasoning about computations *)

Section wp_rules.
Context {A B : Type}.
Implicit Types (w : world) (m : M A) (k : A → M B).

Lemma wp_lift (r : result A) w Q : Q r w → wp (lift r) w Q.
Proof. done. Qed.

Lemma wp_ret (a : A) w Q : Q (Return a) w → wp (ret a) w Q.
Proof. done. Qed.

Lemma wp_raise e w (Q : result A → world → Prop) : Q (Raise e) w → wp (raise e) w Q.
Proof. done. Qed.

Lemma wp_bind m k w (Q : result B → world → Prop) :
  wp m w (λ r w', match r with
                  | Return a => wp (k a) w' Q
                  | Raise e => Q (Raise e) w'
                  end) →
  wp (bind m k) w Q.
Proof. unfold wp, bind. by destruct (m w) as [[a|e] w']. Qed.

Lemma wp_try m (h : exn → M A) w Q :
  wp m w (λ r w', match r with
                  | Return a => Q (Return a) w'
                  | Raise e => wp (h e) w' Q
                  end) →
  wp (try_except m h) w Q.
Proof. unfold wp, try_except. by destruct (m w) as [[a|e] w']. Qed.

Lemma wp_mono m w (Q Q' : result A → world → Prop) :
  wp m w Q → (∀ r w', Q r w' → Q' r w') → wp m w Q'.
Proof. unfold wp. auto. Qed.

Lemma wp_run m w (Q : result A → world → Prop) r w' :
  m w = (r, w') → Q r w' → wp m w Q.
Proof. unfold wp. by intros ->. Qed.

Lemma wp_elim m w (Q : result A → world → Prop) :
  wp m w Q → ∀ r w', m w = (r, w') → Q r w'.
Proof. unfold wp. intros HQ r w' E. by rewrite E in HQ. Qed.
End wp_rules.

Lemma wp_request_json ep w Q :
  Q (classify ep (next_answer w)) (sent ep w) → wp (request_json ep) w Q.
Proof. done. Qed.

(** The loop rule: [I done s w] holds when the elements [done] have been
    processed without leaving the loop. *)
Lemma wp_for_each {X S} (all : list X) (body : X → S → M (step S))
    (I : list X → S → world → Prop) (Q : result (step S) → world → Prop) :
  (∀ done x rest s w,
     all = done ++ x :: rest → I done s w →
     wp (body x s) w (λ r w', match r with
                              | Return (Continue s') => I (done ++ [x]) s' w'
                              | _ => Q r w'
                              end)) →
  (∀ s w, I all s w → Q (Return (Continue s)) w) →
  ∀ xs done s w,
    all = done ++ xs → I done s w → wp (for_each xs body s) w Q.
Proof.
  intros Hbody Hend xs. induction xs as [|x xs IH]; intros done s w Hall HI.
  - rewrite app_nil_r in Hall. subst. by apply wp_ret, Hend.
  - simpl. apply wp_bind. eapply wp_mono; [by eapply Hbody|].
    intros [[s'|s']|e] w' H; simpl in *; [|done..].
    eapply IH; [|done]. by rewrite <- app_assoc.
Qed.

(** *** Relations that every run respects *)

Section respects_rules.
Context (R : relation world) `{!PreOrder R}.

Lemma respects_lift {A} (r : result A) : respects R (lift r).
Proof. intros w. simpl. reflexivity. Qed.

Lemma respects_ret {A} (a : A) : respects R (ret a).
Proof. apply respects_lift. Qed.

Lemma respects_raise {A} e : respects R (raise (A:=A) e).
Proof. apply respects_lift. Qed.

Lemma respects_bind {A B} (m : M A) (k : A → M B) :
  respects R m → (∀ a, respects R (k a)) → respects R (bind m k).
Proof.
  intros Hm Hk w. unfold bind. specialize (Hm w).
  destruct (m w) as [[a|e] w']; simpl in *; [|done].
  etrans; [done|]. apply Hk.
Qed.

Lemma respects_try {A} (m : M A) (h : exn → M A) :
  respects R m → (∀ e, respects R (h e)) → respects R (try_except m h).
Proof.
  intros Hm Hh w. unfold try_except. specialize (Hm w).
  destruct (m w) as [[a|e] w']; simpl in *; [done|].
  etrans; [done|]. apply Hh.
Qed.

Lemma respects_for_each {X S} (xs : list X) (body : X → S → M (step S)) s :
  (∀ x s, respects R (body x s)) → respects R (for_each xs body s).
Proof.
  intros Hbody. revert s. induction xs as [|x xs IH]; intros s; simpl.
  - apply respects_ret.
  - apply respects_bind; [done|]. intros [s'|s']; [done|apply respects_ret].
Qed.

Lemma respects_read {A} (f : world → A) : respects R (λ w, (Return (f w), w)).
Proof. intros w. simpl. reflexivity. Qed.

Lemma respects_wp {A} (m : M A) w0 w :
  respects R m → R w0 w → wp m w (λ _ w', R w0 w').
Proof. intros Hm H0. unfold wp. etrans; [done|]. apply Hm. Qed.
End respects_rules.

(** *** Frames: what a run adds to the log, what it leaves alone *)

Global Instance adds_preorder P : PreOrder (adds P).
Proof.
  split.
  - intros w. exists []. by rewrite app_nil_r.
  - intros w1 w2 w3 (e1 & H1 & F1) (e2 & H2 & F2). exists (e1 ++ e2).
    rewrite H2, H1, app_assoc. split; [done|]. by apply Forall_app.
Qed.

Global Instance keeps_preorder {F} (f : world → F) : PreOrder (keeps f).
Proof. split; [by intros w | intros w1 w2 w3 H1 H2; unfold keeps in *; congruence]. Qed.

Lemma adds_one P e w w' : log w' = log w ++ [e] → P e = true → adds P w w'.
Proof. intros Hl He. exists [e]. split; [done|]. by constructor. Qed.

Lemma adds_new_events P w w' :
  adds P w w' → log w' = log w ++ new_events w w' ∧
                Forall (λ e, P e = true) (new_events w w').
Proof.
  intros (evs & Hl & HF). unfold new_events. rewrite Hl, drop_app_length. done.
Qed.

Lemma adds_weaken (P P' : event → bool) w w' :
  (∀ e, P e = true → P' e = true) → adds P w w' → adds P' w w'.
Proof.
  intros HP (evs & Hl & HF). exists evs. split; [done|].
  eapply Forall_impl; [done|]. auto.
Qed.

Section primitives_add.
Context (P : event → bool).

Lemma emit_adds e : P e = true → respects (adds P) (emit e).
Proof. intros He w. by eapply adds_one. Qed.

Lemma session_request_adds ep :
  (∀ x, P (Sent ep x) = true) → respects (adds P) (session_request ep).
Proof. intros He w. by eapply adds_one. Qed.

Lemma request_json_adds ep :
  (∀ x, P (Sent ep x) = true) → respects (adds P) (request_json ep).
Proof. intros He w. by eapply adds_one. Qed.

Lemma sleep_seconds_adds sec :
  P (Slept sec) = true → respects (adds P) (sleep_seconds sec).
Proof. intros He w. by eapply adds_one. Qed.

Lemma state_save_adds s :
  P (Saved s) = true → respects (adds P) (state_save s).
Proof. intros He w. by eapply adds_one. Qed.

Lemma random_choice_adds {A} (l : list A) d : respects (adds P) (random_choice l d).
Proof. intros w. exists []. by rewrite app_nil_r. Qed.

Lemma set_st_adds s : respects (adds P) (set_st s).
Proof. intros w. exists []. by rewrite app_nil_r. Qed.

Lemma set_TX_CACHE_adds c : respects (adds P) (set_TX_CACHE c).
Proof. intros w. exists []. by rewrite app_nil_r. Qed.
End primitives_add.

(** One step of a syntax-directed proof that a computation respects a
    relation; [prim] closes the primitive effects. *)
Ltac respects_step prim :=
  lazymatch goal with
  | |- PreOrder _ => exact _
  | |- respects _ (bind _ _) => apply respects_bind; [| | intros ?]
  | |- respects _ (try_except _ _) => apply respects_try; [| | intros ?]
  | |- respects _ (lift _) => apply respects_lift
  | |- respects _ (ret _) => apply respects_ret
  | |- respects _ (raise _) => apply respects_raise
  | |- respects _ (for_each _ _ _) =>
      apply respects_for_each; [| intros ? ?; cbv beta]
  | |- respects _ get_st => apply (respects_read _ st)
  | |- respects _ now_jkt => apply (respects_read _ clock)
  | |- respects _ get_TX_CACHE => apply (respects_read _ _TX_CACHE)
  | |- respects _ state_load => apply respects_read
  | |- respects _ (match ?x with _ => _ end) => destruct x
  | |- respects _ (let _ := _ in _) => cbv zeta
  | |- _ => prim
  end.

Ltac respects_auto prim := repeat (respects_step prim).

(** Primitive effects under [adds P], for a [P] that computes. *)
Ltac adds_prim :=
  first
    [ apply emit_adds; reflexivity
    | apply request_json_adds; intros ?; reflexivity
    | apply session_request_adds; intros ?; reflexivity
    | apply sleep_seconds_adds; reflexivity
    | apply state_save_adds; reflexivity
    | apply random_choice_adds
    | apply set_st_adds
    | apply set_TX_CACHE_adds ].

(** Primitive effects under [keeps f], for a field the effect leaves alone. *)
Ltac keeps_prim := intros ?; reflexivity.

Lemma get_inference_tx_adds P n wait :
  (∀ x, P (Sent InferenceTx x) = true) → P (Slept wait) = true →
  respects (adds P) (get_inference_tx n wait).
Proof.
  intros HS HW. induction n as [|n IH]; simpl.
  - respects_auto idtac.
  - respects_auto ltac:(first [ apply IH | by apply request_json_adds
                              | by apply sleep_seconds_adds ]).
Qed.

Lemma get_inference_tx_keeps {F} (f : world → F) n wait :
  (∀ ep w, f (sent ep w) = f w) → (∀ sec w, f (slept sec w) = f w) →
  respects (keeps f) (get_inference_tx n wait).
Proof.
  intros HS HW. induction n as [|n IH]; simpl.
  - respects_auto idtac.
  - respects_auto ltac:(first [ apply IH | intros ?; apply HS | intros ?; apply HW ]).
Qed.

(** ** The chat budget allocator *)

Lemma send_one_chat_spec aa address agent message w :
  ∃ ok rate_limited w1,
    _send_one_chat aa address agent message w
      = (Return (ok, rate_limited), logged (Chatted agent message ok rate_limited) w1) ∧
    adds background w w1 ∧ keeps _TX_CACHE w w1.
Proof.
  unfold _send_one_chat.
  set (body := (chat_ai agent address message ;;; submit_receipt ;;;
                get_inference_tx 5 8 ;;; ret (true, false))).
  assert (respects (adds background) body) as Hadd.
  { unfold body, chat_ai, submit_receipt.
    respects_auto ltac:(first [ adds_prim | by apply get_inference_tx_adds ]). }
  assert (respects (keeps _TX_CACHE) body) as Hkeep.
  { unfold body, chat_ai, submit_receipt, request_json.
    respects_auto ltac:(first [ by apply get_inference_tx_keeps | keeps_prim ]). }
  specialize (Hadd w). specialize (Hkeep w).
  unfold bind at 1, try_except.
  destruct (body w) as [[[ok rl]|e] w1]; simpl in *.
  - by exists ok, rl, w1.
  - destruct e; by eexists _, _, w1.
Qed.

Lemma random_choice_elem {A} (l : list A) d w :
  l ≠ [] → (random_choice l d w).1 = Return (nth (match dice w with
                                                   | [] => 0
                                                   | n :: _ => n mod length l
                                                   end)%nat l d) ∧
           ∃ x, (random_choice l d w).1 = Return x ∧ x ∈ l.
Proof.
  intros Hl. split; [done|]. eexists. split; [done|].
  apply list_elem_of_In, nth_In.
  assert (length l ≠ 0%nat) by (by destruct l).
  destruct (dice w); [lia|]. by apply Nat.mod_upper_bound.
Qed.

Lemma get_random_tx_hash_spec w :
  wp get_random_tx_hash w (λ r w1,
    ∃ h, r = Return h ∧ adds background w w1 ∧
         (h ∈ _TX_CACHE w1 ∨ (h = JStr zero_hash ∧ _TX_CACHE w1 = []))).
Proof.
  assert (∀ w0 w1 : world, adds background w0 w1 → _TX_CACHE w1 ≠ [] →
            wp (random_choice (_TX_CACHE w1) JNull) w1 (λ r w2,
              ∃ h, r = Return h ∧ adds background w0 w2 ∧
                   (h ∈ _TX_CACHE w2 ∨ (h = JStr zero_hash ∧ _TX_CACHE w2 = []))))
    as Hchoice.
  { intros w0 w1 Hadd Hne.
    destruct (random_choice_elem (_TX_CACHE w1) JNull w1 Hne) as (_ & h & Hh & Hin).
    unfold wp. exists h. split; [done|]. split; [done|]. by left. }
  unfold get_random_tx_hash. apply wp_bind. unfold wp at 1. cbn [get_TX_CACHE fst snd].
  destruct (_TX_CACHE w) as [|x cache] eqn:Hc.
  - apply wp_bind, wp_try.
    set (fetch := bind fetch_tx_hashes _).
    assert (respects (adds background) fetch) as Hadd.
    { unfold fetch, fetch_tx_hashes. respects_auto adds_prim. }
    eapply wp_mono; [apply (respects_wp _ fetch w w Hadd); reflexivity|].
    intros r w1 Hw1.
    assert (wp (cache <- get_TX_CACHE ;;
                match cache with
                | [] => ret (JStr zero_hash)
                | _ :: _ => random_choice cache JNull
                end) w1 (λ r w2,
              ∃ h, r = Return h ∧ adds background w w2 ∧
                   (h ∈ _TX_CACHE w2 ∨ (h = JStr zero_hash ∧ _TX_CACHE w2 = [])))) as Hk.
    { apply wp_bind. unfold wp at 1. cbn [get_TX_CACHE fst snd].
      destruct (_TX_CACHE w1) as [|y cache1] eqn:Hc1.
      - apply wp_ret. exists (JStr zero_hash). auto.
      - rewrite <- Hc1. apply Hchoice; [done|]. by rewrite Hc1. }
    destruct r as [[]|e]; [exact Hk|]. apply wp_ret. exact Hk.
  - rewrite <- Hc. apply Hchoice; [reflexivity|]. by rewrite Hc.
Qed.

Lemma account_outcome_run ok rate_limited c w :
  ∃ w1, account_outcome ok rate_limited c w = (Return (settle ok rate_limited c), w1) ∧
        adds background w w1 ∧ keeps _TX_CACHE w w1.
Proof.
  unfold account_outcome, settle.
  destruct ok; [|destruct rate_limited; [destruct (5 <=? _)|]].
  all: eexists; split; [reflexivity|]; split; try reflexivity.
  all: by eapply adds_one.
Qed.

(** An attempt: the message is sent, its outcome recorded and settled. *)
Lemma attempt_spec aa address agent message c w0 w :
  adds background w0 w →
  wp (r <- _send_one_chat aa address agent message ;;
      account_outcome (fst r) (snd r) c) w
     (λ r w', attempted agent message c w0 r w' ∧ keeps _TX_CACHE w w').
Proof.
  intros (pre & Hpre & Fpre).
  destruct (send_one_chat_spec aa address agent message w)
    as (ok & rl & w1 & Hrun & (e1 & Hl1 & F1) & Hk1).
  apply wp_bind. eapply wp_run; [exact Hrun|]. simpl.
  destruct (account_outcome_run ok rl c (logged (Chatted agent message ok rl) w1))
    as (w2 & Hrun2 & (e2 & Hl2 & F2) & Hk2).
  eapply wp_run; [exact Hrun2|]. split.
  - exists ok, rl, (pre ++ e1), e2. rewrite Hl2. simpl. rewrite Hl1, Hpre.
    rewrite <- !app_assoc. simpl. split; [done|]. split; [by apply Forall_app|done].
  - unfold keeps in *. rewrite Hk2. simpl. done.
Qed.

Lemma fallback_attempt_spec `{Runtime} aa address agent c w :
  wp (h <- get_random_tx_hash ;;
      r <- _send_one_chat aa address agent (tx_question h) ;;
      account_outcome (fst r) (snd r) c) w
     (λ r w', ∃ h, attempted agent (tx_question h) c w r w' ∧
                   (h ∈ _TX_CACHE w' ∨ h = JStr zero_hash)).
Proof.
  apply wp_bind. eapply wp_mono; [apply get_random_tx_hash_spec|].
  intros r w1 (h & -> & Hadd & Hh).
  eapply wp_mono; [by apply attempt_spec|].
  intros r w' [Hatt Hk]. exists h. split; [done|].
  unfold keeps in Hk. rewrite Hk. destruct Hh as [?|[? _]]; auto.
Qed.

Lemma topic_attempt_spec aa address agent (pool : list string) c w :
  pool ≠ [] →
  wp (msg <- random_choice pool "" ;;
      r <- _send_one_chat aa address agent msg ;;
      account_outcome (fst r) (snd r) c) w
     (λ r w', ∃ message, attempted agent message c w r w' ∧ message ∈ pool).
Proof.
  intros Hne. apply wp_bind.
  destruct (random_choice_elem pool "" w Hne) as (_ & msg & Hm & Hin).
  eapply wp_run; [apply surjective_pairing|]. rewrite Hm.
  eapply wp_mono; [apply (attempt_spec _ _ _ _ _ w); by apply random_choice_adds|].
  intros r w' [Hatt _]. by exists msg.
Qed.

Lemma chat_slot_spec `{Runtime} aa address agent pool i c w :
  wp (chat_slot aa address agent pool i c) w (slot_post agent pool c w).
Proof.
  unfold chat_slot, slot_post, can_send.
  destruct (Z.leb_spec GLOBAL_DAILY_CHAT_CAP (total_success_today c)).
  { rewrite (bool_decide_true (GLOBAL_DAILY_CHAT_CAP ≤ _)) by done. by apply wp_ret. }
  rewrite (bool_decide_false (GLOBAL_DAILY_CHAT_CAP ≤ _)) by lia. unfold message_from.
  destruct (String.eqb agent "Sherlock") eqn:Hs; simpl;
    destruct (bool_decide (pool = [])) eqn:Hp; simpl.
  - eapply wp_mono; [apply fallback_attempt_spec|].
    intros r w' (h & Hatt & Hh). eauto.
  - apply bool_decide_eq_false in Hp.
    eapply wp_mono; [by apply topic_attempt_spec|].
    intros r w' (msg & Hatt & Hin). eauto.
  - done.
  - apply bool_decide_eq_false in Hp.
    eapply wp_mono; [by apply topic_attempt_spec|].
    intros r w' (msg & Hatt & Hin). eauto.
Qed.

Lemma retry_agent_spec `{Runtime} aa address topics agent c w :
  wp (retry_agent aa address topics agent c) w
     (retry_post agent (default [] (topics !! agent)) c w).
Proof.
  unfold retry_agent, retry_post, can_send.
  destruct (Z.leb_spec GLOBAL_DAILY_CHAT_CAP (total_success_today c)).
  { rewrite (bool_decide_true (GLOBAL_DAILY_CHAT_CAP ≤ _)) by done. by apply wp_ret. }
  rewrite (bool_decide_false (GLOBAL_DAILY_CHAT_CAP ≤ _)) by lia. unfold message_from. cbv zeta.
  set (pool := default [] (topics !! agent)).
  destruct (String.eqb agent "Sherlock") eqn:Hs; simpl;
    destruct (bool_decide (pool = [])) eqn:Hp; simpl.
  - eapply wp_mono; [apply fallback_attempt_spec|].
    intros r w' (h & Hatt & Hh). eauto.
  - apply bool_decide_eq_false in Hp.
    eapply wp_mono; [by apply topic_attempt_spec|].
    intros r w' (msg & Hatt & Hin). eauto.
  - done.
  - apply bool_decide_eq_false in Hp.
    eapply wp_mono; [by apply topic_attempt_spec|].
    intros r w' (msg & Hatt & Hin). eauto.
Qed.

(** *** Counters and traces *)

Lemma replay_app c l1 l2 : replay c (l1 ++ l2) = replay (replay c l1) l2.
Proof. apply foldl_app. Qed.

Lemma on_event_not_chat c e : is_chat e = false → on_event c e = c.
Proof. by destruct e. Qed.

Lemma background_not_chat e : background e = true → is_chat e = false.
Proof. by destruct e. Qed.

Lemma replay_not_chat c l : Forall (λ e, is_chat e = false) l → replay c l = c.
Proof.
  intros Hl. revert c. induction Hl as [|e l He _ IH]; intros c; simpl; [done|].
  by rewrite on_event_not_chat.
Qed.

Lemma replay_background c l : Forall (λ e, background e = true) l → replay c l = c.
Proof.
  intros Hl. apply replay_not_chat. eapply Forall_impl; [done|].
  apply background_not_chat.
Qed.

Lemma chats_app l1 l2 : chats (l1 ++ l2) = chats l1 ++ chats l2.
Proof. apply List.filter_app. Qed.

Lemma chats_not_chat l : Forall (λ e, is_chat e = false) l → chats l = [].
Proof.
  induction 1 as [|e l He _ IH]; simpl; [done|]. by rewrite He.
Qed.

Lemma chats_background l : Forall (λ e, background e = true) l → chats l = [].
Proof.
  intros Hl. apply chats_not_chat. eapply Forall_impl; [done|].
  apply background_not_chat.
Qed.

Lemma oks_app l1 l2 : oks (l1 ++ l2) = oks l1 + oks l2.
Proof. unfold oks. rewrite List.filter_app, length_app. lia. Qed.

Lemma oks_nonneg l : 0 ≤ oks l.
Proof. unfold oks. lia. Qed.

Lemma oks_le_chats l : oks l ≤ Z.of_nat (length (chats l)).
Proof.
  unfold oks, chats. induction l as [|e l IH]; simpl; [lia|].
  destruct e as [| | | |a m [] rl]; simpl in *; lia.
Qed.

Lemma oks_not_chat l : Forall (λ e, is_chat e = false) l → oks l = 0.
Proof.
  intros Hl. pose proof (oks_le_chats l) as Hle. pose proof (oks_nonneg l).
  rewrite chats_not_chat in Hle by done. simpl in Hle. lia.
Qed.

Lemma oks_background l : Forall (λ e, background e = true) l → oks l = 0.
Proof.
  intros Hl. apply oks_not_chat. eapply Forall_impl; [done|].
  apply background_not_chat.
Qed.

Lemma oks_chats l : oks (chats l) = oks l.
Proof.
  unfold oks, chats. induction l as [|e l IH]; simpl; [done|].
  destruct e as [| | | |a m [] rl]; simpl in *; lia.
Qed.

Lemma replay_chats c l : replay c (chats l) = replay c l.
Proof.
  revert c. induction l as [|e l IH]; intros c; simpl; [done|].
  destruct (is_chat e) eqn:He; simpl; [done|]. by rewrite on_event_not_chat.
Qed.

Lemma settle_total ok rl c :
  total_success_today (result_state (settle ok rl c))
  = total_success_today c + (if ok then 1 else 0).
Proof.
  unfold settle. destruct ok; [simpl; lia|].
  destruct rl; [destruct (5 <=? _)|]; simpl; lia.
Qed.

Lemma settle_success ok rl c :
  success (result_state (settle ok rl c)) = success c + (if ok then 1 else 0) ∧
  failed (result_state (settle ok rl c)) = failed c + (if ok then 0 else 1).
Proof.
  unfold settle. destruct ok; [simpl; lia|].
  destruct rl; [destruct (5 <=? _)|]; simpl; lia.
Qed.

Lemma replay_total c l :
  total_success_today (replay c l) = total_success_today c + oks l.
Proof.
  revert c. induction l as [|e l IH]; intros c; simpl.
  - unfold oks. simpl. lia.
  - rewrite IH. change (e :: l) with ([e] ++ l). rewrite oks_app.
    destruct e as [| | | |a m ok rl]; simpl;
      rewrite ?settle_total; unfold oks; simpl; try lia.
    destruct ok; simpl; lia.
Qed.

Lemma replay_success c l :
  success (replay c l) = success c + oks l ∧
  failed (replay c l) = failed c + (Z.of_nat (length (chats l)) - oks l).
Proof.
  revert c. induction l as [|e l IH]; intros c; simpl.
  - unfold oks. simpl. lia.
  - destruct (IH (on_event c e)) as [-> ->].
    change (e :: l) with ([e] ++ l). rewrite oks_app.
    destruct e as [| | | |a m ok rl]; simpl; unfold oks; simpl; try lia.
    destruct (settle_success ok rl c) as [-> ->].
    destruct ok; simpl; lia.
Qed.

(** The flag is set by a throttled attempt only, and is never cleared. *)
Lemma settle_flag ok rl c :
  hit_global_limit (result_state (settle ok rl c)) = true →
  hit_global_limit c = true ∨ (ok = false ∧ rl = true).
Proof.
  unfold settle. destruct ok; [simpl; auto|].
  destruct rl; [destruct (5 <=? _)|]; simpl; auto.
Qed.

Lemma replay_no_failure c l :
  Forall (λ e, chat_failed e = false) l →
  hit_global_limit (replay c l) = hit_global_limit c ∧
  oks l = Z.of_nat (length (chats l)).
Proof.
  intros Hl. revert c. induction Hl as [|e l He _ IH]; intros c; simpl.
  - done.
  - destruct (IH (on_event c e)) as [-> Hoks].
    change (e :: l) with ([e] ++ l). rewrite oks_app, Hoks.
    destruct e as [| | | |a m [] rl]; simpl in *; try done; unfold oks; simpl;
      split; try done; lia.
Qed.

(** *** Paced traces *)

Lemma paced_nil c : paced c [].
Proof. intros pre e post Heq. by destruct pre. Qed.

Lemma paced_not_chat c l : Forall (λ e, is_chat e = false) l → paced c l.
Proof.
  intros Hl pre e post -> He. apply Forall_app in Hl as [_ Hl].
  inversion Hl; congruence.
Qed.

Lemma paced_background c l : Forall (λ e, background e = true) l → paced c l.
Proof.
  intros Hl. apply paced_not_chat. eapply Forall_impl; [done|].
  apply background_not_chat.
Qed.

Lemma paced_app c l1 l2 : paced c l1 → paced (replay c l1) l2 → paced c (l1 ++ l2).
Proof.
  intros H1 H2 pre e post Heq He.
  apply app_eq_inv in Heq as [(k & -> & Hk)|(k & -> & ->)].
  - destruct k as [|e' k]; simpl in Hk.
    + rewrite app_nil_r in H2. subst l2. apply (H2 [] e post); done.
    + injection Hk as <- ->. by eapply H1.
  - rewrite replay_app. by eapply H2.
Qed.

Lemma paced_attempt c pre e post :
  Forall (λ e, background e = true) pre → Forall (λ e, background e = true) post →
  total_success_today c < GLOBAL_DAILY_CHAT_CAP → hit_global_limit c = false →
  paced c (pre ++ e :: post).
Proof.
  intros Hpre Hpost Ht Hh. apply paced_app; [by apply paced_background|].
  rewrite replay_background by done.
  intros p e' q Heq He'. destruct p as [|x p]; simpl in Heq.
  - done.
  - injection Heq as -> ->. apply Forall_app in Hpost as [_ Hq].
    inversion Hq as [|? ? Hb _]; subst. apply background_not_chat in Hb. congruence.
Qed.

Lemma paced_chats c l : paced c l → paced c (chats l).
Proof.
  intros Hp pre e post Heq He.
  assert (∃ pre' post', l = pre' ++ e :: post' ∧ chats pre' = pre) as (pre' & post' & -> & <-).
  { clear Hp He. revert pre Heq. induction l as [|x l IH]; intros pre Heq.
    - by destruct pre.
    - simpl in Heq. destruct (is_chat x) eqn:Hx.
      + destruct pre as [|y pre]; simpl in Heq.
        * injection Heq as -> Hl. exists [], l. done.
        * injection Heq as -> Hl. destruct (IH _ Hl) as (p & q & -> & <-).
          exists (y :: p), q. simpl. by rewrite Hx.
      + destruct (IH _ Heq) as (p & q & -> & <-).
        exists (x :: p), q. simpl. by rewrite Hx. }
  rewrite replay_chats. by eapply Hp.
Qed.

(** A paced trace never holds more than the cap of successful sends. *)
Lemma paced_cap c l :
  total_success_today c ≤ GLOBAL_DAILY_CHAT_CAP → paced c l →
  total_success_today (replay c l) ≤ GLOBAL_DAILY_CHAT_CAP.
Proof.
  intros Hc. induction l as [|e l IH] using rev_ind; intros Hp; [done|].
  rewrite replay_app. simpl. destruct (is_chat e) eqn:He.
  - destruct (Hp l e [] eq_refl He) as [Hlt _].
    destruct e as [| | | |a m ok rl]; try done. simpl.
    rewrite settle_total. destruct ok; lia.
  - rewrite on_event_not_chat by done. apply IH.
    intros pre e' post Heq He'. apply (Hp pre e' (post ++ [e])); [|done].
    rewrite Heq. by rewrite <- app_assoc.
Qed.

(** *** The turn of one agent *)

Lemma settle_continue ok rl c c' :
  settle ok rl c = Continue c' → hit_global_limit c' = hit_global_limit c.
Proof.
  unfold settle. destruct ok; [by intros [= <-]|].
  destruct rl; [destruct (5 <=? _)|]; by intros [= <-].
Qed.

Lemma settle_break ok rl c c' :
  settle ok rl c = Break c' → hit_global_limit c' = true ∧ ok = false ∧ rl = true.
Proof.
  unfold settle. destruct ok; [done|].
  destruct rl; [destruct (5 <=? _)|]; [by intros [= <-]|done..].
Qed.

Lemma message_from_for_agent `{Runtime} agent pool message ok rl w' :
  can_send agent pool = true → message_from agent pool message w' →
  for_agent agent pool (Chatted agent message ok rl).
Proof.
  unfold message_from, can_send. intros Hcan Hm. right. exists message, ok, rl.
  split; [done|].
  destruct (String.eqb_spec agent "Sherlock") as [->|]; simpl in *.
  - destruct (bool_decide (pool = [])) eqn:Hp; [|by left].
    apply bool_decide_eq_true in Hp. destruct Hm as (h & -> & _). right. eauto.
  - by left.
Qed.

Lemma for_agent_background `{Runtime} agent pool l :
  Forall (λ e, background e = true) l → Forall (for_agent agent pool) l.
Proof. intros Hl. eapply Forall_impl; [done|]. intros e He. by left. Qed.

(** One more attempt at the end of a paced trace. *)
Lemma attempted_extends agent message c T ci w wi r w' :
  log wi = log w ++ T → ci = replay c T → paced c T →
  total_success_today ci < GLOBAL_DAILY_CHAT_CAP → hit_global_limit ci = false →
  attempted agent message ci wi r w' →
  ∃ ok rl T',
    log w' = log w ++ T ++ T' ∧ paced c (T ++ T') ∧
    chats T' = [Chatted agent message ok rl] ∧
    (∀ P : event → Prop, (∀ e, background e = true → P e) →
                         P (Chatted agent message ok rl) → Forall P T') ∧
    replay c (T ++ T') = result_state (settle ok rl ci) ∧
    r = Return (settle ok rl ci).
Proof.
  intros Hl -> Hp Ht Hh (ok & rl & pre & post & Hl' & Fpre & Fpost & ->).
  exists ok, rl, (pre ++ Chatted agent message ok rl :: post).
  split; [by rewrite Hl', Hl, <- app_assoc|].
  split; [apply paced_app; [done|by apply paced_attempt]|].
  split; [|split; [|split; [|done]]].
  - rewrite chats_app. simpl. by rewrite !chats_background.
  - intros P Hb Hc. apply Forall_app. split; [by eapply Forall_impl|].
    constructor; [done|]. by eapply Forall_impl.
  - rewrite !replay_app. simpl. rewrite (replay_background _ pre) by done.
    by rewrite replay_background.
Qed.

Lemma chat_agent_spec `{Runtime} aa address k topics agent c w :
  hit_global_limit c = false →
  total_success_today c < GLOBAL_DAILY_CHAT_CAP →
  wp (chat_agent aa address k topics agent c) w
     (agent_post agent (default [] (topics !! agent)) k c w).
Proof.
  intros Hhit Hcap. unfold chat_agent.
  destruct (Z.leb_spec GLOBAL_DAILY_CHAT_CAP (total_success_today c)); [lia|].
  cbv zeta. set (pool := default [] (topics !! agent)).
  fold (granted k c). set (n := granted k c).
  assert (Z.of_nat n ≤ GLOBAL_DAILY_CHAT_CAP - total_success_today c) as Hn
    by (unfold n, granted; lia).
  apply wp_bind.
  set (I := λ (done : list nat) ci wi,
         ∃ T, log wi = log w ++ T ∧ ci = replay c T ∧ paced c T ∧
              Forall (for_agent agent pool) T ∧ hit_global_limit ci = false ∧
              length (chats T) = length done ∧
              (done ≠ [] → can_send agent pool = true)).
  eapply (wp_for_each (seq 0 n) _ I) with (done := []); [| |done|].
  - (* one slot *)
    intros done x rest ci wi Hall (T & Hl & Hci & Hp & HF & Hh & Hlen & Hcan).
    assert (length done < n)%nat as Hdone.
    { apply (f_equal length) in Hall. rewrite length_seq, length_app in Hall.
      simpl in Hall. lia. }
    assert (total_success_today ci < GLOBAL_DAILY_CHAT_CAP) as Hci_cap.
    { rewrite Hci, replay_total. pose proof (oks_le_chats T). lia. }
    eapply wp_mono; [apply chat_slot_spec|]. unfold slot_post.
    rewrite (bool_decide_false (GLOBAL_DAILY_CHAT_CAP ≤ _)) by lia.
    intros r w'. destruct (can_send agent pool) eqn:Hsend.
    + intros (message & Hatt & Hmsg).
      destruct (attempted_extends agent message c T ci w wi r w')
        as (ok & rl & T' & Hl' & Hp' & Hch & HF' & Hrep & ->); try done.
      assert (Forall (for_agent agent pool) (T ++ T')) as HFT.
      { apply Forall_app. split; [done|]. apply HF'; [by left|].
        by eapply message_from_for_agent. }
      destruct (settle ok rl ci) as [c'|c'] eqn:Hs; simpl in Hrep.
      * exists (T ++ T'). rewrite Hrep. split_and!; try done.
        -- by rewrite (settle_continue _ _ _ _ Hs).
        -- rewrite chats_app, Hch, !length_app. simpl. lia.
      * apply settle_break in Hs as (Hb & _ & _).
        simpl. rewrite Hb. apply wp_ret. exists (T ++ T'). rewrite Hrep, Hb.
        split_and!; try done; [by rewrite Hsend | by left].
    + intros [-> ->]. simpl. rewrite Hh. apply wp_ret.
      assert (done = []) as -> by (destruct done; [done|]; by discriminate Hcan).
      exists (T ++ [Said (NoTopics agent)]). rewrite replay_app. simpl.
      rewrite <- Hci, Hh. split_and!.
      * simpl. by rewrite Hl, <- app_assoc.
      * apply paced_app; [done|]. apply paced_not_chat. by constructor.
      * apply Forall_app. split; [done|]. constructor; [by left|done].
      * done.
      * intros _. rewrite chats_app. simpl. rewrite app_nil_r.
        by apply nil_length_inv.
      * by rewrite Hsend.
  - (* all slots done *)
    intros ci wi (T & Hl & Hci & Hp & HF & Hh & Hlen & Hcan). simpl.
    rewrite Hh. apply wp_ret.
    exists T. rewrite <- Hci, Hh. split_and!; try done.
    + intros Hno. destruct (decide (seq 0 n = [])) as [E|NE].
      * rewrite E in Hlen. by apply nil_length_inv.
      * rewrite Hcan in Hno; done.
    + intros _. right. by rewrite Hlen, length_seq.
  - exists []. rewrite app_nil_r. split_and!; try done.
    apply paced_nil.
Qed.

(** *** The two rounds *)

Lemma chat_agent_at_cap `{Runtime} aa address k topics agent c w :
  GLOBAL_DAILY_CHAT_CAP ≤ total_success_today c →
  chat_agent aa address k topics agent c w = (Return (Break c), w).
Proof.
  intros Hc. unfold chat_agent.
  by destruct (Z.leb_spec GLOBAL_DAILY_CHAT_CAP (total_success_today c)); [|lia].
Qed.

Lemma for_agent_not_banner `{Runtime} agent pool e :
  for_agent agent pool e → is_banner e = false.
Proof. intros [Hb|(m & ok & rl & -> & _)]; [by destruct e as [| | |[]|]|done]. Qed.

Lemma agents_of_app l1 l2 : agents_of (l1 ++ l2) = agents_of l1 ++ agents_of l2.
Proof. apply omap_app. Qed.

Lemma agents_of_chats l : agents_of (chats l) = agents_of l.
Proof.
  induction l as [|e l IH]; simpl; [done|].
  destruct e; simpl; rewrite ?IH; done.
Qed.

Lemma senders_snoc topics done x :
  senders topics (done ++ [x])
  = senders topics done ++ (if has_message topics x then [x] else []).
Proof. unfold senders. rewrite List.filter_app. simpl. by destruct (has_message _ _). Qed.

Lemma first_round_spec `{Runtime} aa address k topics c w :
  hit_global_limit c = false →
  total_success_today c ≤ GLOBAL_DAILY_CHAT_CAP →
  wp (for_each AGENT_ORDER (chat_agent aa address k topics) c) w
     (λ r w', ∃ T,
        (r = Return (Continue (replay c T)) ∨ r = Return (Break (replay c T))) ∧
        log w' = log w ++ T ∧ paced c T ∧
        Forall (of_some_agent topics) T ∧
        (Forall (λ e, chat_failed e = false) T →
         Z.min GLOBAL_DAILY_CHAT_CAP
           (total_success_today c
            + Z.max k 0 * Z.of_nat (length (senders topics AGENT_ORDER)))
         ≤ total_success_today (replay c T))).
Proof.
  intros Hhit Hcap.
  set (I := λ (done : list string) ci wi,
         ∃ T, log wi = log w ++ T ∧ ci = replay c T ∧ paced c T ∧
              hit_global_limit ci = false ∧
              Forall (of_some_agent topics) T ∧
              (Forall (λ e, chat_failed e = false) T →
               total_success_today ci
               = Z.min GLOBAL_DAILY_CHAT_CAP
                   (total_success_today c
                    + Z.max k 0 * Z.of_nat (length (senders topics done))))).
  eapply (wp_for_each AGENT_ORDER _ I) with (done := []); [| |done|].
  - intros done x rest ci wi Hall (T & Hl & Hci & Hp & Hh & Hnb & Hlow).
    destruct (Z.le_gt_cases GLOBAL_DAILY_CHAT_CAP (total_success_today ci)) as [Hge|Hlt].
    { eapply wp_run; [by apply chat_agent_at_cap|].
      exists T. rewrite <- Hci. split_and!; try done; [by right|].
      intros Hok. lia. }
    eapply wp_mono; [by apply chat_agent_spec|].
    intros r w' (Tx & Hl' & Hpx & HFx & -> & Hno & Hyes).
    assert (replay c (T ++ Tx) = replay ci Tx) as Hrep by (by rewrite replay_app, Hci).
    assert (log w' = log w ++ T ++ Tx) as Hlog by (by rewrite Hl', Hl, <- app_assoc).
    assert (paced c (T ++ Tx)) as Hpaced by (apply paced_app; [done|by rewrite <- Hci]).
    assert (Forall (of_some_agent topics) (T ++ Tx)) as Hnb'.
    { apply Forall_app. split; [done|]. eapply Forall_impl; [done|].
      intros e He. by exists x. }
    destruct (hit_global_limit (replay ci Tx)) eqn:Hhx.
    + (* the flag went up *)
      exists (T ++ Tx). rewrite Hrep. split_and!; try done; [by right|].
      intros Hok. apply Forall_app in Hok as [_ Hok].
      apply (replay_no_failure ci) in Hok as [Hsame _]. congruence.
    + exists (T ++ Tx). rewrite Hrep. split_and!; try done.
      intros Hok. apply Forall_app in Hok as [HokT HokX].
      specialize (Hlow HokT).
      destruct (replay_no_failure ci Tx HokX) as [_ Hoks].
      rewrite replay_total, Hoks, senders_snoc, length_app.
      unfold has_message.
      destruct (can_send x (default [] (topics !! x))) eqn:Hsend; simpl.
      * destruct (Hyes eq_refl) as [?|Hcount]; [congruence|].
        rewrite Hcount. unfold granted.
        rewrite Nat2Z.inj_add, Z.mul_add_distr_l. simpl. lia.
      * rewrite (Hno eq_refl). simpl.
        rewrite Nat2Z.inj_add, Z.mul_add_distr_l. simpl. lia.
  - intros ci wi (T & Hl & Hci & Hp & Hh & Hnb & Hlow).
    exists T. rewrite <- Hci. split_and!; try done; [by left|].
    intros Hok. rewrite (Hlow Hok). lia.
  - exists []. rewrite app_nil_r. split_and!; try done; [apply paced_nil|].
    intros _. unfold senders. simpl. lia.
Qed.

Lemma extra_round_spec `{Runtime} aa address topics c w :
  hit_global_limit c = false →
  wp (for_each AGENT_ORDER (retry_agent aa address topics) c) w
     (λ r w', ∃ T done rest,
        (r = Return (Continue (replay c T)) ∨ r = Return (Break (replay c T))) ∧
        log w' = log w ++ T ∧ paced c T ∧
        Forall (of_some_agent topics) T ∧
        AGENT_ORDER = done ++ rest ∧ agents_of T = senders topics done ∧
        (rest = [] ∨ GLOBAL_DAILY_CHAT_CAP ≤ total_success_today (replay c T)
         ∨ hit_global_limit (replay c T) = true)).
Proof.
  intros Hhit.
  set (I := λ (done : list string) ci wi,
         ∃ T, log wi = log w ++ T ∧ ci = replay c T ∧ paced c T ∧
              hit_global_limit ci = false ∧
              Forall (of_some_agent topics) T ∧
              agents_of T = senders topics done).
  eapply (wp_for_each AGENT_ORDER _ I) with (done := []); [| |done|].
  - intros done x rest ci wi Hall (T & Hl & Hci & Hp & Hh & Hnb & Hag).
    eapply wp_mono; [apply retry_agent_spec|]. unfold retry_post.
    intros r w'.
    destruct (Z.le_gt_cases GLOBAL_DAILY_CHAT_CAP (total_success_today ci)) as [Hge|Hlt].
    { rewrite bool_decide_true by done. intros [-> ->].
      exists T, done, (x :: rest). rewrite <- Hci. split_and!; try done; auto. }
    rewrite bool_decide_false by lia.
    fold (has_message topics x).
    destruct (has_message topics x) eqn:Hsend.
    + intros (message & Hatt & Hmsg).
      destruct (attempted_extends x message c T ci w wi r w')
        as (ok & rl & T' & Hl' & Hp' & Hch & HF' & Hrep & ->); try done.
      assert (Forall (of_some_agent topics) (T ++ T')) as Hnb'.
      { apply Forall_app. split; [done|].
        apply HF'; [intros e He; exists x; by left|].
        exists x. by eapply message_from_for_agent. }
      assert (agents_of (T ++ T') = senders topics (done ++ [x])) as Hag'.
      { rewrite agents_of_app, Hag, senders_snoc, Hsend. cbv iota.
        by rewrite <- (agents_of_chats T'), Hch. }
      destruct (settle ok rl ci) as [c'|c'] eqn:Hs; simpl in Hrep.
      * exists (T ++ T'). rewrite Hrep. split_and!; try done.
        by rewrite (settle_continue _ _ _ _ Hs).
      * apply settle_break in Hs as (Hb & _ & _).
        exists (T ++ T'), (done ++ [x]), rest. rewrite Hrep.
        split_and!; try done; [by right|by rewrite <- app_assoc|auto].
    + intros [-> ->]. exists T. split_and!; try done.
      rewrite senders_snoc, Hsend. cbv iota. by rewrite app_nil_r.
  - intros ci wi (T & Hl & Hci & Hp & Hh & Hnb & Hag).
    exists T, AGENT_ORDER, []. rewrite <- Hci.
    split_and!; try done; auto.
  - exists []. rewrite app_nil_r. split_and!; try done. apply paced_nil.
Qed.

Lemma chat_rounds_spec `{Runtime} aa address k topics c w :
  hit_global_limit c = false →
  total_success_today c ≤ GLOBAL_DAILY_CHAT_CAP →
  wp (chat_rounds aa address k topics c) w (rounds_post k topics c w).
Proof.
  intros Hhit Hcap. unfold chat_rounds. apply wp_bind.
  eapply wp_mono; [by apply first_round_spec|].
  intros r1 w1 (T1 & Hr1 & Hl1 & Hp1 & Hnb1 & Hlow).
  assert (∃ s, r1 = Return s ∧ result_state s = replay c T1) as (s1 & -> & Hs1).
  { destruct Hr1 as [->| ->]; by eexists. }
  cbv zeta. rewrite Hs1. fold (extra_round_due k (replay c T1)).
  destruct (extra_round_due k (replay c T1)) eqn:Hdue.
  - assert (hit_global_limit (replay c T1) = false) as Hh1.
    { unfold extra_round_due in Hdue. apply andb_true_iff in Hdue as [_ Hn].
      by apply negb_true_iff in Hn. }
    apply wp_bind. unfold console_print, wp at 1. cbn [emit fst snd].
    apply wp_bind.
    eapply wp_mono; [by apply extra_round_spec|].
    intros r2 w2 (T2 & done & rest & Hr2 & Hl2 & Hp2 & Hnb2 & Hall & Hag & Hstop).
    assert (∃ s, r2 = Return s ∧ result_state s = replay (replay c T1) T2)
      as (s2 & -> & Hs2).
    { destruct Hr2 as [->| ->]; by eexists. }
    apply wp_ret. exists T1, T2. cbv zeta. rewrite Hdue, replay_app, Hs2.
    split_and!; try done.
    + rewrite Hl2. simpl. rewrite Hl1, <- !app_assoc. done.
    + by apply paced_app.
    + by apply Forall_app.
    + exists done, rest. split_and!; done.
  - apply wp_ret. exists T1, []. cbv zeta. rewrite Hdue, !app_nil_r.
    split_and!; try done.
    exists [], AGENT_ORDER. split_and!; done.
Qed.

Lemma paced_app_inv c l1 l2 :
  paced c (l1 ++ l2) → paced c l1 ∧ paced (replay c l1) l2.
Proof.
  intros Hp. split.
  - intros pre e post -> He. apply (Hp pre e (post ++ l2)); [|done].
    by rewrite <- app_assoc.
  - intros pre e post -> He. rewrite <- replay_app.
    apply (Hp (l1 ++ pre) e post); [|done]. by rewrite <- app_assoc.
Qed.

(** The trace of the two rounds: the events the run added are paced from
    the counters it started with, and the counters it returns are the ones
    these events determine. *)
Lemma rounds_post_trace `{Runtime} k topics c w r w' :
  rounds_post k topics c w r w' →
  paced c (new_events w w') ∧ r = Return (replay c (new_events w w')) ∧
  log w' = log w ++ new_events w w'.
Proof.
  intros (T1 & T2 & Hr & Hl & Hno & Hp & _). cbv zeta in *.
  unfold new_events. rewrite Hl, drop_app_length. split_and!; [| |done].
  apply paced_app_inv in Hp as [Hp1 Hp2].
  - destruct (extra_round_due k (replay c T1)).
    + apply paced_app; [done|].
      apply (paced_app _ [Said ExtraRound]); [apply paced_not_chat; by constructor|done].
    + rewrite (Hno eq_refl) in *. by rewrite app_nil_r in *.
  - destruct (extra_round_due k (replay c T1)).
    + by rewrite Hr, !replay_app.
    + rewrite (Hno eq_refl) in *. by rewrite app_nil_r in *.
Qed.

(** C2, as amended: in every run of the allocator from fresh counters, for
    every requested count per agent, the successful attempts never exceed
    GLOBAL_DAILY_CHAT_CAP and no attempt is made once the cap is reached;
    and whenever the allocator returns, the count it returns is the number
    of successful attempts it made, which, when no attempt failed
    (throttled or otherwise), is at least the minimum of the cap and the
    slots of the agents that have a message. *)
Theorem chat_allocator_cap `{Runtime} aa address chat_per_agent topics w :
  let out := chat_rounds aa address chat_per_agent topics chat0 w in
  let T := new_events w out.2 in
  oks T ≤ GLOBAL_DAILY_CHAT_CAP ∧
  (∀ pre e post, T = pre ++ e :: post → is_chat e = true →
                 oks pre < GLOBAL_DAILY_CHAT_CAP) ∧
  (∀ c, out.1 = Return c →
        total_success_today c = oks T ∧
        (Forall (λ e, chat_failed e = false) T →
         Z.min GLOBAL_DAILY_CHAT_CAP
           (Z.max chat_per_agent 0 * Z.of_nat (length (senders topics AGENT_ORDER)))
         ≤ total_success_today c)).
Proof.
  intros out T.
  pose proof (chat_rounds_spec aa address chat_per_agent topics chat0 w
                eq_refl ltac:(done)) as Hspec.
  unfold wp in Hspec. fold out in Hspec.
  destruct (rounds_post_trace _ _ _ _ _ _ Hspec) as (Hp & Hr & _). fold T in Hp, Hr.
  assert (total_success_today (replay chat0 T) = oks T) as Htot
    by (rewrite replay_total; simpl; lia).
  split; [|split].
  - rewrite <- Htot. by apply paced_cap.
  - intros pre e post Heq He. destruct (Hp pre e post Heq He) as [Hlt _].
    rewrite replay_total in Hlt. simpl in Hlt. lia.
  - intros c Hc. rewrite Hr in Hc. injection Hc as <-. split; [done|].
    rewrite Htot. intros Hok.
    destruct Hspec as (T1 & T2 & _ & Hl & Hno & _ & _ & Hlow & _).
    cbv zeta in *.
    assert (T = T1 ++ (if extra_round_due chat_per_agent (replay chat0 T1)
                       then Said ExtraRound :: T2 else [])) as HT.
    { unfold T, new_events. by rewrite Hl, drop_app_length. }
    rewrite HT in Hok |- *. apply Forall_app in Hok as [Hok1 _].
    specialize (Hlow Hok1). rewrite replay_total in Hlow.
    change (total_success_today chat0) with 0 in Hlow.
    rewrite oks_app. pose proof (oks_nonneg (if extra_round_due chat_per_agent
      (replay chat0 T1) then Said ExtraRound :: T2 else [])). lia.
Qed.

(** C2 as stated fails: with only the Professor holding topics and one
    chat requested per agent, two agents have a slot; when the service is
    unreachable no attempt is throttled, and no send succeeds. *)
Lemma chat_allocator_unreachable_service :
  let out := chat_rounds (H:=toy_runtime) "0xaa" "0xme" 1 topics_professor chat0
               (fresh []) in
  Forall (λ e, throttled_chat e = false) (new_events (fresh []) out.2) ∧
  ∃ c, out.1 = Return c ∧
       total_success_today c
       < Z.min GLOBAL_DAILY_CHAT_CAP
           (1 * Z.of_nat (length (senders topics_professor AGENT_ORDER))).
Proof.
  vm_compute. split; [repeat constructor|]. eexists. split; [reflexivity|]. done.
Qed.

Lemma chat_allocator_cap_witness :
  let w := fresh all_success_script in
  let out := chat_rounds (H:=toy_runtime) "0xaa" "0xme" 1 topics_professor chat0 w in
  out.1 = Return (Chat 4 0 4 0 false) ∧
  oks (new_events w out.2) = 4 ∧
  Z.min GLOBAL_DAILY_CHAT_CAP
    (Z.max 1 0 * Z.of_nat (length (senders topics_professor AGENT_ORDER)))
  ≤ 4.
Proof.
  intros w out.
  assert (out.1 = Return (Chat 4 0 4 0 false)) as Hr by (vm_compute; reflexivity).
  destruct (chat_allocator_cap (H:=toy_runtime) "0xaa" "0xme" 1 topics_professor w)
    as (Hcap & Hstop & Hret).
  destruct (Hret (Chat 4 0 4 0 false) Hr) as [Htot Hlow].
  split; [exact Hr|]. split; [symmetry; exact Htot|].
  apply Hlow. vm_compute. repeat constructor.
Defined.

(** *** The extra round *)

Lemma NoDup_AGENT_ORDER : NoDup AGENT_ORDER.
Proof. compute_done. Qed.

Lemma of_some_agent_not_banner `{Runtime} topics e :
  of_some_agent topics e → e ≠ Said ExtraRound.
Proof.
  intros [a Ha] ->. apply for_agent_not_banner in Ha. discriminate.
Qed.

(** Whenever the two chat loops return: the events they added split into
    those of the first round, [T1], and those of the extra round, [T2].
    The banner of the extra round is printed, and [T2] follows it, if and
    only if the requested count is exactly 1 and, on the counters after the
    first round, the successes are below the cap and the flag is down.  The
    extra round attempts the agents that have a message (a topic, or the
    fallback of the reserved agent), once each and in the fixed order, and
    it stops before the end of the list only when the cap is reached or the
    flag goes up. *)
Theorem extra_round_runs `{Runtime} aa address chat_per_agent topics w c :
  let out := chat_rounds aa address chat_per_agent topics chat0 w in
  let T := new_events w out.2 in
  out.1 = Return c →
  ∃ T1 T2,
    let c1 := replay chat0 T1 in
    c = replay chat0 T ∧
    ¬ In (Said ExtraRound) T1 ∧ ¬ In (Said ExtraRound) T2 ∧
    (In (Said ExtraRound) T ↔
       chat_per_agent = 1 ∧ total_success_today c1 < GLOBAL_DAILY_CHAT_CAP ∧
       hit_global_limit c1 = false) ∧
    (In (Said ExtraRound) T → T = T1 ++ Said ExtraRound :: T2) ∧
    (¬ In (Said ExtraRound) T → T = T1 ∧ T2 = []) ∧
    Forall (of_some_agent topics) T2 ∧
    NoDup (agents_of T2) ∧
    ∃ done rest,
      AGENT_ORDER = done ++ rest ∧ agents_of T2 = senders topics done ∧
      (In (Said ExtraRound) T →
       rest = [] ∨ GLOBAL_DAILY_CHAT_CAP ≤ total_success_today c
       ∨ hit_global_limit c = true).
Proof.
  intros out T Hc.
  pose proof (chat_rounds_spec aa address chat_per_agent topics chat0 w
                eq_refl ltac:(done)) as Hspec.
  unfold wp in Hspec. fold out in Hspec.
  destruct (rounds_post_trace _ _ _ _ _ _ Hspec) as (Hp & Hr & _). fold T in Hp, Hr.
  rewrite Hr in Hc. injection Hc as <-.
  destruct Hspec as (T1 & T2 & _ & Hl & Hno & _ & Hag & _ & done & rest & Hall & Hsend & Hstop).
  cbv zeta in *.
  assert (T = T1 ++ (if extra_round_due chat_per_agent (replay chat0 T1)
                     then Said ExtraRound :: T2 else [])) as HT.
  { unfold T, new_events. by rewrite Hl, drop_app_length. }
  apply Forall_app in Hag as [Hag1 Hag2].
  assert (¬ In (Said ExtraRound) T1) as Hn1.
  { intros Hin. apply list_elem_of_In in Hin.
    eapply Forall_forall in Hag1; [|done]. by eapply of_some_agent_not_banner. }
  assert (¬ In (Said ExtraRound) T2) as Hn2.
  { intros Hin. apply list_elem_of_In in Hin.
    eapply Forall_forall in Hag2; [|done]. by eapply of_some_agent_not_banner. }
  assert (extra_round_due chat_per_agent (replay chat0 T1) = true ↔
          chat_per_agent = 1 ∧
          total_success_today (replay chat0 T1) < GLOBAL_DAILY_CHAT_CAP ∧
          hit_global_limit (replay chat0 T1) = false) as Hdue.
  { unfold extra_round_due. rewrite !andb_true_iff, negb_true_iff.
    rewrite Z.eqb_eq, Z.ltb_lt. tauto. }
  assert (In (Said ExtraRound) T ↔
          extra_round_due chat_per_agent (replay chat0 T1) = true) as Hin.
  { rewrite HT. destruct (extra_round_due _ _).
    - split; [done|]. intros _. apply in_or_app. right. by left.
    - rewrite app_nil_r. split; [done|discriminate]. }
  assert (replay chat0 (T1 ++ T2) = replay chat0 T) as Hrep.
  { rewrite HT. destruct (extra_round_due _ _).
    - by rewrite !replay_app.
    - by rewrite (Hno eq_refl). }
  exists T1, T2. split_and!; try done.
  - by rewrite Hin.
  - intros Hb. apply Hin in Hb. by rewrite HT, Hb.
  - intros Hb. rewrite Hin in Hb. apply not_true_is_false in Hb.
    rewrite HT, Hb, app_nil_r. auto.
  - rewrite Hsend. unfold senders.
    apply NoDup_ListNoDup, List.NoDup_filter, NoDup_ListNoDup.
    pose proof NoDup_AGENT_ORDER as Hnd. rewrite Hall in Hnd.
    by apply NoDup_app in Hnd as [? _].
  - exists done, rest. split_and!; try done.
    intros Hb. apply Hin in Hb. rewrite <- Hrep. auto.
Qed.

Lemma extra_round_runs_witness :
  let w := fresh all_success_script in
  let out := chat_rounds (H:=toy_runtime) "0xaa" "0xme" 1 topics_professor chat0 w in
  out.1 = Return (Chat 4 0 4 0 false) ∧
  In (Said ExtraRound) (new_events w out.2) ∧
  ∃ T2, agents_of T2 = ["Professor"; "Sherlock"] ∧
        ∃ T1, new_events w out.2 = T1 ++ Said ExtraRound :: T2.
Proof.
  intros w out.
  assert (out.1 = Return (Chat 4 0 4 0 false)) as Hr by (vm_compute; reflexivity).
  assert (In (Said ExtraRound) (new_events w out.2)) as Hb.
  { vm_compute. repeat (first [left; reflexivity|right]). }
  destruct (extra_round_runs (H:=toy_runtime) "0xaa" "0xme" 1 topics_professor w
              (Chat 4 0 4 0 false) Hr)
    as (T1 & T2 & _ & _ & _ & _ & Hsplit & _ & _ & _ & done & rest & Hall & Hsend & Hstop).
  split; [exact Hr|]. split; [exact Hb|].
  exists T2. split; [|exists T1; exact (Hsplit Hb)].
  rewrite Hsend. destruct (Hstop Hb) as [->|[Hcap|Hhit]].
  - rewrite app_nil_r in Hall. rewrite <- Hall. vm_compute. reflexivity.
  - vm_compute in Hcap. exfalso. apply Hcap. reflexivity.
  - discriminate Hhit.
Defined.

(** C6, with the one line "[/b] hi" in pesan_professor.txt: the line is
    ASCII, so [run_cycle] keeps it as the topic of the Professor
    (line 696); it is the message [random.choice] gives the first slot
    (line 582), and line 583 prints it as it is. *)
Theorem markup_topic_is_chosen w :
  ∃ topics,
    load_topics (H:=markup_topic_host) TOPIC_FILES ∅ = Return topics ∧
    topics !! "Professor" = Some ["[/b] hi"] ∧
    (random_choice ["[/b] hi"] "" w).1 = Return "[/b] hi".
Proof.
  eexists. split; [vm_compute; reflexivity|]. split; [vm_compute; reflexivity|].
  unfold random_choice. cbn [fst]. f_equal.
  destruct (dice w) as [|d ds]; [done|]. by destruct (d mod 1)%nat as [|[|n]].
Qed.

(** *** Agents without topics *)

Lemma attempted_chats agent message c w r w' :
  attempted agent message c w r w' →
  ∃ ok rl, chats (new_events w w') = [Chatted agent message ok rl] ∧
           r = Return (settle ok rl c).
Proof.
  intros (ok & rl & pre & post & Hl & Fpre & Fpost & ->). exists ok, rl.
  split; [|done]. unfold new_events. rewrite Hl, drop_app_length.
  rewrite chats_app. simpl. by rewrite !chats_background.
Qed.

Lemma chat_agent_idle `{Runtime} aa address k topics agent c w :
  can_send agent (default [] (topics !! agent)) = false →
  hit_global_limit c = false →
  total_success_today c < GLOBAL_DAILY_CHAT_CAP →
  chat_agent aa address k topics agent c w
  = (Return (Continue c),
     if decide (granted k c = 0%nat) then w else logged (Said (NoTopics agent)) w).
Proof.
  intros Hcan Hhit Hcap. unfold chat_agent.
  destruct (Z.leb_spec GLOBAL_DAILY_CHAT_CAP (total_success_today c)) as [|_]; [lia|].
  cbv zeta. fold (granted k c).
  unfold can_send in Hcan. apply orb_false_iff in Hcan as [Hs Hp].
  apply negb_false_iff in Hp.
  destruct (granted k c) as [|n]; simpl.
  - unfold bind, ret, lift. simpl. by rewrite Hhit.
  - unfold bind at 1 2. unfold chat_slot.
    destruct (Z.leb_spec GLOBAL_DAILY_CHAT_CAP (total_success_today c)) as [|_]; [lia|].
    rewrite Hs, Hp. simpl. unfold bind, ret, lift. simpl. by rewrite Hhit.
Qed.

Lemma retry_agent_idle `{Runtime} aa address topics agent c w :
  can_send agent (default [] (topics !! agent)) = false →
  total_success_today c < GLOBAL_DAILY_CHAT_CAP →
  retry_agent aa address topics agent c w = (Return (Continue c), w).
Proof.
  intros Hcan Hcap. unfold retry_agent.
  destruct (Z.leb_spec GLOBAL_DAILY_CHAT_CAP (total_success_today c)) as [|_]; [lia|].
  cbv zeta. unfold can_send in Hcan. apply orb_false_iff in Hcan as [Hs Hp].
  apply negb_false_iff in Hp. by rewrite Hs, Hp.
Qed.

(** ** The account pipeline around the chat loops *)

Ltac unfold_staking :=
  unfold staking_cycle, stake_phase, claim_phase, claim_loop, unstake_phase,
    restake_phase, stake_target, detect_target, claim_target, unstake_target, throttled_return,
    get_balances, delegate, claim_rewards, undelegate, get_row, assign_row,
    ts_now_iso, hours_since, console_print.

Lemma staking_cycle_adds `{Runtime} P address :
  (∀ ep x, P (Sent ep x) = true) → (∀ s, P (Saved s) = true) →
  (∀ r, r ≠ ExtraRound → P (Said r) = true) →
  respects (adds P) (staking_cycle address).
Proof.
  intros HS HV HR. unfold_staking.
  respects_auto ltac:(first
    [ by apply request_json_adds | by apply state_save_adds | apply set_st_adds
    | apply emit_adds; by apply HR ]).
Qed.

Lemma login_adds P address :
  (∀ ep x, P (Sent ep x) = true) →
  respects (adds P) (aa <- rpc_eth_call_smart_account address ;;
                     signin_and_login address aa).
Proof.
  intros HS. unfold rpc_eth_call_smart_account, signin_and_login.
  respects_auto ltac:(by apply request_json_adds).
Qed.

Lemma daily_quiz_spec address c w :
  wp (daily_quiz address c) w
     (λ r w', adds background w w' ∧
              ∃ c', r = Return c' ∧ hit_global_limit c' = hit_global_limit c).
Proof.
  assert (respects (adds background) (daily_quiz address c)) as Hadd.
  { unfold daily_quiz, create_quiz, get_quiz_and_answer, submit_quiz.
    respects_auto adds_prim. }
  unfold wp. split; [apply Hadd|].
  unfold daily_quiz, try_except.
  destruct (bind _ _ w) as [[c'|e] w'] eqn:Hrun; simpl; [|by eexists].
  exists c'. split; [done|].
  unfold bind in Hrun.
  repeat match type of Hrun with
         | (match ?m ?w with _ => _ end) = _ =>
             destruct (m w) as [[?|?] ?]; try discriminate
         | (if ?b then _ else _) _ = _ => destruct b
         end;
    unfold ret, lift in Hrun; by injection Hrun as <- _.
Qed.

(** What [process_account] adds to the log: background events, then the
    events [T] of the two chat loops, then background events; the flag it
    returns is the one [T] determines. *)
Lemma process_account_trace `{Runtime} address k topics w :
  wp (process_account address k topics) w
     (λ r w', ∃ E0 T E1,
        log w' = log w ++ E0 ++ T ++ E1 ∧
        Forall (λ e, background e = true) E0 ∧
        Forall (λ e, background e = true) E1 ∧
        paced chat0 T ∧
        ∀ s f b, r = Return (s, f, b) →
                 T = [] ∨ b = hit_global_limit (replay chat0 T)).
Proof.
  assert (∀ (r : result (Z * Z * bool)) w0 w', adds background w0 w' →
            (∀ s f b, r = Return (s, f, b) → True) →
            ∃ E0 T E1,
              log w' = log w0 ++ E0 ++ T ++ E1 ∧
              Forall (λ e, background e = true) E0 ∧
              Forall (λ e, background e = true) E1 ∧
              paced chat0 T ∧
              ∀ s f b, r = Return (s, f, b) →
                       T = [] ∨ b = hit_global_limit (replay chat0 T)) as Hquiet.
  { intros r w0 w' (E & Hl & HE) _. exists E, [], []. rewrite !app_nil_r.
    split_and!; try done; [apply paced_nil|auto]. }
  unfold process_account. apply wp_bind.
  set (m1 := try_except _ _).
  assert (respects (adds background) m1) as H1.
  { unfold m1, rpc_eth_call_smart_account. respects_auto adds_prim. }
  eapply wp_mono; [apply (respects_wp _ m1 w w H1); reflexivity|].
  intros [[aa|limited]|e] w1 Hw1; [|by apply wp_ret, Hquiet|by apply Hquiet].
  apply wp_bind. set (m2 := try_except _ _).
  assert (respects (adds background) m2) as H2.
  { unfold m2, signin_and_login. respects_auto adds_prim. }
  eapply wp_mono; [apply (respects_wp _ m2 w w1 H2); exact Hw1|].
  intros [[[]|limited]|e] w2 Hw2; [|by apply wp_ret, Hquiet|by apply Hquiet].
  apply wp_bind.
  eapply wp_mono; [by apply chat_rounds_spec|].
  intros r3 w3 Hpost. apply rounds_post_trace in Hpost as (Hp & -> & Hl3).
  set (T := new_events w2 w3) in *.
  apply wp_bind. eapply wp_mono; [apply daily_quiz_spec|].
  intros r4 w4 (Hw4 & c4 & -> & Hc4).
  assert (∀ (r : result (Z * Z * bool)) w', adds background w3 w' →
            (∀ s f b, r = Return (s, f, b) → b = hit_global_limit c4) →
            ∃ E0 T E1,
              log w' = log w ++ E0 ++ T ++ E1 ∧
              Forall (λ e, background e = true) E0 ∧
              Forall (λ e, background e = true) E1 ∧
              paced chat0 T ∧
              ∀ s f b, r = Return (s, f, b) →
                       T = [] ∨ b = hit_global_limit (replay chat0 T)) as Hdone.
  { intros r w' (E1 & Hl' & HE1) Hb. destruct Hw2 as (E0 & Hl2 & HE0).
    exists E0, T, E1. split_and!; try done.
    - by rewrite Hl', Hl3, Hl2, <- !app_assoc.
    - intros s f b Hr. right. rewrite (Hb s f b Hr). done. }
  apply wp_bind.
  assert (respects (adds background) (staking_cycle address)) as H5.
  { apply staking_cycle_adds; try done. by intros []. }
  eapply wp_mono; [apply (respects_wp _ _ w3 w4 H5); exact Hw4|].
  intros [counts|e] w5 Hw5; [|by apply Hdone].
  apply wp_bind.
  assert (respects (adds background) final_statistics) as H6.
  { unfold final_statistics, wallet_info, get_balances, get_staked_totals.
    respects_auto adds_prim. }
  eapply wp_mono; [apply (respects_wp _ _ w3 w5 H6); exact Hw5|].
  intros [[]|e] w6 Hw6; [|by apply Hdone].
  apply wp_ret. apply Hdone; [done|]. by intros s f b [= _ _ <-].
Qed.

(** *** Five throttled attempts in a row *)

Lemma replay_streak_nonneg c l :
  0 ≤ consecutive_429 c → 0 ≤ consecutive_429 (replay c l).
Proof.
  revert c. induction l as [|e l IH]; intros c Hc; simpl; [done|].
  apply IH. destruct e as [| | | |a m ok rl]; simpl; try done.
  unfold settle. destruct ok; [simpl; lia|].
  destruct rl; [destruct (5 <=? _)|]; simpl; lia.
Qed.

Lemma replay_throttled c l :
  Forall (λ e, throttled_chat e = true) l → 0 ≤ consecutive_429 c →
  consecutive_429 (replay c l) = consecutive_429 c + Z.of_nat (length l) ∧
  (l ≠ [] → 5 ≤ consecutive_429 c + Z.of_nat (length l) →
   hit_global_limit (replay c l) = true).
Proof.
  intros Hl Hc. induction l as [|e l IH] using rev_ind.
  - simpl. split; [lia|done].
  - apply Forall_app in Hl as [Hl He]. apply Forall_inv in He.
    destruct (IH Hl) as [Hcount _].
    rewrite replay_app, length_app. simpl.
    destruct e as [| | | |a m [] []]; try done. simpl. unfold settle.
    rewrite Hcount.
    destruct (Z.leb_spec 5 (consecutive_429 c + Z.of_nat (length l) + 1)); simpl.
    + split; [lia|done].
    + split; [lia|]. intros _ ?. lia.
Qed.

Lemma chats_all_chat l : Forall (λ e, is_chat e = true) (chats l).
Proof.
  unfold chats. apply Forall_forall. intros e He.
  apply list_elem_of_In, filter_In in He. tauto.
Qed.

Lemma throttled_is_chat e : throttled_chat e = true → is_chat e = true.
Proof. by destruct e. Qed.

Lemma five_throttled_halt T pre five post :
  paced chat0 T → chats T = pre ++ five ++ post → length five = 5%nat →
  Forall (λ e, throttled_chat e = true) five →
  post = [] ∧
  hit_global_limit (replay chat0 (pre ++ take 4 five)) = false ∧
  hit_global_limit (replay chat0 T) = true.
Proof.
  intros Hp HX Hlen Hfive. apply paced_chats in Hp.
  rewrite <- (replay_chats chat0 T).
  pose proof (chats_all_chat T) as Hall. rewrite HX in Hp, Hall |- *.
  assert (hit_global_limit (replay chat0 (pre ++ five)) = true) as Hup.
  { rewrite replay_app.
    apply (replay_throttled (replay chat0 pre) five Hfive).
    - by apply replay_streak_nonneg.
    - by destruct five.
    - pose proof (replay_streak_nonneg chat0 pre ltac:(done)). lia. }
  assert (post = []) as ->.
  { destruct post as [|e post]; [done|].
    apply Forall_app in Hall as [_ Hall]. apply Forall_app in Hall as [_ Hall].
    apply Forall_inv in Hall.
    destruct (Hp (pre ++ five) e post) as [_ Hdown]; [by rewrite <- app_assoc|done|].
    congruence. }
  split; [done|]. rewrite app_nil_r. split; [|done].
  destruct five as [|f1 [|f2 [|f3 [|f4 [|f5 [|]]]]]]; try discriminate.
  simpl. rewrite app_nil_r in Hp.
  apply (Hp (pre ++ [f1; f2; f3; f4]) f5 []); [by rewrite <- app_assoc|].
  apply throttled_is_chat.
  by do 4 (apply Forall_inv_tail in Hfive); apply Forall_inv in Hfive.
Qed.

(** C1, as amended: in every run of [process_account], once five
    consecutive chat attempts are classified Throttled, the global-limit
    flag is down before the fifth of them and up after it, the fifth is the
    last chat attempt of the run, and the flag the run returns is up. *)
Theorem global_limit_halts_chat `{Runtime} address chat_per_agent topics w :
  let out := process_account address chat_per_agent topics w in
  let X := chats (new_events w out.2) in
  ∀ pre five post,
    X = pre ++ five ++ post → length five = 5%nat →
    Forall (λ e, throttled_chat e = true) five →
    post = [] ∧
    hit_global_limit (replay chat0 (pre ++ take 4 five)) = false ∧
    hit_global_limit (replay chat0 X) = true ∧
    ∀ s f b, out.1 = Return (s, f, b) → b = true.
Proof.
  intros out X pre five post HX Hlen Hfive.
  pose proof (process_account_trace address chat_per_agent topics w) as Hspec.
  unfold wp in Hspec. fold out in Hspec.
  destruct Hspec as (E0 & T & E1 & Hl & HE0 & HE1 & Hp & Hret).
  assert (X = chats T) as HXT.
  { unfold X, new_events. rewrite Hl, drop_app_length, !chats_app.
    by rewrite (chats_background E0), (chats_background E1), app_nil_r. }
  rewrite HXT in HX.
  destruct (five_throttled_halt T pre five post Hp HX Hlen Hfive) as (Hpost & Hdown & Hup).
  rewrite HXT, replay_chats. split_and!; try done.
  intros s f b Hr. destruct (Hret s f b Hr) as [->| ->]; [|done].
  simpl in HX. destruct pre, five; discriminate.
Qed.

Lemma global_limit_halts_chat_witness :
  let w := fresh throttled_then_staking in
  let out := process_account (H:=toy_runtime) "0xme" 5 topics_professor w in
  chats (new_events w out.2) = replicate 5 (Chatted "Professor" "hi" false true) ∧
  hit_global_limit (replay chat0 (chats (new_events w out.2))) = true ∧
  ∀ s f b, out.1 = Return (s, f, b) → b = true.
Proof.
  intros w out.
  assert (chats (new_events w out.2)
          = [] ++ replicate 5 (Chatted "Professor" "hi" false true) ++ []) as HX
    by (vm_compute; reflexivity).
  split; [exact HX|].
  apply (global_limit_halts_chat (H:=toy_runtime) "0xme" 5 topics_professor w
           [] (replicate 5 (Chatted "Professor" "hi" false true)) [] HX eq_refl).
  repeat constructor.
Defined.

(** C1 as stated fails: after the fifth throttled attempt in a row the run
    still issues requests of the staking machine. *)
Lemma process_account_stakes_after_limit :
  let w := fresh throttled_then_staking in
  let out := process_account (H:=toy_runtime) "0xme" 5 topics_professor w in
  ∃ pre post,
    new_events w out.2 = pre ++ post ∧
    chats pre = replicate 5 (Chatted "Professor" "hi" false true) ∧
    Exists (λ e, is_staking_request e = true) post.
Proof.
  intros w out.
  exists (take 17 (new_events w out.2)), (drop 17 (new_events w out.2)).
  split; [by rewrite take_drop|]. split; [vm_compute; reflexivity|].
  vm_compute. do 1 apply Exists_cons_tl. apply Exists_cons_hd. reflexivity.
Qed.

(** ** The staking machine, target by target *)

Lemma st_sent ep w : st (sent ep w) = st w. Proof. done. Qed.
Lemma st_logged e w : st (logged e w) = st w. Proof. done. Qed.
Lemma st_saved s w : st (saved s w) = st w. Proof. done. Qed.
Lemma st_with_st s w : st (with_st s w) = s. Proof. done. Qed.
Lemma disk_sent ep w : disk (sent ep w) = disk w. Proof. done. Qed.
Lemma disk_logged e w : disk (logged e w) = disk w. Proof. done. Qed.
Lemma disk_saved s w : disk (saved s w) = Stored s. Proof. done. Qed.
Lemma disk_with_st s w : disk (with_st s w) = disk w. Proof. done. Qed.
Lemma clock_logged e w : clock (logged e w) = clock w. Proof. done. Qed.
Lemma clock_saved s w : clock (saved s w) = clock w. Proof. done. Qed.
Lemma clock_with_st s w : clock (with_st s w) = clock w. Proof. done. Qed.
Lemma log_sent ep w : log (sent ep w) = log w ++ [Sent ep (next_answer w)].
Proof. done. Qed.
Lemma log_logged e w : log (logged e w) = log w ++ [e]. Proof. done. Qed.
Lemma log_saved s w : log (saved s w) = log w ++ [Saved s]. Proof. done. Qed.
Lemma log_with_st s w : log (with_st s w) = log w. Proof. done. Qed.
Lemma next_answer_logged e w : next_answer (logged e w) = next_answer w.
Proof. done. Qed.
Lemma next_answer_saved s w : next_answer (saved s w) = next_answer w.
Proof. done. Qed.
Lemma next_answer_with_st s w : next_answer (with_st s w) = next_answer w.
Proof. done. Qed.

#[global, warnings="-implicit-create-rewrite-hint-db"] Hint Rewrite st_sent st_logged st_saved st_with_st disk_sent disk_logged
  disk_saved disk_with_st clock_logged clock_saved clock_with_st log_sent
  log_logged log_saved log_with_st next_answer_logged next_answer_saved
  next_answer_with_st : world.

Arguments sent : simpl never.
Arguments logged : simpl never.
Arguments saved : simpl never.
Arguments with_st : simpl never.
Arguments next_answer : simpl never.
Arguments SUBNETS : simpl never.
Arguments classify : simpl never.
Arguments update_row : simpl never.
Arguments lookup_row : simpl never.
Arguments human_tdelta : simpl never.
Arguments seconds_to_24h : simpl never.
Arguments or_zero : simpl never.
Arguments hours_of_micros : simpl never.
Arguments as_dict : simpl never.
Arguments slice10 : simpl never.
Arguments py_float : simpl never.
Arguments py_in : simpl never.
Arguments lower : simpl never.
Arguments PrimFloat.leb : simpl never.
Arguments PrimFloat.sub : simpl never.
Arguments Z.add : simpl never.

(** Unfolds the monad and the primitives and computes the run up to the
    next choice. *)
Ltac run :=
  unfold throttled_return, delegate, claim_rewards, undelegate, request_json,
    assign_row, get_row, ts_now_iso, console_print;
  unfold bind, try_except, ret, raise, lift, session_request, set_st, get_st,
    now_jkt, emit, state_save;
  cbn; autorewrite with world.

Lemma stake_target_run `{Runtime} address name t w row :
  lookup_row (st w) address (SUBNETS name) = Some row →
  stake_target address name t w
  = if negb (staked row) && (STAKE_MIN <=? kite_bal t)%float then
      let w1 := sent (Delegate (SUBNETS name)) w in
      match stake_answer (classify (Delegate (SUBNETS name)) (next_answer w)) with
      | Return _ =>
          (Return (Continue (staked_tally t)),
           mutated address (SUBNETS name) (set_last_stake_at (isoformat (clock w1)))
             (mutated address (SUBNETS name) (set_staked true) w1))
      | Raise TooManyRequestsError => (Return (Break t), throttled_world w1)
      | Raise _ => (Return (Continue t), w1)
      end
    else (Return (Continue t), w).
Proof.
  intros Hrow. unfold stake_target, stake_answer, mutated, throttled_world. run.
  rewrite Hrow. cbn.
  destruct (negb (staked row) && _); [|done].
  destruct (classify _ _) as [data|e]; cbn; [|by destruct e].
  destruct (as_dict _) as [d|e]; cbn; [|by destruct e].
  destruct (slice10 _) as [[]|e]; cbn; [|by destruct e].
  by autorewrite with world.
Qed.

Lemma hours_since_run `{Runtime} (r : row) w :
  bind (hours_since (last_stake_at r)) (λ h, ret (or_zero h)) w
  = (Return (elapsed_hours r (clock w)), w).
Proof.
  unfold hours_since, elapsed_hours. run.
  destruct (last_stake_at r) as [s|]; [|done].
  destruct (String.eqb s ""); [done|]. by destruct (fromisoformat s).
Qed.

Lemma claim_target_run `{Runtime} address name t w row :
  lookup_row (st w) address (SUBNETS name) = Some row →
  claim_target address name t w
  = if staked row then
      let w1 := sent (ClaimRewards (SUBNETS name)) w in
      match claim_answer (classify (ClaimRewards (SUBNETS name)) (next_answer w)) with
      | Return _ =>
          (Return (Continue (claimed_tally t)),
           mutated address (SUBNETS name) (set_last_claim_at (isoformat (clock w1))) w1)
      | Raise TooManyRequestsError => (Return (Break t), throttled_world w1)
      | Raise _ => (Return (Continue t), w1)
      end
    else (Return (Continue t), w).
Proof.
  intros Hrow. unfold claim_target, claim_answer, mutated, throttled_world. run.
  rewrite Hrow. cbn.
  destruct (staked row); [|done].
  destruct (classify _ _) as [data|e]; cbn; [|by destruct e].
  destruct (as_dict _) as [d|e]; cbn; [|by destruct e].
  destruct (py_float _) as [f|e]; cbn; [|by destruct e].
  by autorewrite with world.
Qed.

Lemma unstake_target_run `{Runtime} address name t w row :
  lookup_row (st w) address (SUBNETS name) = Some row →
  unstake_target address name t w
  = if staked row then
      let hrs := elapsed_hours row (clock w) in
      if (UNSTAKE_AFTER_HOURS <=? hrs)%float then
        let w1 := sent (Undelegate (SUBNETS name)) w in
        match classify (Undelegate (SUBNETS name)) (next_answer w) with
        | Return _ =>
            (Return (Continue (unstaked_tally t)),
             mutated address (SUBNETS name)
               (set_last_unstake_at (isoformat (clock w1)))
               (mutated address (SUBNETS name) (set_staked false) w1))
        | Raise TooManyRequestsError => (Return (Break t), throttled_world w1)
        | Raise (HTTPError msg) =>
            if py_in "too short" (lower msg) then
              match seconds_to_24h hrs with
              | Return s =>
                  (Return (Continue t),
                   logged (Said (TooShort name (human_tdelta s))) w1)
              | Raise e => (Raise e, w1)
              end
            else (Return (Continue t), w1)
        | Raise _ => (Return (Continue t), w1)
        end
      else
        match seconds_to_24h hrs with
        | Return s =>
            (Return (Continue t), logged (Said (WaitUnstake name (human_tdelta s))) w)
        | Raise e => (Raise e, w)
        end
    else (Return (Continue t), w).
Proof.
  intros Hrow. unfold unstake_target, mutated, throttled_world.
  unfold get_row, bind at 1 2, get_st. cbn. rewrite Hrow. cbn.
  destruct (staked row); [|done].
  unfold bind at 1.
  pose proof (hours_since_run row w) as Hh. unfold bind, ret, lift in Hh.
  destruct (hours_since (last_stake_at row) w) as [[h|e] w0]; [|done].
  injection Hh as Hh ->. cbv zeta. rewrite Hh.
  destruct (PrimFloat.leb _ _).
  - run. destruct (classify _ _) as [data|e]; cbn; [by autorewrite with world|].
    destruct e; try done.
    destruct (py_in _ _); [|done]. by destruct (seconds_to_24h _).
  - run. by destruct (seconds_to_24h _).
Qed.

Lemma detect_target_run `{Runtime} address name t w row :
  lookup_row (st w) address (SUBNETS name) = Some row →
  detect_target address name t w
  = if staked row then
      match seconds_to_24h (elapsed_hours row (clock w)) with
      | Return s =>
          (Return (Continue t),
           logged (Said (Countdown name (human_tdelta (Z.max 0 s)))) w)
      | Raise e => (Raise e, w)
      end
    else (Return (Continue t), w).
Proof.
  intros Hrow. unfold detect_target.
  unfold get_row, bind at 1 2, get_st. cbn. rewrite Hrow. cbn.
  destruct (staked row); [|done].
  unfold bind at 1.
  pose proof (hours_since_run row w) as Hh. unfold bind, ret, lift in Hh.
  destruct (hours_since (last_stake_at row) w) as [[h|e] w0]; [|done].
  injection Hh as Hh ->. rewrite Hh.
  run. by destruct (seconds_to_24h _).
Qed.

(** ** The store under the staking machine *)

Lemma lookup_row_update s a t f a' t' :
  lookup_row (update_row s a t f) a' t'
  = if decide (a = a' ∧ t = t') then f <$> lookup_row s a t else lookup_row s a' t'.
Proof.
  unfold lookup_row, update_row. destruct (accounts s) as [m|] eqn:Hacc; simpl.
  - destruct (decide (a = a')) as [<-|Ha].
    + rewrite lookup_alter_eq. destruct (m !! a) as [acct|]; simpl.
      * destruct (decide (t = t')) as [<-|Ht].
        -- rewrite lookup_alter_eq. by rewrite decide_True.
        -- rewrite lookup_alter_ne by done. by rewrite decide_False by tauto.
      * by case_decide.
    + rewrite lookup_alter_ne by done. by rewrite decide_False by tauto.
  - rewrite Hacc. simpl. by case_decide.
Qed.

Lemma lookup_row_update_is_Some s a t f a' t' :
  is_Some (lookup_row (update_row s a t f) a' t') ↔ is_Some (lookup_row s a' t').
Proof.
  rewrite lookup_row_update. case_decide as Heq; [|done].
  destruct Heq as [<- <-]. by rewrite fmap_is_Some.
Qed.

Lemma state_ok_update s a t f :
  state_ok s → (∀ r, row_ok r → row_ok (f r)) → state_ok (update_row s a t f).
Proof.
  intros Hs Hf a' t' r. rewrite lookup_row_update. case_decide; [|apply Hs].
  destruct (lookup_row s a t) as [r0|] eqn:Hr; [|done].
  intros [= <-]. eapply Hf, Hs, Hr.
Qed.

Lemma state_ok_update2 s a t f g :
  state_ok s → (∀ r, row_ok (g (f r))) →
  state_ok (update_row (update_row s a t f) a t g).
Proof.
  intros Hs Hf a' t' r. rewrite !lookup_row_update. case_decide as Heq.
  - rewrite decide_True by done.
    destruct (lookup_row s a t) as [r0|] eqn:Hr; [|done].
    intros [= <-]. apply Hf.
  - apply Hs.
Qed.

Lemma state_ok_ensure s address : state_ok s → state_ok (ensure_account_state s address).
Proof.
  intros Hs a t r Hr.
  apply ensure_account_state_rows in Hr as [Hr|(_ & _ & name & _ & _ & ->)].
  - by eapply Hs.
  - done.
Qed.

Lemma state_ok_empty : state_ok (State (Some ∅)).
Proof. intros a t r. unfold lookup_row. simpl. by rewrite lookup_empty. Qed.

Global Instance preserved_preorder I : PreOrder (preserved I).
Proof. split; unfold preserved; [by intros w Hw | intros w1 w2 w3 H1 H2 Hw; auto]. Qed.

Lemma stake_target_missing `{Runtime} address name t w :
  lookup_row (st w) address (SUBNETS name) = None →
  stake_target address name t w = (Raise KeyError, w).
Proof. intros Hrow. unfold stake_target. run. by rewrite Hrow. Qed.

Lemma claim_target_missing `{Runtime} address name t w :
  lookup_row (st w) address (SUBNETS name) = None →
  claim_target address name t w = (Raise KeyError, w).
Proof. intros Hrow. unfold claim_target. run. by rewrite Hrow. Qed.

Lemma unstake_target_missing `{Runtime} address name t w :
  lookup_row (st w) address (SUBNETS name) = None →
  unstake_target address name t w = (Raise KeyError, w).
Proof. intros Hrow. unfold unstake_target. run. by rewrite Hrow. Qed.

Lemma detect_target_missing `{Runtime} address name t w :
  lookup_row (st w) address (SUBNETS name) = None →
  detect_target address name t w = (Raise KeyError, w).
Proof. intros Hrow. unfold detect_target. run. by rewrite Hrow. Qed.

Section cycle_invariant.
Context (address : string) (d0 : file).
Implicit Types w : world.

Lemma cycle_inv_sent ep w : cycle_inv address d0 w → cycle_inv address d0 (sent ep w).
Proof.
  intros ((Hst & Hd & Hlog) & Hrest). split; [|done]. split_and!; try done.
  intros s. rewrite log_sent, in_app_iff. intros [Hin|[Hin|[]]]; [auto|done].
Qed.

Lemma cycle_inv_logged e w :
  (∀ s, e ≠ Saved s) → cycle_inv address d0 w → cycle_inv address d0 (logged e w).
Proof.
  intros He ((Hst & Hd & Hlog) & Hrest). split; [|done]. split_and!; try done.
  intros s. rewrite log_logged, in_app_iff. intros [Hin|[Hin|[]]]; [auto|].
  by destruct (He s).
Qed.

Lemma cycle_inv_saved w :
  cycle_inv address d0 w → cycle_inv address d0 (saved (st w) w).
Proof.
  intros ((Hst & Hd & Hlog) & Hhere & Hmem & Hdisk & Honly).
  split; [|split_and!; try done].
  - split_and!; try done.
    + intros s. rewrite disk_saved. by intros [= <-].
    + intros s. rewrite log_saved, in_app_iff. intros [Hin|[Hin|[]]]; [auto|].
      by injection Hin as <-.
  - intros a t Hon. exists (st w). rewrite disk_saved. auto.
Qed.

Lemma cycle_inv_mutated a t f w :
  (∀ r, row_ok r → row_ok (f r)) →
  cycle_inv address d0 w → cycle_inv address d0 (mutated a t f w).
Proof.
  intros Hf ((Hst & Hd & Hlog) & Hhere & Hmem & Hdisk & Honly).
  unfold mutated. split; [|split_and!; try done].
  - split_and!; try done. rewrite st_with_st. by apply state_ok_update.
  - intros name Hin. rewrite st_with_st, lookup_row_update_is_Some. auto.
  - intros a' t' Hon. rewrite st_with_st, lookup_row_update_is_Some. auto.
  - intros a' t'. rewrite st_with_st, lookup_row_update_is_Some. auto.
Qed.

Lemma cycle_inv_mutated2 a t f g w :
  (∀ r, row_ok (g (f r))) →
  cycle_inv address d0 w →
  cycle_inv address d0 (mutated a t g (mutated a t f w)).
Proof.
  intros Hf ((Hst & Hd & Hlog) & Hhere & Hmem & Hdisk & Honly).
  unfold mutated. split; [|split_and!; try done].
  - split_and!; try done. rewrite !st_with_st. by apply state_ok_update2.
  - intros name Hin. rewrite !st_with_st, !lookup_row_update_is_Some. auto.
  - intros a' t' Hon. rewrite !st_with_st, !lookup_row_update_is_Some. auto.
  - intros a' t'. rewrite !st_with_st, !lookup_row_update_is_Some. auto.
Qed.

Lemma cycle_inv_throttled w :
  cycle_inv address d0 w → cycle_inv address d0 (throttled_world w).
Proof.
  intros Hw. unfold throttled_world.
  rewrite <- (st_logged (Said LimitReached) w).
  by apply cycle_inv_saved, cycle_inv_logged.
Qed.

Lemma stake_target_inv `{Runtime} a name t :
  respects (preserved (cycle_inv address d0)) (stake_target a name t).
Proof.
  intros w Hw. destruct (lookup_row (st w) a (SUBNETS name)) as [row|] eqn:Hrow.
  - rewrite (stake_target_run _ _ _ _ _ Hrow).
    destruct (negb _ && _); [|done]. cbv zeta.
    destruct (stake_answer _) as [[]|[]]; simpl;
      first [ by apply cycle_inv_sent
            | by apply cycle_inv_throttled, cycle_inv_sent
            | apply cycle_inv_mutated2; [|by apply cycle_inv_sent] ].
    intros r _. by eexists.
  - by rewrite stake_target_missing.
Qed.

Lemma claim_target_inv `{Runtime} a name t :
  respects (preserved (cycle_inv address d0)) (claim_target a name t).
Proof.
  intros w Hw. destruct (lookup_row (st w) a (SUBNETS name)) as [row|] eqn:Hrow.
  - rewrite (claim_target_run _ _ _ _ _ Hrow).
    destruct (staked row); [|done]. cbv zeta.
    destruct (claim_answer _) as [?|[]]; simpl;
      first [ by apply cycle_inv_sent
            | by apply cycle_inv_throttled, cycle_inv_sent
            | apply cycle_inv_mutated; [|by apply cycle_inv_sent] ].
    by intros r.
  - by rewrite claim_target_missing.
Qed.

Lemma unstake_target_inv `{Runtime} a name t :
  respects (preserved (cycle_inv address d0)) (unstake_target a name t).
Proof.
  intros w Hw. destruct (lookup_row (st w) a (SUBNETS name)) as [row|] eqn:Hrow.
  - rewrite (unstake_target_run _ _ _ _ _ Hrow).
    destruct (staked row); [|done]. cbv zeta.
    destruct (PrimFloat.leb _ _).
    + destruct (classify _ _) as [?|[]]; simpl;
        try first [ by apply cycle_inv_sent
                  | by apply cycle_inv_throttled, cycle_inv_sent ].
      * apply cycle_inv_mutated2; [|by apply cycle_inv_sent]. by intros r.
      * destruct (py_in _ _); [|by apply cycle_inv_sent].
        destruct (seconds_to_24h _); simpl; [|by apply cycle_inv_sent].
        apply cycle_inv_logged; [done|by apply cycle_inv_sent].
    + destruct (seconds_to_24h _); simpl; [|done]. by apply cycle_inv_logged.
  - by rewrite unstake_target_missing.
Qed.

Lemma detect_target_inv `{Runtime} a name t :
  respects (preserved (cycle_inv address d0)) (detect_target a name t).
Proof.
  intros w Hw. destruct (lookup_row (st w) a (SUBNETS name)) as [row|] eqn:Hrow.
  - rewrite (detect_target_run _ _ _ _ _ Hrow).
    destruct (staked row); [|done].
    destruct (seconds_to_24h _); simpl; [|done]. by apply cycle_inv_logged.
  - by rewrite detect_target_missing.
Qed.

Lemma request_json_inv ep :
  respects (preserved (cycle_inv address d0)) (request_json ep).
Proof. intros w Hw. by apply cycle_inv_sent. Qed.

Lemma save_current_inv {A} (k : M A) :
  respects (preserved (cycle_inv address d0)) k →
  respects (preserved (cycle_inv address d0)) (s <- get_st ;; state_save s ;;; k).
Proof.
  intros Hk w Hw. unfold bind at 1 2, get_st, state_save. cbn.
  apply Hk. by apply cycle_inv_saved.
Qed.

Lemma print_inv r :
  respects (preserved (cycle_inv address d0)) (console_print r).
Proof. intros w Hw. by apply cycle_inv_logged. Qed.
End cycle_invariant.

Ltac cycle_step :=
  first
    [ apply save_current_inv
    | apply stake_target_inv
    | apply claim_target_inv
    | apply unstake_target_inv
    | apply detect_target_inv
    | apply request_json_inv
    | apply print_inv
    | respects_step fail ].

Lemma restake_phase_inv `{Runtime} address d0 t :
  respects (preserved (cycle_inv address d0)) (restake_phase address t).
Proof. unfold restake_phase, get_balances. repeat cycle_step. Qed.

Lemma stake_phase_inv `{Runtime} address d0 t :
  respects (preserved (cycle_inv address d0)) (stake_phase address t).
Proof.
  unfold stake_phase, claim_phase, claim_loop, unstake_phase.
  repeat first [ apply restake_phase_inv | cycle_step ].
Qed.

Lemma cycle_inv_loaded address w :
  sound w →
  cycle_inv address (disk w)
    (with_st (ensure_account_state
                match disk w with Stored s => s | _ => State (Some ∅) end address) w).
Proof.
  intros (Hst & Hd & Hlog).
  set (loaded := match disk w with Stored s => s | _ => State (Some ∅) end).
  assert (state_ok loaded) as Hloaded.
  { unfold loaded. destruct (disk w) eqn:Hdisk; try apply state_ok_empty. by apply Hd. }
  destruct (ensure_account_state_rows loaded address) as (Hkeep & Honly & Hall).
  split; [|split_and!].
  - split_and!; try done. rewrite st_with_st. by apply state_ok_ensure.
  - intros name Hin. rewrite st_with_st. by apply Hall.
  - intros a t (s & Hs & [r Hr]). rewrite st_with_st.
    assert (loaded = s) as Hl by (unfold loaded; by rewrite Hs).
    rewrite (Hkeep a t r); [done|]. by rewrite Hl.
  - done.
  - intros a t [r Hr]. rewrite st_with_st in Hr.
    destruct (Honly a t r Hr) as [Hold|(_ & -> & name & Hin & -> & _)].
    + left. unfold loaded in Hold. destruct (disk w) as [| |s] eqn:Hdisk.
      * unfold lookup_row in Hold. simpl in Hold. by rewrite lookup_empty in Hold.
      * unfold lookup_row in Hold. simpl in Hold. by rewrite lookup_empty in Hold.
      * exists s. split; [done|]. by eexists.
    + right. eauto.
Qed.

Lemma staking_cycle_inv `{Runtime} address w :
  sound w → cycle_inv address (disk w) (staking_cycle address w).2.
Proof.
  intros Hw. apply (cycle_inv_loaded address) in Hw.
  unfold staking_cycle. unfold bind at 1 2, state_load, set_st. cbn.
  set (w1 := with_st _ w) in *.
  set (rest := bind _ _).
  assert (respects (preserved (cycle_inv address (disk w))) rest) as Hrest.
  { unfold rest, get_balances.
    repeat first [ apply stake_phase_inv | cycle_step ]. }
  by apply Hrest.
Qed.

(** *** The rest of the pipeline leaves the store alone *)

Lemma sound_frame w w' :
  st w' = st w → disk w' = disk w →
  (∀ s, In (Saved s) (log w') → In (Saved s) (log w)) →
  sound w → sound w'.
Proof.
  intros Hst Hd Hlog (H1 & H2 & H3). unfold sound. rewrite Hst, Hd. auto.
Qed.

Ltac sound_prim :=
  let w := fresh "w" in
  let Hw := fresh "Hw" in
  intros w Hw; apply (sound_frame w); [reflexivity|reflexivity| |exact Hw];
  intros ?; unfold request_json, session_request, sleep_seconds, bind, lift, sent, slept;
  cbn; rewrite ?in_app_iff; intros [?|[?|[]]]; [assumption|discriminate].

Lemma request_json_sound ep : respects (preserved sound) (request_json ep).
Proof. sound_prim. Qed.

Lemma sleep_seconds_sound sec : respects (preserved sound) (sleep_seconds sec).
Proof. sound_prim. Qed.

Lemma emit_sound e : (∀ s, e ≠ Saved s) → respects (preserved sound) (emit e).
Proof.
  intros He w Hw. apply (sound_frame w); [reflexivity|reflexivity| |exact Hw].
  intros s. unfold emit, logged. cbn. rewrite in_app_iff.
  intros [?|[?|[]]]; [done|]. by destruct (He s).
Qed.

Lemma random_choice_sound {A} (l : list A) d :
  respects (preserved sound) (random_choice l d).
Proof. intros w Hw. by apply (sound_frame w). Qed.

Lemma set_TX_CACHE_sound c : respects (preserved sound) (set_TX_CACHE c).
Proof. intros w Hw. by apply (sound_frame w). Qed.

Lemma get_inference_tx_sound n wait :
  respects (preserved sound) (get_inference_tx n wait).
Proof.
  induction n as [|n IH]; simpl.
  - respects_auto idtac.
  - respects_auto ltac:(first [ apply IH | apply request_json_sound
                              | apply sleep_seconds_sound ]).
Qed.

Lemma staking_cycle_sound `{Runtime} address :
  respects (preserved sound) (staking_cycle address).
Proof. intros w Hw. by apply (staking_cycle_inv address w Hw). Qed.

Ltac sound_step :=
  first
    [ apply staking_cycle_sound
    | apply get_inference_tx_sound
    | apply request_json_sound
    | apply sleep_seconds_sound
    | apply random_choice_sound
    | apply set_TX_CACHE_sound
    | apply emit_sound; intros ?; discriminate
    | respects_step fail ].

Lemma process_account_sound `{Runtime} address k topics :
  respects (preserved sound) (process_account address k topics).
Proof.
  unfold process_account, rpc_eth_call_smart_account, signin_and_login,
    chat_rounds, chat_agent, chat_slot, retry_agent, _send_one_chat, chat_ai,
    submit_receipt, account_outcome, get_random_tx_hash, fetch_tx_hashes,
    daily_quiz, create_quiz, get_quiz_and_answer, submit_quiz, final_statistics,
    wallet_info, get_balances, get_staked_totals, console_print.
  repeat sound_step.
Qed.

Lemma reachable_sound `{Runtime} w : reachable w → sound w.
Proof.
  induction 1 as [sc now d Hd|address w _ IH|address k topics w _ IH|sc now ds w _ IH].
  - split_and!; [|done|done]. intros a t r. unfold lookup_row. by simpl.
  - by apply staking_cycle_sound.
  - by apply process_account_sound.
  - by apply (sound_frame w).
Qed.

(** ** Throttling inside the staking cycle *)

Lemma py_float_not_throttled `{Runtime} v :
  py_float v ≠ Raise TooManyRequestsError.
Proof.
  unfold py_float. destruct v; try done.
  - by destruct (is_finite _).
  - by destruct (float_of_str _).
Qed.

Lemma as_dict_not_throttled v : as_dict v ≠ Raise TooManyRequestsError.
Proof. by destruct v. Qed.

Lemma slice10_not_throttled v : slice10 v ≠ Raise TooManyRequestsError.
Proof. by destruct v. Qed.

Lemma and_then_throttled {A B} (r : result A) (k : A → result B) :
  and_then r k = Raise TooManyRequestsError →
  r = Raise TooManyRequestsError
  ∨ ∃ a, r = Return a ∧ k a = Raise TooManyRequestsError.
Proof. destruct r as [a|e]; simpl; [eauto|]. intros [= ->]. by left. Qed.

Lemma stake_answer_throttled r :
  stake_answer r = Raise TooManyRequestsError → r = Raise TooManyRequestsError.
Proof.
  unfold stake_answer. intros [?|(data & _ & Hk)]%and_then_throttled; [done|].
  apply and_then_throttled in Hk as [Hk|(d & _ & Hk)].
  - by apply as_dict_not_throttled in Hk.
  - by apply slice10_not_throttled in Hk.
Qed.

Lemma claim_answer_throttled `{Runtime} r :
  claim_answer r = Raise TooManyRequestsError → r = Raise TooManyRequestsError.
Proof.
  unfold claim_answer. intros [?|(data & _ & Hk)]%and_then_throttled; [done|].
  apply and_then_throttled in Hk as [Hk|(d & _ & Hk)].
  - by apply as_dict_not_throttled in Hk.
  - by apply py_float_not_throttled in Hk.
Qed.

Lemma balance_answer_throttled `{Runtime} r :
  balance_answer r = Raise TooManyRequestsError → r = Raise TooManyRequestsError.
Proof.
  unfold balance_answer. intros [?|(data & _ & Hk)]%and_then_throttled; [done|].
  apply and_then_throttled in Hk as [Hk|(d & _ & Hk)];
    [by apply as_dict_not_throttled in Hk|].
  apply and_then_throttled in Hk as [Hk|(bals & _ & Hk)];
    [by apply as_dict_not_throttled in Hk|].
  apply and_then_throttled in Hk as [Hk|(kite & _ & Hk)];
    [by apply py_float_not_throttled in Hk|].
  apply and_then_throttled in Hk as [Hk|(usdt & _ & Hk)];
    [by apply py_float_not_throttled in Hk|done].
Qed.

Lemma throttles_true ep x :
  throttles ep x = true ↔ classify ep x = Raise TooManyRequestsError.
Proof.
  unfold throttles. destruct (classify ep x) as [d|[]]; split; congruence.
Qed.

Lemma throttles_false ep x :
  classify ep x ≠ Raise TooManyRequestsError → throttles ep x = false.
Proof.
  intros Hne. destruct (throttles ep x) eqn:Ht; [|done].
  by apply throttles_true in Ht.
Qed.

Lemma step_post_idle w (t : tally) : step_post w (Return (Continue t)) w.
Proof. exists []. rewrite app_nil_r. split; [done|constructor]. Qed.

Lemma step_post_missing w e : step_post w (Raise e) w.
Proof. exists []. rewrite app_nil_r. split; [done|constructor]. Qed.

(** The request was not throttled; what follows it in the step is no
    request. *)
Lemma step_post_sent ep w (r : result (step tally)) w' tail :
  classify ep (next_answer w) ≠ Raise TooManyRequestsError →
  log w' = log (sent ep w) ++ tail →
  Forall (λ e, is_sent e = false) tail →
  (∀ t, r ≠ Return (Break t)) →
  step_post w r w'.
Proof.
  intros Hc Hl Htail Hr. exists (Sent ep (next_answer w) :: tail).
  split; [by rewrite Hl, log_sent, <- app_assoc|].
  assert (clean (Sent ep (next_answer w) :: tail)) as Hclean.
  { constructor; [by apply throttles_false|].
    eapply Forall_impl; [done|]. by intros []. }
  destruct r as [[t|t]|e]; try done. by destruct (Hr t).
Qed.

Lemma step_post_throttled ep w (t : tally) :
  classify ep (next_answer w) = Raise TooManyRequestsError →
  step_post w (Return (Break t)) (throttled_world (sent ep w)).
Proof.
  intros Hc. unfold throttled_world.
  exists [Sent ep (next_answer w); Said LimitReached; Saved (st w)].
  split; [by autorewrite with world; rewrite <- !app_assoc|].
  exists [], ep, (next_answer w), [Said LimitReached].
  autorewrite with world. split_and!; try done.
  - constructor.
  - by apply throttles_true.
  - by right.
Qed.

Lemma log_mutated a sn f w : log (mutated a sn f w) = log w.
Proof. done. Qed.
Lemma st_mutated a sn f w :
  st (mutated a sn f w) = update_row (st w) a sn f.
Proof. done. Qed.
Lemma disk_mutated a sn f w : disk (mutated a sn f w) = disk w.
Proof. done. Qed.

Lemma stake_target_post `{Runtime} address name t w :
  wp (stake_target address name t) w (step_post w).
Proof.
  unfold wp. destruct (lookup_row (st w) address (SUBNETS name)) as [row|] eqn:Hrow.
  - rewrite (stake_target_run _ _ _ _ _ Hrow).
    destruct (negb _ && _); [|apply step_post_idle]. cbv zeta.
    destruct (stake_answer _) as [[]|e] eqn:Ha; cbn [fst snd].
    + eapply (step_post_sent _ _ _ _ []); try done.
      * intros Hc. by rewrite Hc in Ha.
      * by rewrite !log_mutated, app_nil_r.
    + destruct e;
        try (eapply (step_post_sent _ _ _ _ []);
             [by intros Hc; rewrite Hc in Ha|by rewrite app_nil_r|done|done]).
      apply step_post_throttled. by apply stake_answer_throttled.
  - rewrite stake_target_missing by done. apply step_post_missing.
Qed.

Lemma step_post_quiet w (r : result (step tally)) w' tail :
  log w' = log w ++ tail →
  Forall (λ e, is_sent e = false) tail →
  (∀ t, r ≠ Return (Break t)) →
  step_post w r w'.
Proof.
  intros Hl Htail Hr. exists tail. split; [done|].
  assert (clean tail) as Hclean.
  { eapply Forall_impl; [done|]. by intros []. }
  destruct r as [[t|t]|e]; try done. by destruct (Hr t).
Qed.

Lemma claim_target_post `{Runtime} address name t w :
  wp (claim_target address name t) w (step_post w).
Proof.
  unfold wp. destruct (lookup_row (st w) address (SUBNETS name)) as [row|] eqn:Hrow.
  - rewrite (claim_target_run _ _ _ _ _ Hrow).
    destruct (staked row); [|apply step_post_idle]. cbv zeta.
    destruct (claim_answer _) as [amount|e] eqn:Ha; cbn [fst snd].
    + eapply (step_post_sent _ _ _ _ []); try done.
      * intros Hc. by rewrite Hc in Ha.
      * by rewrite !log_mutated, app_nil_r.
    + destruct e;
        try (eapply (step_post_sent _ _ _ _ []);
             [by intros Hc; rewrite Hc in Ha|by rewrite app_nil_r|done|done]).
      apply step_post_throttled. by apply claim_answer_throttled.
  - rewrite claim_target_missing by done. apply step_post_missing.
Qed.

Lemma unstake_target_post `{Runtime} address name t w :
  wp (unstake_target address name t) w (step_post w).
Proof.
  unfold wp. destruct (lookup_row (st w) address (SUBNETS name)) as [row|] eqn:Hrow.
  - rewrite (unstake_target_run _ _ _ _ _ Hrow).
    destruct (staked row); [|apply step_post_idle]. cbv zeta.
    destruct (PrimFloat.leb _ _).
    + destruct (classify _ _) as [data|e] eqn:Hc; cbn [fst snd].
      * eapply (step_post_sent _ _ _ _ []); try done.
        -- by rewrite Hc.
        -- by rewrite !log_mutated, app_nil_r.
      * destruct e;
          try (eapply (step_post_sent _ _ _ _ []);
               [by rewrite Hc|by rewrite app_nil_r|done|done]).
        -- by apply step_post_throttled.
        -- destruct (py_in _ _).
           ++ destruct (seconds_to_24h _) as [s|e]; cbn [fst snd].
              ** eapply (step_post_sent _ _ _ _ [_]);
                   [by rewrite Hc|by rewrite log_logged| |done].
                 by repeat constructor.
              ** eapply (step_post_sent _ _ _ _ []);
                   [by rewrite Hc|by rewrite app_nil_r|done|done].
           ++ eapply (step_post_sent _ _ _ _ []);
                [by rewrite Hc|by rewrite app_nil_r|done|done].
    + destruct (seconds_to_24h _) as [s|e]; cbn [fst snd].
      * eapply (step_post_quiet _ _ _ [_]); [by rewrite log_logged| |done].
        by repeat constructor.
      * apply step_post_missing.
  - rewrite unstake_target_missing by done. apply step_post_missing.
Qed.

Lemma detect_target_post `{Runtime} address name t w :
  wp (detect_target address name t) w (step_post w).
Proof.
  unfold wp. destruct (lookup_row (st w) address (SUBNETS name)) as [row|] eqn:Hrow.
  - rewrite (detect_target_run _ _ _ _ _ Hrow).
    destruct (staked row); [|apply step_post_idle].
    destruct (seconds_to_24h _) as [s|e]; cbn [fst snd].
    + eapply (step_post_quiet _ _ _ [_]); [by rewrite log_logged| |done].
      by repeat constructor.
    + apply step_post_missing.
  - rewrite detect_target_missing by done. apply step_post_missing.
Qed.

Lemma clean_app evs1 evs2 : clean evs1 → clean evs2 → clean (evs1 ++ evs2).
Proof. apply Forall_app_2. Qed.

Lemma halted_app evs1 evs2 w' : clean evs1 → halted evs2 w' → halted (evs1 ++ evs2) w'.
Proof.
  intros H1 (pre & ep & x & tail & -> & Hpre & Hx & Htail & Hd).
  exists (evs1 ++ pre), ep, x, tail. rewrite <- app_assoc.
  split_and!; try done. by apply clean_app.
Qed.

Lemma step_post_trans w (t : tally) w1 r w2 :
  step_post w (Return (Continue t)) w1 → step_post w1 r w2 → step_post w r w2.
Proof.
  intros (evs1 & Hl1 & H1) (evs2 & Hl2 & H2). exists (evs1 ++ evs2).
  split; [by rewrite Hl2, Hl1, <- app_assoc|].
  destruct r as [[t'|t']|e]; try by apply clean_app.
  by apply halted_app.
Qed.

(** A loop over targets whose steps stop at a throttle stops at a
    throttle. *)
Lemma loop_post (body : string → tally → M (step tally)) :
  (∀ name t w, wp (body name t) w (step_post w)) →
  ∀ xs t w, wp (for_each xs body t) w (step_post w).
Proof.
  intros Hbody xs. induction xs as [|x xs IH]; intros t w.
  - apply step_post_idle.
  - simpl. apply wp_bind. eapply wp_mono; [apply Hbody|].
    intros [[t'|t']|e] w1 H1; [|done..].
    eapply wp_mono; [apply IH|]. intros r w2. by apply (step_post_trans _ t').
Qed.

(** *** The phases *)

Lemma get_balances_run `{Runtime} w :
  get_balances w
  = (match balance_answer (classify Balance (next_answer w)) with
     | Return kite =>
         match and_then (classify Balance (next_answer w)) (λ data,
               and_then (as_dict (dict_get data "data" (JObj []))) (λ d,
               and_then (as_dict (py_or (dict_get d "balances" (JObj [])) (JObj [])))
                 (λ bals, py_float (dict_get bals "usdt" (JFloat 0))))) with
         | Return usdt => Return (kite, usdt)
         | Raise e => Raise e
         end
     | Raise e => Raise e
     end, sent Balance w).
Proof.
  unfold get_balances, balance_answer. run.
  destruct (classify _ _) as [data|e]; cbn; [|done].
  destruct (as_dict _) as [d|e]; cbn; [|done].
  destruct (as_dict _) as [bals|e]; cbn; [|done].
  destruct (py_float _) as [kite|e]; cbn; [|done].
  by destruct (py_float _) as [usdt|e]; cbn.
Qed.

Lemma refetch_run `{Runtime} w :
  try_except (b <- get_balances ;; ret (fst b)) (λ _, ret 0%float) w
  = (Return (refetched w), sent Balance w).
Proof.
  unfold try_except, bind at 1. rewrite get_balances_run. unfold refetched.
  destruct (balance_answer _) as [kite|e] eqn:Hb; [|done].
  destruct (and_then _ _) as [usdt|e] eqn:Hu; [done|].
  exfalso. revert Hb Hu. unfold balance_answer.
  destruct (classify _ _) as [data|e']; cbn; [|done].
  destruct (as_dict _) as [d|e']; cbn; [|done].
  destruct (as_dict _) as [bals|e']; cbn; [|done].
  destruct (py_float _) as [k|e']; cbn; [|done].
  by destruct (py_float _) as [u|e']; cbn.
Qed.

Lemma phase_of_break w (t : tally) w1 :
  step_post w (Return (Break t)) w1 → phase_post w (Return (counts t)) w1.
Proof. intros (evs & Hl & Hh). exists evs. split; [done|]. left. eauto. Qed.

Lemma phase_of_raise w e w1 :
  step_post w (Raise e) w1 → phase_post w (Raise e) w1.
Proof. intros (evs & Hl & Hc). exists evs. split; [done|]. right. by split. Qed.

Lemma phase_trans w (t : tally) w1 r w2 :
  step_post w (Return (Continue t)) w1 → phase_post w1 r w2 → phase_post w r w2.
Proof.
  intros (evs1 & Hl1 & H1) (evs2 & Hl2 & H2). exists (evs1 ++ evs2).
  split; [by rewrite Hl2, Hl1, <- app_assoc|].
  destruct H2 as [[Hh Hv]|[Hc Hs]]; [left; split; [by apply halted_app|done]|].
  right. split; [by apply clean_app|].
  intros v Hv. destruct (Hs v Hv) as [Hd [evs0 ->]].
  split; [done|]. exists (evs1 ++ evs0). by rewrite <- app_assoc.
Qed.

(** The end of the cycle: [state_save(st)] and the return. *)
Lemma phase_finish w (t : tally) w1 :
  step_post w (Return (Continue t)) w1 →
  wp (s <- get_st ;; state_save s ;;; ret (counts t)) w1 (phase_post w).
Proof.
  intros (evs & Hl & Hc). unfold wp. run.
  exists (evs ++ [Saved (st w1)]).
  split; [by rewrite log_saved, Hl, <- app_assoc|].
  right. split; [apply clean_app; [done|by repeat constructor]|].
  intros _ _. split; [done|]. by exists evs.
Qed.

Lemma STAKE_MIN_positive : (STAKE_MIN <=? 0)%float = false.
Proof. reflexivity. Qed.

Lemma restake_phase_post `{Runtime} address t w :
  wp (restake_phase address t) w (phase_post w).
Proof.
  unfold restake_phase. apply wp_bind. eapply wp_run; [apply refetch_run|].
  cbv beta iota zeta.
  destruct (throttles Balance (next_answer w)) eqn:Hthr.
  - (* the re-fetch was throttled: nothing is staked, the state is saved *)
    apply throttles_true in Hthr.
    assert (refetched w = 0%float) as ->.
    { unfold refetched. by rewrite Hthr. }
    rewrite STAKE_MIN_positive. unfold wp. run.
    exists [Sent Balance (next_answer w); Saved (st w)].
    split; [by rewrite log_saved, log_sent, <- app_assoc|]. left.
    split; [|by eexists].
    exists [], Balance, (next_answer w), [].
    split_and!; [done|constructor|by apply throttles_true|by left|done].
  - set (t1 := Tally _ _ _ _).
    assert (step_post w (Return (Continue t1)) (sent Balance w)) as Hfetch.
    { eapply (step_post_sent _ _ _ _ []); try done.
      - intros Hc. unfold throttles in Hthr. by rewrite Hc in Hthr.
      - by rewrite app_nil_r. }
    apply wp_bind.
    destruct (PrimFloat.leb _ _).
    + eapply wp_mono; [apply loop_post, @stake_target_post|].
      intros [[t'|t']|e] w1 H1.
      * eapply wp_mono; [apply (phase_finish (sent Balance w)), H1|].
        intros r w2. by apply phase_trans with t1.
      * apply wp_ret. apply phase_trans with t1 (sent Balance w); [done|].
        by apply phase_of_break.
      * apply phase_trans with t1 (sent Balance w); [done|].
        by apply phase_of_raise.
    + apply wp_ret. by apply phase_finish.
Qed.

Lemma phase_after_loop (loop : M (step tally)) (next : tally → M (Z * Z * Z)) w :
  wp loop w (step_post w) →
  (∀ t w1, wp (next t) w1 (phase_post w1)) →
  wp (r <- loop ;;
      match r with
      | Break t' => ret (counts t')
      | Continue t' => next t'
      end) w (phase_post w).
Proof.
  intros Hloop Hnext. apply wp_bind. eapply wp_mono; [done|].
  intros [[t'|t']|e] w1 H1.
  - eapply wp_mono; [apply Hnext|]. intros r w2. by apply phase_trans with t'.
  - by apply wp_ret, phase_of_break.
  - by apply phase_of_raise.
Qed.

Lemma unstake_phase_post `{Runtime} address t w :
  wp (unstake_phase address t) w (phase_post w).
Proof.
  apply phase_after_loop.
  - apply loop_post, @unstake_target_post.
  - intros. apply restake_phase_post.
Qed.

Lemma claim_phase_post `{Runtime} address t w :
  wp (claim_phase address t) w (phase_post w).
Proof.
  apply phase_after_loop.
  - apply loop_post, @claim_target_post.
  - intros. apply unstake_phase_post.
Qed.

Lemma stake_phase_post `{Runtime} address t w :
  wp (stake_phase address t) w (phase_post w).
Proof.
  apply phase_after_loop.
  - destruct (PrimFloat.leb _ _).
    + apply loop_post, @stake_target_post.
    + apply loop_post, @detect_target_post.
  - intros. apply claim_phase_post.
Qed.

Lemma staking_cycle_run `{Runtime} address w :
  staking_cycle address w
  = let w1 := sent Balance (opened address w) in
    match balance_answer (classify Balance (next_answer w)) with
    | Return kite => stake_phase address (Tally kite 0 0 0) w1
    | Raise TooManyRequestsError =>
        (Return (0, 0, 0), logged (Said LimitReached) w1)
    | Raise _ => stake_phase address (Tally 0 0 0 0) w1
    end.
Proof.
  unfold staking_cycle. unfold bind at 1 2, state_load, set_st. cbn.
  fold (opened address w). unfold bind at 1, try_except, bind at 1.
  rewrite get_balances_run.
  change (next_answer (opened address w)) with (next_answer w).
  destruct (balance_answer _) as [kite|e] eqn:Hb.
  - destruct (and_then _ _) as [usdt|e] eqn:Hu; [done|].
    exfalso. revert Hb Hu. unfold balance_answer.
    destruct (classify _ _) as [data|e']; cbn; [|done].
    destruct (as_dict _) as [d|e']; cbn; [|done].
    destruct (as_dict _) as [bals|e']; cbn; [|done].
    destruct (py_float _) as [k|e']; cbn; [|done].
    by destruct (py_float _) as [u|e']; cbn.
  - by destruct e.
Qed.

Lemma staking_cycle_post `{Runtime} address w :
  wp (staking_cycle address) w (cycle_post address w).
Proof.
  unfold wp. rewrite staking_cycle_run. cbv zeta. unfold cycle_post.
  assert (log (sent Balance (opened address w))
          = log w ++ [Sent Balance (next_answer w)]) as Hlog by done.
  assert (∀ r w',
    phase_post (sent Balance (opened address w)) r w' →
    ∃ evs, log w' = log w ++ Sent Balance (next_answer w) :: evs ∧
      ((halted evs w' ∧ ∃ v, r = Return v)
       ∨ clean evs ∧ ∀ v, r = Return v → saved_last evs w'))
    as Hphase.
  { intros r w' (evs & Hl & Hevs). exists evs. split; [|done].
    by rewrite Hl, Hlog, <- app_assoc. }
  destruct (throttles Balance (next_answer w)) eqn:Hthr.
  - apply throttles_true in Hthr. unfold balance_answer. rewrite Hthr. cbn [and_then fst snd].
    exists [Said LimitReached]. split_and!; try done.
    by rewrite log_logged, Hlog, <- app_assoc.
  - destruct (balance_answer _) as [kite|e] eqn:Hb.
    + apply Hphase, stake_phase_post.
    + destruct e; try apply Hphase, stake_phase_post.
      apply balance_answer_throttled in Hb. unfold throttles in Hthr.
      by rewrite Hb in Hthr.
Qed.

(** Where a throttled request lies in a run that is clean up to one
    request and silent after it. *)
Lemma throttled_position pre e post pre' e' tail :
  pre ++ e :: post = pre' ++ e' :: tail →
  throttled_sent e = true → clean pre' →
  Forall (λ e, is_sent e = false) tail →
  pre = pre' ∧ e = e' ∧ post = tail.
Proof.
  intros Heq He Hpre Htail. revert pre' Heq Hpre.
  induction pre as [|a pre IH]; intros [|a' pre'] Heq Hpre; simpl in Heq;
    injection Heq as -> H0.
  - done.
  - apply Forall_cons in Hpre as [Ha _]. congruence.
  - rewrite <- H0 in Htail.
    apply Forall_app in Htail as [_ [Hs _]%Forall_cons]. by destruct e.
  - apply Forall_cons in Hpre as [_ Hpre].
    by destruct (IH pre' H0 Hpre) as (-> & -> & ->).
Qed.

Lemma halted_silent evs w' :
  halted evs w' →
  ∃ pre ep x tail,
    evs = pre ++ Sent ep x :: tail ++ [Saved (st w')] ∧ clean pre ∧
    (tail = [] ∨ tail = [Said LimitReached]) ∧
    Forall (λ e, is_sent e = false) (tail ++ [Saved (st w')]) ∧
    disk w' = Stored (st w').
Proof.
  intros (pre & ep & x & tail & -> & Hpre & Hx & Htail & Hd).
  exists pre, ep, x, tail. split_and!; try done.
  destruct Htail as [->| ->]; by repeat constructor.
Qed.

Lemma not_clean_throttled pre e post :
  throttled_sent e = true → ¬ clean (pre ++ e :: post).
Proof.
  intros He [_ [Hc _]%Forall_cons]%Forall_app. congruence.
Qed.

Lemma for_each_skip {X S} (body : X → S → M (step S)) x xs s w w' :
  body x s w = (Return (Continue s), w') →
  for_each (x :: xs) body s w = for_each xs body s w'.
Proof. intros Hb. simpl. unfold bind. by rewrite Hb. Qed.

Lemma passed_over_intro (body : string → tally → M (step tally)) name t w w' r :
  body name t w = (r, w') → st w' = st w → disk w' = disk w →
  (∀ v, r = Return v → v = Continue t) →
  passed_over body name t w.
Proof.
  intros Hrun Hst Hd Hr. unfold passed_over. cbv zeta. rewrite Hrun. cbn [fst snd].
  split; [done|]. split; [done|]. intros v ->.
  split; [by apply Hr|]. intros rest. apply for_each_skip.
  by rewrite Hrun, (Hr v eq_refl).
Qed.

Lemma stake_target_passed `{Runtime} address name t w row e :
  lookup_row (st w) address (SUBNETS name) = Some row →
  negb (staked row) && (STAKE_MIN <=? kite_bal t)%float = true →
  stake_answer (classify (Delegate (SUBNETS name)) (next_answer w)) = Raise e →
  e ≠ TooManyRequestsError →
  passed_over (stake_target address) name t w.
Proof.
  intros Hrow Hcond Ha He.
  apply (passed_over_intro _ _ _ _ (sent (Delegate (SUBNETS name)) w)
           (Return (Continue t))); [|done|done|by intros v [= <-]].
  rewrite (stake_target_run _ _ _ _ _ Hrow), Hcond. cbv zeta. rewrite Ha.
  by destruct e.
Qed.

Lemma claim_target_passed `{Runtime} address name t w row e :
  lookup_row (st w) address (SUBNETS name) = Some row →
  staked row = true →
  claim_answer (classify (ClaimRewards (SUBNETS name)) (next_answer w)) = Raise e →
  e ≠ TooManyRequestsError →
  passed_over (claim_target address) name t w.
Proof.
  intros Hrow Hcond Ha He.
  apply (passed_over_intro _ _ _ _ (sent (ClaimRewards (SUBNETS name)) w)
           (Return (Continue t))); [|done|done|by intros v [= <-]].
  rewrite (claim_target_run _ _ _ _ _ Hrow), Hcond. cbv zeta. rewrite Ha.
  by destruct e.
Qed.

Lemma unstake_target_passed `{Runtime} address name t w row e :
  lookup_row (st w) address (SUBNETS name) = Some row →
  staked row = true →
  (UNSTAKE_AFTER_HOURS <=? elapsed_hours row (clock w))%float = true →
  classify (Undelegate (SUBNETS name)) (next_answer w) = Raise e →
  e ≠ TooManyRequestsError →
  passed_over (unstake_target address) name t w.
Proof.
  intros Hrow Hcond Hdue Ha He.
  pose proof (unstake_target_run address name t w row Hrow) as Hrun.
  rewrite Hcond in Hrun. cbv zeta in Hrun. rewrite Hdue, Ha in Hrun.
  assert (unstake_target address name t w
          = (Return (Continue t), sent (Undelegate (SUBNETS name)) w) →
          passed_over (unstake_target address) name t w) as Hplain.
  { intros Heq. by eapply passed_over_intro; [exact Heq|done|done|intros v [= <-]]. }
  destruct e; try done; try (by apply Hplain).
  destruct (py_in _ _); [|by apply Hplain].
  destruct (seconds_to_24h _) as [s|e'].
  - by eapply passed_over_intro; [exact Hrun|done|done|intros v [= <-]].
  - by eapply passed_over_intro; [exact Hrun|done|done|intros v [=]].
Qed.

Lemma new_events_app w w' evs : log w' = log w ++ evs → new_events w w' = evs.
Proof. intros Hl. unfold new_events. by rewrite Hl, drop_app_length. Qed.

(** What a throttled request of a staking cycle is followed by. *)
Lemma staking_cycle_throttle `{Runtime} address w pre ep x post :
  let out := staking_cycle address w in
  new_events w out.2 = pre ++ Sent ep x :: post →
  throttles ep x = true →
  match pre with
  | [] =>
      ep = Balance ∧ post = [Said LimitReached] ∧ out.1 = Return (0, 0, 0) ∧
      disk out.2 = disk w ∧ st out.2 = st (opened address w)
  | _ :: _ =>
      (post = [Saved (st out.2)] ∨ post = [Said LimitReached; Saved (st out.2)]) ∧
      disk out.2 = Stored (st out.2) ∧ ∃ v, out.1 = Return v
  end.
Proof.
  intros out Hevs Hthr. pose proof (staking_cycle_post address w) as Hpost.
  unfold wp, cycle_post in Hpost. fold out in Hpost. cbv zeta in Hpost.
  destruct Hpost as (evs & Hlog & Hpost).
  rewrite (new_events_app _ _ _ Hlog) in Hevs.
  destruct (throttles Balance (next_answer w)) eqn:Hopen.
  - destruct Hpost as (-> & Hr & Hd & Hst).
    destruct (throttled_position pre (Sent ep x) post [] (Sent Balance (next_answer w))
                [Said LimitReached]) as (-> & [= -> ->] & ->);
      [done|done|constructor|by repeat constructor|done].
  - destruct Hpost as [[Hh Hv]|[Hc _]].
    + apply halted_silent in Hh as (pre' & ep' & x' & tail & -> & Hpre & Htail & Hs & Hd).
      destruct (throttled_position pre (Sent ep x) post
                  (Sent Balance (next_answer w) :: pre') (Sent ep' x')
                  (tail ++ [Saved (st out.2)])) as (-> & _ & ->);
        [done|done|by constructor|done|].
      split_and!; [|done..]. destruct Htail as [-> | ->]; [by left|by right].
    + exfalso. symmetry in Hevs.
      assert (clean (Sent Balance (next_answer w) :: evs)) as Hall.
      { by constructor. }
      rewrite <- Hevs in Hall.
      by apply (not_clean_throttled pre (Sent ep x) post Hthr).
Qed.

(** Within one staking cycle, a throttled request of a phase is followed
    by no further request and no further phase: the cycle reports the limit
    at most, saves the state it holds in memory and returns its counters.
    The step of a target whose stake, claim or unstake request fails
    without being throttled changes neither the row of the target nor the
    store on disk and, when it returns, the loop goes on with the next
    target with its counters as they were. *)
Theorem throttle_aborts_cycle `{Runtime} address w :
  let out := staking_cycle address w in
  (∀ pre ep x post,
     pre ≠ [] →
     new_events w out.2 = pre ++ Sent ep x :: post →
     throttles ep x = true →
     (post = [Saved (st out.2)] ∨ post = [Said LimitReached; Saved (st out.2)]) ∧
     disk out.2 = Stored (st out.2) ∧ ∃ v, out.1 = Return v) ∧
  (∀ name t w0 row e,
     lookup_row (st w0) address (SUBNETS name) = Some row →
     e ≠ TooManyRequestsError →
     (negb (staked row) && (STAKE_MIN <=? kite_bal t)%float = true →
      stake_answer (classify (Delegate (SUBNETS name)) (next_answer w0)) = Raise e →
      passed_over (stake_target address) name t w0) ∧
     (staked row = true →
      claim_answer (classify (ClaimRewards (SUBNETS name)) (next_answer w0)) = Raise e →
      passed_over (claim_target address) name t w0) ∧
     (staked row = true →
      (UNSTAKE_AFTER_HOURS <=? elapsed_hours row (clock w0))%float = true →
      classify (Undelegate (SUBNETS name)) (next_answer w0) = Raise e →
      passed_over (unstake_target address) name t w0)).
Proof.
  intros out. split.
  - intros pre ep x post Hpre Hevs Hthr.
    pose proof (staking_cycle_throttle address w pre ep x post Hevs Hthr) as Hc.
    by destruct pre.
  - intros name t w0 row e Hrow He. split_and!.
    + intros. by eapply stake_target_passed.
    + intros. by eapply claim_target_passed.
    + intros. by eapply unstake_target_passed.
Qed.

Lemma throttle_aborts_cycle_witness :
  let w := fresh stake_then_throttled in
  let out := staking_cycle (H:=toy_runtime) "0xme" w in
  let pre := [Sent Balance (answer (balance_reply 2));
              Sent (Delegate (SUBNETS "Kite AI Agents")) (answer tx_reply)] in
  new_events w out.2
  = pre ++ Sent (Delegate (SUBNETS "Bitte")) (answer (status_reply 429))
      :: [Said LimitReached; Saved (st out.2)] ∧
  disk out.2 = Stored (st out.2) ∧
  out.1 = Return (1, 0, 0) ∧
  option_map staked (lookup_row (st out.2) "0xme" (SUBNETS "Kite AI Agents"))
  = Some true ∧
  passed_over (claim_target (H:=toy_runtime) "0xme") "Bitte" (Tally 0 0 1 0)
    (World [status_reply 500] (clock two_staked) [] [] (disk two_staked)
       (st two_staked) []).
Proof.
  intros w out pre.
  assert (new_events w out.2
          = pre ++ Sent (Delegate (SUBNETS "Bitte")) (answer (status_reply 429))
              :: [Said LimitReached; Saved (st out.2)]) as Hevs
    by (vm_compute; reflexivity).
  assert (pre ≠ []) as Hpre by discriminate.
  split; [exact Hevs|]. split; [|split; [|split]]; [|vm_compute; reflexivity..|].
  - exact (proj1 (proj2 (proj1 (throttle_aborts_cycle (H:=toy_runtime) "0xme" w)
                           pre _ _ _ Hpre Hevs eq_refl))).
  - refine (proj1 (proj2 (proj2 (throttle_aborts_cycle (H:=toy_runtime) "0xme" w)
              "Bitte" (Tally 0 0 1 0) _
              (Row "Bitte" true (Some "3000") None None)
              (HTTPError "500 Server Error:  for url: https://ozone-point-system.prod.gokite.ai/subnet/claim-rewards")
              _ _)) eq_refl _).
    + vm_compute. reflexivity.
    + discriminate.
    + vm_compute. reflexivity.
Defined.

(** C5, at a delegate request answered 400 with the error text
    "see [/docs]": [request_json] raises [HTTPError] with that text
    (line 151), which is not a throttle, so the handler of line 410 takes
    it, and line 411 prints the text as it is between "[err]" and
    "[/err]". *)
Theorem delegate_refusal_text :
  throttles (Delegate (SUBNETS "Kite AI Agents")) refused_with_markup = false ∧
  stake_answer (classify (Delegate (SUBNETS "Kite AI Agents")) refused_with_markup)
  = Raise (HTTPError "see [/docs]").
Proof. split; vm_compute; reflexivity. Qed.

(** The opening balance request of a cycle is not one of its phases: when
    it is throttled the cycle reports the limit and returns zero counters;
    the rows it has just created stay in memory and the store on disk is
    left as it was. *)
Theorem opening_throttle_not_saved `{Runtime} address w :
  throttles Balance (next_answer w) = true →
  let out := staking_cycle address w in
  out.1 = Return (0, 0, 0) ∧
  new_events w out.2 = [Sent Balance (next_answer w); Said LimitReached] ∧
  disk out.2 = disk w ∧
  st out.2 = st (opened address w).
Proof.
  intros Hthr out. pose proof (staking_cycle_post address w) as Hpost.
  unfold wp, cycle_post in Hpost. fold out in Hpost. cbv zeta in Hpost.
  rewrite Hthr in Hpost. destruct Hpost as (evs & Hlog & -> & Hr & Hd & Hst).
  split_and!; try done. by apply new_events_app.
Qed.

Lemma opening_throttle_not_saved_witness :
  let w := fresh [status_reply 429] in
  let out := staking_cycle (H:=toy_runtime) "0xme" w in
  out.1 = Return (0, 0, 0) ∧ disk out.2 = Missing ∧
  is_Some (lookup_row (st out.2) "0xme" (SUBNETS "Bitte")).
Proof.
  intros w out.
  destruct (opening_throttle_not_saved (H:=toy_runtime) "0xme" w eq_refl)
    as (Hr & _ & Hd & Hst).
  split; [exact Hr|]. split; [exact Hd|].
  fold out in Hst. rewrite Hst. vm_compute. eexists. reflexivity.
Defined.

(** A staking cycle in which no request is throttled and which returns
    ends by saving the state it holds in memory. *)
Theorem unthrottled_cycle_saves `{Runtime} address w v :
  let out := staking_cycle address w in
  clean (new_events w out.2) → out.1 = Return v →
  saved_last (new_events w out.2) out.2.
Proof.
  intros out Hclean Hv. pose proof (staking_cycle_post address w) as Hpost.
  unfold wp, cycle_post in Hpost. fold out in Hpost. cbv zeta in Hpost.
  destruct Hpost as (evs & Hlog & Hpost).
  rewrite (new_events_app _ _ _ Hlog) in *.
  apply Forall_cons in Hclean as [Hopen Hclean]. simpl in Hopen.
  rewrite Hopen in Hpost. destruct Hpost as [[Hh _]|[_ Hs]].
  - exfalso. destruct Hh as (pre & ep & x & tail & -> & _ & Hx & _).
    by apply (not_clean_throttled pre (Sent ep x) (tail ++ [Saved (st out.2)]) Hx).
  - destruct (Hs v Hv) as [Hd [evs0 ->]]. split; [done|].
    by exists (Sent Balance (next_answer w) :: evs0).
Qed.

Lemma unthrottled_cycle_saves_witness :
  let w := fresh [balance_reply 1; tx_reply] in
  let out := staking_cycle (H:=toy_runtime) "0xme" w in
  saved_last (new_events w out.2) out.2.
Proof.
  intros w out.
  apply (unthrottled_cycle_saves (H:=toy_runtime) "0xme" w (1, 0, 0)).
  - vm_compute. repeat constructor.
  - vm_compute. reflexivity.
Defined.

(** ** The invariant of the positions *)

(** C7: after a staking cycle run from any reachable world, every position
    with [staked] set has its [last_stake_at], in memory, in the state file
    and in every state that was ever saved; the positions in memory are
    those of the state file the cycle started from and the targets of the
    account, which all exist; and no position of that state file has been
    lost, in memory or in the file. *)
Theorem stake_positions_invariant `{Runtime} address w :
  reachable w →
  let w' := (staking_cycle address w).2 in
  (state_ok (st w') ∧
   (∀ s, disk w' = Stored s → state_ok s) ∧
   (∀ s, In (Saved s) (log w') → state_ok s)) ∧
  (∀ name, In name SUBNET_ORDER →
           is_Some (lookup_row (st w') address (SUBNETS name))) ∧
  (∀ a t, is_Some (lookup_row (st w') a t) →
          on_disk (disk w) a t
          ∨ (a = address ∧ ∃ name, In name SUBNET_ORDER ∧ t = SUBNETS name)) ∧
  (∀ a t, on_disk (disk w) a t →
          is_Some (lookup_row (st w') a t) ∧ on_disk (disk w') a t).
Proof.
  intros Hw%reachable_sound w'.
  destruct (staking_cycle_inv address w Hw) as (Hsound & Hall & Hmem & Hdisk & Honly).
  fold w' in Hsound, Hall, Hmem, Hdisk, Honly.
  split; [exact Hsound|]. split; [exact Hall|]. split; [exact Honly|].
  intros a t Hat. split; [by apply Hmem|by apply Hdisk].
Qed.

Lemma stake_positions_invariant_witness :
  let w := fresh stake_then_throttled in
  let w' := (staking_cycle (H:=toy_runtime) "0xme" w).2 in
  reachable (H:=toy_runtime) w ∧
  state_ok (st w') ∧
  (∀ s, disk w' = Stored s → state_ok s) ∧
  lookup_row (st w') "0xme" (SUBNETS "Kite AI Agents")
  = Some (Row "Kite AI Agents" true (Some "2000") None None) ∧
  lookup_row (st w') "0xme" (SUBNETS "Bitte") = Some (default_row "Bitte").
Proof.
  intros w w'.
  assert (reachable (H:=toy_runtime) w) as Hw.
  { apply (reach_start (H:=toy_runtime)). discriminate. }
  split; [exact Hw|].
  destruct (stake_positions_invariant (H:=toy_runtime) "0xme" w Hw)
    as ((Hmem & Hdisk & _) & _).
  split; [exact Hmem|]. split; [exact Hdisk|].
  split; vm_compute; reflexivity.
Defined.

(** ** The claim phase *)














(** ** The unstake gate *)

(** One step of the unstake loop sends an unstake request exactly when the
    position is staked and the hours elapsed since [last_stake_at] are at
    least 24; otherwise it sends none and leaves the state in memory and
    the store on disk as they were. *)
Theorem unstake_only_when_due `{Runtime} address name t w row :
  lookup_row (st w) address (SUBNETS name) = Some row →
  let out := unstake_target address name t w in
  let due := staked row && (UNSTAKE_AFTER_HOURS <=? elapsed_hours row (clock w))%float in
  requests (new_events w out.2) = (if due then [Undelegate (SUBNETS name)] else []) ∧
  (due = false → st out.2 = st w ∧ disk out.2 = disk w).
Proof.
  intros Hrow out due. unfold out, due.
  rewrite (unstake_target_run _ _ _ _ _ Hrow).
  assert (∀ w' evs, log w' = log w ++ evs → new_events w w' = evs) as Hev
    by apply new_events_app.
  destruct (staked row); cbn [andb].
  2:{ rewrite (Hev _ []) by by rewrite app_nil_r. done. }
  cbv zeta. destruct (PrimFloat.leb _ _).
  - split; [|done].
    destruct (classify _ _) as [data|e]; cbn [snd].
    + by rewrite (Hev _ [Sent (Undelegate (SUBNETS name)) (next_answer w)])
        by by rewrite !log_mutated, log_sent.
    + assert (requests (new_events w (sent (Undelegate (SUBNETS name)) w))
              = [Undelegate (SUBNETS name)]) as Hsent.
      { by rewrite (Hev _ [Sent (Undelegate (SUBNETS name)) (next_answer w)])
          by by rewrite log_sent. }
      destruct e; try exact Hsent.
      * unfold throttled_world. cbn [snd].
        by rewrite (Hev _ [Sent (Undelegate (SUBNETS name)) (next_answer w);
                           Said LimitReached; Saved (st w)])
          by by autorewrite with world; rewrite <- !app_assoc.
      * destruct (py_in _ _); [|exact Hsent].
        destruct (seconds_to_24h _) as [s|e]; [|exact Hsent]. cbn [snd].
        by rewrite (Hev _ [Sent (Undelegate (SUBNETS name)) (next_answer w);
                           Said (TooShort name (human_tdelta s))])
          by by rewrite log_logged, log_sent, <- app_assoc.
  - destruct (seconds_to_24h _) as [s|e]; cbn [snd].
    + by rewrite (Hev _ [Said (WaitUnstake name (human_tdelta s))])
        by by rewrite log_logged.
    + rewrite (Hev _ []) by by rewrite app_nil_r. done.
Qed.

Lemma unstake_only_when_due_witness :
  let w := waiting (24 * 3600 * 1000000 - 1) in
  let out := unstake_target (H:=toy_runtime) "0xme" "Bitte" (Tally 0 0 0 0) w in
  requests (new_events w out.2) = [] ∧ st out.2 = st w ∧ disk out.2 = disk w.
Proof.
  intros w out.
  destruct (unstake_only_when_due (H:=toy_runtime) "0xme" "Bitte" (Tally 0 0 0 0) w
              (Row "Bitte" true (Some "0") None None) eq_refl) as [Hreq Hkeep].
  split; [exact Hreq|]. apply Hkeep. vm_compute. reflexivity.
Defined.

Lemma elapsed_hours_unknown `{Runtime} row now :
  last_stake_at row = None ∨ last_stake_at row = Some ""
  ∨ (∃ s, last_stake_at row = Some s ∧ fromisoformat s = None) →
  elapsed_hours row now = 0%float.
Proof.
  unfold elapsed_hours. intros [-> | [-> | (s & -> & Hs)]]; [done|done|].
  rewrite Hs. by destruct (String.eqb s "").
Qed.

(** A staked position whose [last_stake_at] is missing, empty or not a
    timestamp counts as just staked: the unstake step sends no request,
    raises nothing and reports a wait of 24 hours. *)
Theorem unknown_stake_time_waits `{Runtime} address name t w row :
  lookup_row (st w) address (SUBNETS name) = Some row →
  staked row = true →
  last_stake_at row = None ∨ last_stake_at row = Some ""
  ∨ (∃ s, last_stake_at row = Some s ∧ fromisoformat s = None) →
  unstake_target address name t w
  = (Return (Continue t), logged (Said (WaitUnstake name "24:00:00")) w).
Proof.
  intros Hrow Hst Hts.
  rewrite (unstake_target_run _ _ _ _ _ Hrow), Hst. cbv zeta.
  rewrite (elapsed_hours_unknown row (clock w) Hts).
  assert ((UNSTAKE_AFTER_HOURS <=? 0)%float = false) as -> by reflexivity.
  assert (seconds_to_24h 0 = Return 86400) as -> by (vm_compute; reflexivity).
  assert (human_tdelta 86400 = "24:00:00") as -> by (vm_compute; reflexivity).
  done.
Qed.

Lemma unknown_stake_time_waits_witness :
  let w := World [] 5 [] [] Missing (staked_since (Some "yesterday")) [] in
  unstake_target (H:=toy_runtime) "0xme" "Bitte" (Tally 0 0 0 0) w
  = (Return (Continue (Tally 0 0 0 0)),
     logged (Said (WaitUnstake "Bitte" "24:00:00")) w).
Proof.
  intros w.
  apply (unknown_stake_time_waits (H:=toy_runtime) "0xme" "Bitte" (Tally 0 0 0 0) w
           (Row "Bitte" true (Some "yesterday") None None) eq_refl eq_refl).
  right. right. exists "yesterday". split; reflexivity.
Defined.

(** C4: the wait that the unstake step reports is not always 24 hours
    minus the elapsed time rounded down to the second.  For a position
    staked exactly 57605 seconds ago the elapsed time in hours is the float
    nearest to 57605/3600, the product of that float with 3600 is above
    57605, and the truncation gives 28794 seconds, reported as 07:59:54,
    where 24 hours minus the elapsed time is 28795 seconds, 07:59:55. *)
Theorem wait_report_one_second_short :
  let w := waiting (57605 * 1000000) in
  let row := Row "Bitte" true (Some "0") None None in
  let out := unstake_target (H:=toy_runtime) "0xme" "Bitte" (Tally 0 0 0 0) w in
  lookup_row (st w) "0xme" (SUBNETS "Bitte") = Some row ∧
  elapsed_hours (H:=toy_runtime) row (clock w) = hours_of_micros (57605 * 1000000) ∧
  seconds_to_24h (hours_of_micros (57605 * 1000000)) = Return 28794 ∧
  new_events w out.2 = [Said (WaitUnstake "Bitte" "07:59:54")] ∧
  human_tdelta (24 * 3600 - 57605) = "07:59:55".
Proof. vm_compute. repeat split; reflexivity. Qed.

(** * The rest of the pipeline *)

(** ** Polling for the transaction hash *)

Lemma poll_answer_throttled r :
  poll_answer r = Raise TooManyRequestsError → r = Raise TooManyRequestsError.
Proof.
  unfold poll_answer. intros [?|(data & _ & Hk)]%and_then_throttled; [done|].
  apply and_then_throttled in Hk as [Hk|(d & _ & Hk)]; [|done].
  by apply as_dict_not_throttled in Hk.
Qed.

Lemma get_inference_tx_step n wait_sec w :
  get_inference_tx (S n) wait_sec w
  = let w1 := sent InferenceTx w in
    match poll_answer (classify InferenceTx (next_answer w)) with
    | Return txh =>
        if truthy txh then (Return txh, w1)
        else get_inference_tx n wait_sec (slept wait_sec w1)
    | Raise TooManyRequestsError => get_inference_tx n wait_sec (slept wait_sec w1)
    | Raise e => (Raise e, w1)
    end.
Proof.
  unfold poll_answer. cbn [get_inference_tx].
  unfold bind at 1, try_except, bind at 1, request_json, bind at 1, session_request,
    lift.
  destruct (classify _ _) as [data|e]; cbn [and_then].
  - unfold ret, lift, bind at 1.
    destruct (as_dict _) as [d|e] eqn:Hd; cbn [and_then].
    + by destruct (truthy _).
    + destruct e; try done. by apply as_dict_not_throttled in Hd.
  - by destruct e.
Qed.

(** [get_inference_tx] sends at most [max_retry] lookup requests and
    otherwise only sleeps [wait_sec] seconds; a throttled lookup is slept
    over, never raised; what it returns is a hash the service gave, or the
    empty string once all [max_retry] lookups have been spent. *)
Theorem get_inference_tx_bounded max_retry wait_sec w :
  let out := get_inference_tx max_retry wait_sec w in
  let evs := new_events w out.2 in
  Forall (λ e, poll_event wait_sec e = true) evs ∧
  (length (requests evs) ≤ max_retry)%nat ∧
  out.1 ≠ Raise TooManyRequestsError ∧
  (∀ h, out.1 = Return h →
        truthy h = true ∨ (h = JStr "" ∧ length (requests evs) = max_retry)).
Proof.
  revert w. induction max_retry as [|n IH]; intros w out evs.
  - unfold evs, out. cbn [get_inference_tx]. unfold ret, lift. cbn [fst snd].
    rewrite (new_events_app w w []) by by rewrite app_nil_r.
    split_and!; [constructor|done|done|]. intros h [= <-]. by right.
  - assert (∀ w2 : world,
              log w2 = log (slept wait_sec (sent InferenceTx w)) ++ new_events
                         (slept wait_sec (sent InferenceTx w)) w2 →
              new_events w w2
              = Sent InferenceTx (next_answer w) :: Slept wait_sec
                  :: new_events (slept wait_sec (sent InferenceTx w)) w2) as Hev.
    { intros w2 Hl. apply new_events_app. rewrite Hl.
      unfold slept at 1. cbn [log]. rewrite log_sent, <- !app_assoc. done. }
    assert (∀ m : M json, respects (adds (λ _, true)) m →
              ∀ w0, log (m w0).2 = log w0 ++ new_events w0 (m w0).2) as Hadds.
    { intros m Hm w0. destruct (Hm w0) as (l & Hl & _).
      by rewrite (new_events_app _ _ _ Hl). }
    pose proof (Hadds (get_inference_tx n wait_sec)
                  (get_inference_tx_adds _ n wait_sec (λ _, eq_refl) eq_refl)
                  (slept wait_sec (sent InferenceTx w))) as Hrec.
    specialize (IH (slept wait_sec (sent InferenceTx w))). cbv zeta in IH.
    destruct IH as (IH1 & IH2 & IH3 & IH4).
    assert (Forall (λ e, poll_event wait_sec e = true)
              (new_events w (get_inference_tx n wait_sec
                               (slept wait_sec (sent InferenceTx w))).2)
            ∧ (length (requests (new_events w (get_inference_tx n wait_sec
                               (slept wait_sec (sent InferenceTx w))).2)) ≤ S n)%nat
            ∧ ((get_inference_tx n wait_sec
                  (slept wait_sec (sent InferenceTx w))).1
               ≠ Raise TooManyRequestsError)
            ∧ ∀ h, (get_inference_tx n wait_sec
                      (slept wait_sec (sent InferenceTx w))).1 = Return h →
                   truthy h = true
                   ∨ (h = JStr "" ∧
                      length (requests (new_events w (get_inference_tx n wait_sec
                               (slept wait_sec (sent InferenceTx w))).2)) = S n))
      as Hagain.
    { rewrite (Hev _ Hrec). split_and!.
      - constructor; [done|]. constructor; [|done]. simpl. by apply Z.eqb_eq.
      - simpl. lia.
      - done.
      - intros h Hh. destruct (IH4 h Hh) as [?|[-> Hn]]; [by left|].
        right. split; [done|]. simpl. by rewrite Hn. }
    unfold evs, out. rewrite get_inference_tx_step. cbv zeta.
    assert (new_events w (sent InferenceTx w) = [Sent InferenceTx (next_answer w)])
      as Hone by (apply new_events_app; by rewrite log_sent).
    destruct (poll_answer _) as [txh|e] eqn:Ha.
    + destruct (truthy txh) eqn:Htx; [|exact Hagain]. cbn [fst snd].
      rewrite Hone. split_and!; [by repeat constructor|simpl; lia|done|].
      intros h [= <-]. by left.
    + destruct e; try exact Hagain; cbn [fst snd]; rewrite Hone;
        (split_and!; [by repeat constructor|simpl; lia|done|done]).
Qed.

(** ** One chat *)

Lemma get_inference_tx_not_throttled n wait_sec w :
  (get_inference_tx n wait_sec w).1 ≠ Raise TooManyRequestsError.
Proof.
  revert w. induction n as [|n IH]; intros w; [done|].
  rewrite get_inference_tx_step. cbv zeta.
  destruct (poll_answer _) as [txh|e].
  - destruct (truthy txh); [done|apply IH].
  - destruct e; first [apply IH|done].
Qed.

Lemma receipt_answer_throttled r :
  receipt_answer r = Raise TooManyRequestsError → r = Raise TooManyRequestsError.
Proof.
  unfold receipt_answer. intros [?|(data & _ & Hk)]%and_then_throttled; [done|].
  apply and_then_throttled in Hk as [Hk|(d & _ & Hk)].
  - by apply as_dict_not_throttled in Hk.
  - by destruct (negb _).
Qed.

Arguments get_inference_tx : simpl never.

Lemma send_one_chat_run aa address agent message w :
  _send_one_chat aa address agent message w
  = let w1 := sent (Inference agent message) w in
    match classify (Inference agent message) (next_answer w) with
    | Raise e => chat_returned agent message (false, is_throttle e) w1
    | Return _ =>
        let w2 := sent SubmitReceipt w1 in
        match receipt_answer (classify SubmitReceipt (next_answer w1)) with
        | Raise e => chat_returned agent message (false, is_throttle e) w2
        | Return _ =>
            match get_inference_tx 5 8 w2 with
            | (Return _, w3) => chat_returned agent message (true, false) w3
            | (Raise e, w3) => chat_returned agent message (false, is_throttle e) w3
            end
        end
    end.
Proof.
  unfold _send_one_chat, chat_returned, receipt_answer, chat_ai, submit_receipt.
  run.
  destruct (classify _ _) as [data|e]; cbn; [|by destruct e].
  destruct (classify _ _) as [data2|e]; cbn; [|by destruct e].
  destruct (as_dict _) as [d|e]; cbn; [|by destruct e].
  destruct (negb _); cbn; [done|].
  destruct (get_inference_tx 5 8 _) as [[h|e] w3]; cbn; [done|by destruct e].
Qed.

(** Whenever [_send_one_chat] for a known agent returns, it does not
    report a success as rate-limited.  It reports rate-limited exactly when
    the chat request, or the receipt submission after an accepted chat, was
    throttled: a throttled lookup of the transaction hash does not count.
    It reports success only when the chat was accepted and the receipt got
    an id. *)
Theorem send_one_chat_outcome aa address agent message w ok rate_limited :
  In agent AGENT_ORDER →
  let ep := Inference agent message in
  let w1 := sent ep w in
  let out := _send_one_chat aa address agent message w in
  out.1 = Return (ok, rate_limited) →
  (∃ evs, new_events w out.2 = evs ++ [Chatted agent message ok rate_limited]) ∧
  (rate_limited = true ↔
     classify ep (next_answer w) = Raise TooManyRequestsError
     ∨ ((∃ data, classify ep (next_answer w) = Return data) ∧
        classify SubmitReceipt (next_answer w1) = Raise TooManyRequestsError)) ∧
  (ok = true →
   rate_limited = false ∧
   (∃ data, classify ep (next_answer w) = Return data) ∧
   ∃ rid, receipt_answer (classify SubmitReceipt (next_answer w1)) = Return rid).
Proof.
  intros _ ep w1 out. unfold out. rewrite send_one_chat_run. cbv zeta.
  fold ep. fold w1. unfold chat_returned.
  assert (∀ w2 r, adds (λ _, true) w1 w2 →
            ∃ evs, new_events w (logged (Chatted agent message r.1 r.2) w2)
                   = evs ++ [Chatted agent message r.1 r.2]) as Hlast.
  { intros w2 r (l & Hl & _). exists (Sent ep (next_answer w) :: l).
    apply new_events_app. rewrite log_logged, Hl. unfold w1.
    by rewrite log_sent, <- !app_assoc. }
  assert (adds (λ _, true) w1 w1) as H11.
  { exists []. split; [by rewrite app_nil_r|constructor]. }
  assert (adds (λ _, true) w1 (sent SubmitReceipt w1)) as H12.
  { exists [Sent SubmitReceipt (next_answer w1)]. split; [by rewrite log_sent|].
    by repeat constructor. }
  destruct (classify ep (next_answer w)) as [data|e] eqn:Hc.
  - destruct (receipt_answer _) as [rid|e] eqn:Hr.
    + pose proof (get_inference_tx_not_throttled 5 8 (sent SubmitReceipt w1)) as Hnt.
      pose proof (get_inference_tx_adds (λ _, true) 5 8 (λ _, eq_refl) eq_refl
                    (sent SubmitReceipt w1)) as Hpoll.
      assert (adds (λ _, true) w1 (get_inference_tx 5 8 (sent SubmitReceipt w1)).2)
        as H13.
      { destruct H12 as (l1 & Hl1 & _), Hpoll as (l2 & Hl2 & _).
        exists (l1 ++ l2). split; [by rewrite Hl2, Hl1, <- app_assoc|].
        by apply Forall_forall. }
      assert (classify SubmitReceipt (next_answer w1) ≠ Raise TooManyRequestsError)
        as Hok.
      { intros Hx. by rewrite Hx in Hr. }
      destruct (get_inference_tx 5 8 _) as [[h|e] w3]; cbn [fst snd] in *.
      * intros [= <- <-]. split; [by apply (Hlast w3 (true, false))|].
        split; [|by eauto]. split; [done|]. intros [?|[_ ?]]; done.
      * intros [= <- <-].
        split; [by apply (Hlast w3 (false, is_throttle e))|]. split; [|done].
        split; [by destruct e|]. intros [?|[_ ?]]; done.
    + cbn [fst snd]. intros [= <- <-].
      split; [by apply (Hlast _ (false, is_throttle e))|]. split; [|done]. split.
      * intros He. right. split; [by eauto|]. apply receipt_answer_throttled.
        rewrite Hr. by destruct e.
      * intros [?|[_ Hx]]; [done|]. rewrite Hx in Hr. by injection Hr as <-.
  - cbn [fst snd]. intros [= <- <-].
    split; [by apply (Hlast _ (false, is_throttle e))|]. split; [|done]. split.
    + intros He. left. by destruct e.
    + intros [[= ->]|[[data [=]] _]]. done.
Qed.

Lemma send_one_chat_outcome_witness :
  let w := fresh [ok_reply (JObj []);
                  ok_reply (JObj [("data", JObj [("id", JStr "r1")])]);
                  status_reply 429; status_reply 429;
                  ok_reply (JObj [("data", JObj [("tx_hash", JStr "0xabc")])])] in
  let out := _send_one_chat "0xaa" "0xme" "Zane" "hi" w in
  out.1 = Return (true, false) ∧
  ∃ rid, receipt_answer (classify SubmitReceipt
                           (next_answer (sent (Inference "Zane" "hi") w)))
         = Return rid.
Proof.
  intros w out.
  assert (out.1 = Return (true, false)) as Hr by (vm_compute; reflexivity).
  split; [exact Hr|].
  destruct (send_one_chat_outcome "0xaa" "0xme" "Zane" "hi" w true false)
    as (_ & _ & Hok).
  { right. right. right. left. reflexivity. }
  { exact Hr. }
  exact (proj2 (proj2 (Hok eq_refl))).
Defined.

(** ** The cache of transaction hashes *)

Lemma tx_hashes_truthy txs hs :
  tx_hashes txs = Return hs → Forall (λ h, truthy h = true) hs.
Proof.
  revert hs. induction txs as [|tx txs IH]; intros hs; simpl.
  - intros [= <-]. constructor.
  - destruct (as_dict tx) as [d|e]; [|done]. simpl.
    destruct (tx_hashes txs) as [hs'|e]; [|done]. simpl.
    destruct (truthy (dict_get d "hash" JNull)) eqn:Hh; intros [= <-].
    + constructor; [done|]. by apply IH.
    + by apply IH.
Qed.

Lemma fetched_truthy r hs : fetched r = Return hs → Forall (λ h, truthy h = true) hs.
Proof.
  unfold fetched. destruct r as [data|e]; [|done]. simpl.
  destruct (as_dict _) as [d|e]; [|done]. simpl.
  destruct (py_or _ _); try done. apply tx_hashes_truthy.
Qed.

Lemma get_random_tx_hash_run w :
  get_random_tx_hash w
  = match _TX_CACHE w with
    | _ :: _ => random_choice (_TX_CACHE w) JNull w
    | [] =>
        let w1 := sent LatestBlock w in
        match fetched (classify LatestBlock (next_answer w)) with
        | Return [] => (Return (JStr zero_hash), with_TX_CACHE [] w1)
        | Return hs => random_choice hs JNull (with_TX_CACHE hs w1)
        | Raise _ => (Return (JStr zero_hash), w1)
        end
    end.
Proof.
  unfold get_random_tx_hash, bind at 1, get_TX_CACHE.
  destruct (_TX_CACHE w) as [|h0 c] eqn:Hcache; [|done].
  assert (_TX_CACHE (sent LatestBlock w) = []) as Hsent by done.
  unfold fetched, fetch_tx_hashes, set_TX_CACHE. run.
  destruct (classify _ _) as [data|e]; cbn; [|by rewrite Hsent].
  destruct (as_dict _) as [d|e]; cbn; [|by rewrite Hsent].
  destruct (py_or _ _); cbn; try by rewrite Hsent.
  by destruct (tx_hashes _) as [[|h hs]|e]; cbn; rewrite ?Hsent.
Qed.

Lemma random_choice_run {A} (l : list A) d w :
  l ≠ [] →
  ∃ x, random_choice l d w = (Return x, rolled w) ∧ x ∈ l.
Proof.
  intros Hl. destruct (random_choice_elem l d w Hl) as [_ (x & Hx & Hin)].
  exists x. split; [|done]. unfold random_choice in *. simpl in Hx. by rewrite Hx.
Qed.

(** [get_random_tx_hash] never raises.  With a filled cache it sends no
    request, leaves the cache as it is and returns one of its hashes.  With
    an empty cache it sends exactly one block request; the cache becomes the
    non-empty hashes of the transactions in the reply, or stays empty when
    the request or the decoding fails, and the result is one of the cached
    hashes, or the all-zero hash when there is none. *)
Theorem tx_hash_cache w :
  let out := get_random_tx_hash w in
  (_TX_CACHE w ≠ [] →
   new_events w out.2 = [] ∧ _TX_CACHE out.2 = _TX_CACHE w ∧
   ∃ h, out.1 = Return h ∧ h ∈ _TX_CACHE w) ∧
  (_TX_CACHE w = [] →
   new_events w out.2 = [Sent LatestBlock (next_answer w)] ∧
   _TX_CACHE out.2 = match fetched (classify LatestBlock (next_answer w)) with
                     | Return hs => hs
                     | Raise _ => []
                     end ∧
   Forall (λ h, truthy h = true) (_TX_CACHE out.2) ∧
   ∃ h, out.1 = Return h ∧
        (h ∈ _TX_CACHE out.2 ∨ (h = JStr zero_hash ∧ _TX_CACHE out.2 = []))).
Proof.
  intros out. unfold out. rewrite get_random_tx_hash_run. split.
  - intros Hne. destruct (_TX_CACHE w) as [|h0 c] eqn:Hc; [done|].
    destruct (random_choice_run (h0 :: c) JNull w) as (x & -> & Hx); [done|].
    cbn [fst snd]. split_and!; [|done|by eauto].
    apply new_events_app. by rewrite app_nil_r.
  - intros Hc. rewrite Hc. cbv zeta.
    assert (∀ w', log w' = log (sent LatestBlock w) →
                  new_events w w' = [Sent LatestBlock (next_answer w)]) as Hev.
    { intros w' Hl. apply new_events_app. by rewrite Hl, log_sent. }
    destruct (fetched _) as [[|h hs]|e] eqn:Hf; cbn [fst snd].
    + split_and!; [by apply Hev|done|constructor|]. eexists. split; [done|].
      by right.
    + destruct (random_choice_run (h :: hs) JNull
                  (with_TX_CACHE (h :: hs) (sent LatestBlock w)))
        as (x & -> & Hx); [done|].
      cbn [fst snd]. split_and!; [by apply Hev|done|by eapply fetched_truthy|].
      exists x. split; [done|]. by left.
    + split_and!;
        [by apply Hev|exact Hc
        |change (Forall (λ h, truthy h = true) (_TX_CACHE w)); rewrite Hc; constructor|].
      eexists. split; [done|]. right. split; [done|exact Hc].
Qed.

(** ** The fallback of the reserved agent *)

Lemma get_random_tx_hash_cache w :
  ∃ h w1, get_random_tx_hash w = (Return h, w1) ∧ adds background w w1 ∧
          _TX_CACHE w1 = cache_after w ∧
          (h ∈ cache_after w ∨ (cache_after w = [] ∧ h = JStr zero_hash)).
Proof.
  rewrite get_random_tx_hash_run. unfold cache_after.
  destruct (_TX_CACHE w) as [|h0 c] eqn:Hc.
  - cbv zeta.
    assert (adds background w (sent LatestBlock w)) as Hsent.
    { exists [Sent LatestBlock (next_answer w)]. split; [by rewrite log_sent|].
      by repeat constructor. }
    destruct (fetched _) as [[|h hs]|e].
    + exists (JStr zero_hash), (with_TX_CACHE [] (sent LatestBlock w)).
      split_and!; [done|exact Hsent|done|by right].
    + destruct (random_choice_run (h :: hs) JNull
                  (with_TX_CACHE (h :: hs) (sent LatestBlock w)))
        as (x & -> & Hx); [done|].
      exists x, (rolled (with_TX_CACHE (h :: hs) (sent LatestBlock w))).
      split_and!; [done|exact Hsent|done|by left].
    + exists (JStr zero_hash), (sent LatestBlock w).
      split_and!; [done|exact Hsent|exact Hc|by right].
  - destruct (random_choice_run (h0 :: c) JNull w) as (x & Hrun & Hx); [done|].
    rewrite <- Hc in Hrun |- *. rewrite Hrun. exists x, (rolled w).
    split_and!; [done| |by rewrite Hc|left; by rewrite Hc].
    exists []. split; [by rewrite app_nil_r|constructor].
Qed.

(** The fallback attempt: a hash is drawn, the question about it is sent,
    its outcome settled. *)
Lemma fallback_attempt_cache `{Runtime} aa address agent c w :
  wp (h <- get_random_tx_hash ;;
      r <- _send_one_chat aa address agent (tx_question h) ;;
      account_outcome (fst r) (snd r) c) w
     (λ r w', _TX_CACHE w' = cache_after w ∧
              ∃ h ok rl,
                chats (new_events w w') = [Chatted agent (tx_question h) ok rl] ∧
                (h ∈ cache_after w ∨ (cache_after w = [] ∧ h = JStr zero_hash)) ∧
                r = Return (settle ok rl c)).
Proof.
  destruct (get_random_tx_hash_cache w) as (h & w1 & Hrun & Hadd & Hcache & Hh).
  apply wp_bind. eapply wp_run; [exact Hrun|].
  eapply wp_mono; [by apply attempt_spec|].
  intros r w' [Hatt Hk]. unfold keeps in Hk. split; [by rewrite Hk|].
  destruct (attempted_chats _ _ _ _ _ _ Hatt) as (ok & rl & Hch & Hr).
  by exists h, ok, rl.
Qed.

(** C9, as amended: take an agent whose topic pool is empty, at a point
    where the cap is not reached and the flag is down.  If it is the
    reserved agent (Sherlock), every slot of the first round and its slot
    of the extra round that returns has made exactly one attempt, whose
    message is "What do you think of this transaction? " followed by a
    hash of the cache of fetched hashes, or by the all-zero hash when that
    cache is empty; the cache is the one the slot found or, when it found
    none, the hashes of the block it fetched; and its turn of the first
    round, when it returns, has made as many such attempts as it was
    granted unless the flag went up.  Any other agent is skipped in both
    rounds: no attempt, no request, counters unchanged. *)
Theorem reserved_agent_fallback `{Runtime} aa address chat_per_agent topics agent
    (i : nat) c w :
  default [] (topics !! agent) = [] →
  hit_global_limit c = false →
  total_success_today c < GLOBAL_DAILY_CHAT_CAP →
  let slot := chat_slot aa address agent [] i c w in
  let retry := retry_agent aa address topics agent c w in
  let turn := chat_agent aa address chat_per_agent topics agent c w in
  let question h := "What do you think of this transaction? " +:+ py_format h in
  if String.eqb agent "Sherlock" then
    (_TX_CACHE slot.2 = cache_after w ∧
     ∀ r, slot.1 = Return r →
       ∃ h ok rl,
         chats (new_events w slot.2) = [Chatted "Sherlock" (question h) ok rl] ∧
         (h ∈ cache_after w ∨ (cache_after w = [] ∧ h = JStr zero_hash)) ∧
         r = settle ok rl c) ∧
    (_TX_CACHE retry.2 = cache_after w ∧
     ∀ r, retry.1 = Return r →
       ∃ h ok rl,
         chats (new_events w retry.2) = [Chatted "Sherlock" (question h) ok rl] ∧
         (h ∈ cache_after w ∨ (cache_after w = [] ∧ h = JStr zero_hash)) ∧
         r = settle ok rl c) ∧
    (∀ r, turn.1 = Return r →
       let c' := replay c (new_events w turn.2) in
       r = (if hit_global_limit c' then Break c' else Continue c') ∧
       (hit_global_limit c' = true
        ∨ length (chats (new_events w turn.2)) = granted chat_per_agent c) ∧
       Forall (λ e, is_chat e = true →
                    ∃ h ok rl, e = Chatted "Sherlock" (question h) ok rl)
              (new_events w turn.2))
  else
    turn = (Return (Continue c),
            if decide (granted chat_per_agent c = 0%nat) then w
            else logged (Said (NoTopics agent)) w) ∧
    retry = (Return (Continue c), w).
Proof.
  intros Hpool Hhit Hcap slot retry turn question.
  destruct (String.eqb agent "Sherlock") eqn:Hs.
  - apply String.eqb_eq in Hs as ->.
    pose proof (fallback_attempt_cache aa address "Sherlock" c w) as Hfb.
    unfold wp in Hfb.
    assert (slot = (h <- get_random_tx_hash ;;
                    r <- _send_one_chat aa address "Sherlock" (tx_question h) ;;
                    account_outcome (fst r) (snd r) c) w) as Hslot.
    { unfold slot, chat_slot.
      by destruct (Z.leb_spec GLOBAL_DAILY_CHAT_CAP (total_success_today c)); [lia|]. }
    assert (retry = (h <- get_random_tx_hash ;;
                     r <- _send_one_chat aa address "Sherlock" (tx_question h) ;;
                     account_outcome (fst r) (snd r) c) w) as Hretry.
    { unfold retry, retry_agent.
      destruct (Z.leb_spec GLOBAL_DAILY_CHAT_CAP (total_success_today c)); [lia|].
      cbv zeta. by rewrite Hpool. }
    split; [|split].
    + rewrite Hslot. destruct Hfb as (Hc & h & ok & rl & Hch & Hh & Hr).
      split; [done|]. intros r Hret. rewrite Hr in Hret. injection Hret as <-.
      by exists h, ok, rl.
    + rewrite Hretry. destruct Hfb as (Hc & h & ok & rl & Hch & Hh & Hr).
      split; [done|]. intros r Hret. rewrite Hr in Hret. injection Hret as <-.
      by exists h, ok, rl.
    + pose proof (chat_agent_spec aa address chat_per_agent topics "Sherlock" c w
                    Hhit Hcap) as Hspec.
      unfold wp in Hspec. fold turn in Hspec. rewrite Hpool in Hspec.
      destruct Hspec as (T & Hl & Hp & HF & Hr & _ & Hyes).
      assert (new_events w turn.2 = T) as ->
        by (unfold new_events; by rewrite Hl, drop_app_length).
      intros r Hret. rewrite Hr in Hret. injection Hret as <-.
      cbv zeta. split; [done|]. split; [by apply Hyes|].
      eapply Forall_impl; [done|]. intros e [Hb|(m & ok & rl & -> & Hm)] He.
      * apply background_not_chat in Hb. congruence.
      * destruct Hm as [Hin|(_ & _ & h & ->)]; [by apply elem_of_nil in Hin|eauto].
  - assert (can_send agent (default [] (topics !! agent)) = false) as Hcan.
    { unfold can_send. by rewrite Hs, Hpool. }
    split; [by apply chat_agent_idle|by apply retry_agent_idle].
Qed.

Lemma reserved_agent_fallback_witness :
  let w := fresh (block_reply :: chat_success) in
  let retry := retry_agent (H:=toy_runtime) "0xaa" "0xme" topics_professor "Sherlock"
                 chat0 w in
  _TX_CACHE retry.2 = [JStr "0xbeef"] ∧
  chats (new_events w retry.2)
  = [Chatted "Sherlock" "What do you think of this transaction? 0xbeef" true false] ∧
  (∃ h ok rl,
     chats (new_events w retry.2)
     = [Chatted "Sherlock"
          ("What do you think of this transaction? " +:+ py_format (H:=toy_runtime) h)
          ok rl] ∧
     (h ∈ cache_after w ∨ (cache_after w = [] ∧ h = JStr zero_hash))) ∧
  retry_agent (H:=toy_runtime) "0xaa" "0xme" topics_professor "Zane" chat0 w
  = (Return (Continue chat0), w).
Proof.
  intros w retry.
  pose proof (reserved_agent_fallback (H:=toy_runtime) "0xaa" "0xme" 1 topics_professor
                "Sherlock" 0 chat0 w eq_refl eq_refl eq_refl) as Hs.
  pose proof (reserved_agent_fallback (H:=toy_runtime) "0xaa" "0xme" 1 topics_professor
                "Zane" 0 chat0 w eq_refl eq_refl eq_refl) as Hz.
  cbv zeta in Hs, Hz.
  change (String.eqb "Sherlock" "Sherlock") with true in Hs.
  change (String.eqb "Zane" "Sherlock") with false in Hz.
  cbv iota in Hs, Hz.
  destruct Hs as (_ & (Hcache & Hret) & _).
  split; [vm_compute; reflexivity|]. split; [vm_compute; reflexivity|]. split.
  - destruct (Hret (Continue (Chat 1 0 1 0 false)) ltac:(vm_compute; reflexivity))
      as (h & ok & rl & Hch & Hh & _).
    exists h, ok, rl. split; [exact Hch|exact Hh].
  - exact (proj2 Hz).
Defined.

(** C9 as stated fails: when the block request fails, nothing is fetched,
    the cache stays empty, and the message of the attempt (which succeeds
    here) carries the all-zero hash. *)
Lemma reserved_agent_zero_hash :
  let w := fresh (status_reply 500 :: chat_success) in
  let retry := retry_agent (H:=toy_runtime) "0xaa" "0xme" topics_professor "Sherlock"
                 chat0 w in
  fetched (classify LatestBlock (next_answer w))
  = Raise (HTTPError "500 Server Error:  for url: https://nodes.pancakeswap.info/") ∧
  _TX_CACHE retry.2 = [] ∧
  chats (new_events w retry.2)
  = [Chatted "Sherlock"
       ("What do you think of this transaction? " +:+ zero_hash) true false].
Proof. intros w retry. split_and!; vm_compute; reflexivity. Qed.

(** ** Login *)

Lemma rpc_eth_call_world address w :
  (rpc_eth_call_smart_account address w).2 = sent EthCall w.
Proof.
  unfold rpc_eth_call_smart_account. run.
  destruct (classify _ _) as [data|e]; cbn; [|done].
  destruct (negb _); [done|].
  destruct (dict_get _ _ _); try done. by destruct (String.eqb _ _).
Qed.

Lemma signin_and_login_world address aa w :
  (signin_and_login address aa w).2 = sent Signin w
  ∨ (signin_and_login address aa w).2 = sent Auth (sent Signin w).
Proof.
  unfold signin_and_login. run.
  destruct (classify _ _) as [data|e]; cbn; [|by left].
  destruct (as_dict _) as [d|e]; cbn; [|by left].
  destruct (negb _); cbn; [by left|]. right.
  destruct (classify _ _) as [data2|e]; cbn; [done|].
  destruct e; try done. by destruct (py_in _ _).
Qed.

(** When the smart-account lookup or the sign-in raises, [process_account]
    goes no further: it has sent the login requests only (no chat, no quiz,
    no staking request) and left the staking state and its file alone, and
    when it returns it returns no success, one failure and whether the
    error was a throttle. *)
Theorem login_failure_ends_account `{Runtime} address chat_per_agent topics w e :
  (login address w).1 = Raise e →
  let out := process_account address chat_per_agent topics w in
  (requests (new_events w out.2) = [EthCall]
   ∨ requests (new_events w out.2) = [EthCall; Signin]
   ∨ requests (new_events w out.2) = [EthCall; Signin; Auth]) ∧
  st out.2 = st w ∧ disk out.2 = disk w ∧
  ∀ r, out.1 = Return r → r = (0, 1, is_throttle e) ∧ out.2 = (login address w).2.
Proof.
  intros Hlogin out.
  assert (out = (Return (0, 1, is_throttle e), (login address w).2)) as Hout.
  { unfold out, process_account. revert Hlogin. unfold login.
    unfold bind, try_except, ret, lift.
    destruct (rpc_eth_call_smart_account address w) as [[aa|e1] w1].
    - destruct (signin_and_login address aa w1) as [[r|e2] w2]; cbn [fst snd].
      + done.
      + intros [= ->]. by destruct e.
    - cbn [fst snd]. intros [= ->]. by destruct e. }
  rewrite Hout. cbn [fst snd].
  cut ((requests (new_events w (login address w).2) = [EthCall]
        ∨ requests (new_events w (login address w).2) = [EthCall; Signin]
        ∨ requests (new_events w (login address w).2) = [EthCall; Signin; Auth])
       ∧ st (login address w).2 = st w ∧ disk (login address w).2 = disk w).
  { intros (Hreq & Hst & Hd). split_and!; [done..|]. by intros r [= <-]. }
  unfold login, bind.
  pose proof (rpc_eth_call_world address w) as Hw1.
  destruct (rpc_eth_call_smart_account address w) as [[aa|e1] w1];
    cbn [snd] in Hw1; subst w1.
  - destruct (signin_and_login_world address aa (sent EthCall w)) as [-> | ->].
    + split; [|done]. right. left.
      by rewrite (new_events_app w _ [Sent EthCall (next_answer w);
                                      Sent Signin (next_answer (sent EthCall w))])
        by by rewrite !log_sent, <- app_assoc.
    + split; [|done]. right. right.
      by rewrite (new_events_app w _
                    [Sent EthCall (next_answer w);
                     Sent Signin (next_answer (sent EthCall w));
                     Sent Auth (next_answer (sent Signin (sent EthCall w)))])
        by by rewrite !log_sent, <- !app_assoc.
  - cbn [snd]. split; [|done]. left.
    by rewrite (new_events_app w _ [Sent EthCall (next_answer w)])
      by by rewrite log_sent.
Qed.

Lemma login_failure_ends_account_witness :
  let w := fresh [status_reply 429; balance_reply 2; tx_reply] in
  let out := process_account (H:=toy_runtime) "0xme" 1 topics_professor w in
  out.1 = Return (0, 1, true) ∧ out.2 = sent EthCall w.
Proof.
  intros w out.
  assert (out.1 = Return (0, 1, true)) as Hr by (vm_compute; reflexivity).
  split; [exact Hr|].
  exact (proj2 (proj2 (proj2 (proj2 (login_failure_ends_account (H:=toy_runtime)
           "0xme" 1 topics_professor w TooManyRequestsError eq_refl))) _ Hr)).
Defined.

(** ** Private keys *)

Lemma lower_length s : String.length (lower s) = String.length s.
Proof. induction s as [|c s IH]; simpl; congruence. Qed.

Lemma all_chars_lower p s :
  all_chars p (lower s) = all_chars (λ c, p (lower_char c)) s.
Proof. induction s as [|c s IH]; simpl; congruence. Qed.

Lemma lower_char_zero c : lower_char c = "0"%char → c = "0"%char.
Proof. destruct c as [[] [] [] [] [] [] [] []]; by vm_compute. Qed.

Lemma lower_char_x c : lower_char c = "x"%char → c = "x"%char ∨ c = "X"%char.
Proof.
  destruct c as [[] [] [] [] [] [] [] []]; vm_compute; intros Hc;
    first [by left|by right|done].
Qed.

Lemma x_not_hex c : lower_char c = "x"%char → is_hex_digit (lower_char c) = false.
Proof. by intros ->. Qed.

Arguments Ascii.eqb : simpl never.

Lemma startswith_0x s :
  startswith "0x" (lower s) = true →
  ∃ b h, s = String "0" (String b h) ∧ (b = "x"%char ∨ b = "X"%char).
Proof.
  destruct s as [|a [|b h]]; simpl; try done.
  - by destruct (Ascii.eqb _ _).
  - destruct (Ascii.eqb "0" (lower_char a)) eqn:Ha; [|done].
    destruct (Ascii.eqb "x" (lower_char b)) eqn:Hb; [|done]. intros _.
    apply Ascii.eqb_eq in Ha, Hb. symmetry in Ha, Hb.
    apply lower_char_zero in Ha as ->. apply lower_char_x in Hb. eauto.
Qed.

Lemma hex_not_prefixed h :
  (2 ≤ String.length h)%nat →
  all_chars (λ c, is_hex_digit (lower_char c)) h = true →
  startswith "0x" (lower h) = false.
Proof.
  destruct h as [|a [|b h]]; simpl; try lia. intros _ Hall.
  destruct (Ascii.eqb "0" (lower_char a)); [|done].
  destruct (Ascii.eqb "x" (lower_char b)) eqn:Hb; [|done].
  apply Ascii.eqb_eq in Hb. symmetry in Hb. apply x_not_hex in Hb.
  rewrite Hb in Hall. by rewrite andb_false_r in Hall.
Qed.

(** [is_valid_pk] accepts exactly the keys of 64 hexadecimal digits, in
    either case, written bare or after the prefix 0x or 0X. *)
Theorem is_valid_pk_spec pk :
  is_valid_pk pk = true ↔
  ∃ h, (pk = h ∨ pk = "0x" +:+ h ∨ pk = "0X" +:+ h) ∧
       String.length h = 64%nat ∧
       all_chars (λ c, is_hex_digit (lower_char c)) h = true.
Proof.
  unfold is_valid_pk, hex64. split.
  - destruct (startswith "0x" (lower pk)) eqn:Hp.
    + apply startswith_0x in Hp as (b & h & -> & Hb).
      change (drop2 (lower (String "0" (String b h)))) with (lower h).
      rewrite lower_length, all_chars_lower.
      intros [Hlen%Nat.eqb_eq Hall]%andb_true_iff.
      exists h. split; [|done]. destruct Hb as [-> | ->]; [right; by left|by do 2 right].
    + rewrite lower_length, all_chars_lower.
      intros [Hlen%Nat.eqb_eq Hall]%andb_true_iff. exists pk. split; [by left|done].
  - intros (h & Hpk & Hlen & Hall).
    assert ((String.length (lower h) =? 64)%nat
            && all_chars is_hex_digit (lower h) = true) as Hh.
    { rewrite lower_length, all_chars_lower, Hlen, Hall. done. }
    destruct Hpk as [-> | [-> | ->]].
    + rewrite hex_not_prefixed; [done|lia|done].
    + exact Hh.
    + exact Hh.
Qed.

(** The normalisation of [run_cycle] does not change what [is_valid_pk]
    says of a key, and a valid key is normalised to 66 characters that
    start with 0x or 0X. *)
Theorem pk_norm_valid pk :
  is_valid_pk (pk_norm pk) = is_valid_pk pk ∧
  (is_valid_pk pk = true →
   String.length (pk_norm pk) = 66%nat ∧ startswith "0x" (lower (pk_norm pk)) = true).
Proof.
  assert (is_valid_pk (pk_norm pk) = is_valid_pk pk) as Hsame.
  { unfold pk_norm. destruct (startswith "0x" (lower pk)) eqn:Hp; [done|].
    unfold is_valid_pk. rewrite Hp. done. }
  split; [exact Hsame|]. intros Hv. unfold pk_norm.
  destruct (startswith "0x" (lower pk)) eqn:Hp.
  - split; [|done]. unfold is_valid_pk, hex64 in Hv. rewrite Hp in Hv.
    apply startswith_0x in Hp as (b & h & -> & _).
    change (drop2 (lower (String "0" (String b h)))) with (lower h) in Hv.
    apply andb_true_iff in Hv as [Hlen%Nat.eqb_eq _].
    rewrite lower_length in Hlen. simpl. by rewrite Hlen.
  - split; [|done]. unfold is_valid_pk, hex64 in Hv. rewrite Hp in Hv.
    apply andb_true_iff in Hv as [Hlen%Nat.eqb_eq _].
    rewrite lower_length in Hlen.
    change ("0x" +:+ pk) with (String "0" (String "x" pk)).
    cbn [String.length]. by rewrite Hlen.
Qed.

(** ** The cycle over the accounts *)

Lemma load_accounts_None `{Host} acc_lines :
  load_accounts acc_lines = None ↔ Exists refused acc_lines.
Proof.
  unfold refused. induction acc_lines as [|raw rest IH]; simpl.
  - split; [done|]. by intros ?%Exists_nil.
  - rewrite Exists_cons, <- IH.
    destruct (is_valid_pk _); simpl; [|by split; [left; left|]].
    destruct (address_of_key _) as [addr|]; [|by split; [left; right|]].
    destruct (load_accounts rest) as [accounts|]; [|by split; [right|]].
    split; [done|]. by intros [[|]|].
Qed.

Lemma load_accounts_Some `{Host} acc_lines accounts :
  load_accounts acc_lines = Some accounts →
  Forall2 (λ raw acct, acct.2 = pk_norm (strip raw) ∧ is_valid_pk acct.2 = true ∧
                       address_of_key acct.2 = Some acct.1) acc_lines accounts.
Proof.
  revert accounts. induction acc_lines as [|raw rest IH]; intros accounts; simpl.
  - intros [= <-]. constructor.
  - destruct (is_valid_pk _) eqn:Hv; simpl; [|done].
    destruct (address_of_key _) as [addr|] eqn:Ha; [|done].
    destruct (load_accounts rest) as [accts|]; [|done]. intros [= <-].
    constructor; [done|]. by apply IH.
Qed.

(** [run_cycle] processes no account unless every line of accounts.txt is
    a valid key whose address can be derived: with an empty or missing
    file, or with one refused line anywhere in it, it sends no request and
    changes nothing, and it does not return: when it ends without an
    exception it has left through [sys.exit(1)]. *)
Theorem run_cycle_validates_first `{Runtime} `{Host} chat_per_agent use_proxy w
    acc_lines :
  read_lines "accounts.txt" = Return acc_lines →
  acc_lines = [] ∨ Exists refused acc_lines →
  let out := run_cycle chat_per_agent use_proxy w in
  out.2 = w ∧ ∀ r, out.1 = Return r → r = Exit 1.
Proof.
  intros Hread Hbad out.
  assert (out = (Return (Exit 1), w)) as ->; [|by split; [|intros r [= <-]]].
  unfold out, run_cycle. rewrite Hread.
  unfold bind at 1, lift. destruct acc_lines as [|raw rest]; [done|].
  destruct Hbad as [?|Hbad]; [done|].
  apply load_accounts_None in Hbad. by rewrite Hbad.
Qed.

Lemma run_cycle_validates_first_witness :
  let w := fresh login_replies in
  let out := run_cycle (H:=toy_runtime)
               (H0:=toy_host (key_a +:+ String "010" "0xnothex")) 1 false w in
  out.1 = Return (Exit 1) ∧ out.2 = w.
Proof.
  intros w out. split; [vm_compute; reflexivity|].
  apply (run_cycle_validates_first (H:=toy_runtime)
           (H0:=toy_host (key_a +:+ String "010" "0xnothex")) 1 false w
           [key_a; "0xnothex"]).
  - vm_compute. reflexivity.
  - right. apply Exists_cons_tl, Exists_cons_hd. left. vm_compute. reflexivity.
Defined.

Lemma account_step_run `{Runtime} chat_per_agent topics acct totals w :
  account_step chat_per_agent topics acct totals w
  = match process_account acct.1 chat_per_agent topics w with
    | (Return r, w1) =>
        (Return (if r.2
                 then Break (totals.1.1 + r.1.1, totals.1.2 + r.1.2, true)
                 else Continue (totals.1.1 + r.1.1, totals.1.2 + r.1.2, totals.2)),
         w1)
    | (Raise e, w1) => (Raise e, w1)
    end.
Proof.
  unfold account_step, bind.
  destruct (process_account _ _ _ w) as [[r|e] w1]; [|done]. by destruct (r.2).
Qed.

Lemma account_loop_spec `{Runtime} chat_per_agent topics accounts : ∀ totals w s w',
  for_each accounts (account_step chat_per_agent topics) totals w = (Return s, w') →
  ∃ done rest rs,
    accounts = done ++ rest ∧
    processed chat_per_agent topics done w rs w' ∧
    Forall (λ r, r.2 = false) (removelast rs) ∧
    match s with
    | Break t => t.2 = true ∧ ∃ rs0 r, rs = rs0 ++ [r] ∧ r.2 = true
    | Continue t => rest = [] ∧ Forall (λ r, r.2 = false) rs ∧ t.2 = totals.2
    end.
Proof.
  induction accounts as [|acct accts IH]; intros totals w s w'.
  - intros [= <- <-]. exists [], [], [].
    split; [done|]. split; [constructor|]. split; [constructor|].
    split; [done|]. split; [constructor|done].
  - cbn [for_each]. unfold bind at 1. rewrite account_step_run.
    destruct (process_account acct.1 chat_per_agent topics w) as [[r|e] w1] eqn:Hacct;
      [|done].
    destruct (r.2) eqn:Hhit.
    + intros [= <- <-]. exists [acct], accts, [r].
      split; [done|]. split; [econstructor; [done|constructor]|].
      split; [constructor|]. split; [done|]. by exists [], r.
    + intros Hloop.
      destruct (IH _ _ _ _ Hloop) as (done & rest & rs & -> & Hp & Hlast & Hs).
      exists (acct :: done), rest, (r :: rs).
      split; [done|]. split; [by econstructor|]. split.
      * destruct rs as [|r' rs']; [constructor|]. by constructor.
      * destruct s as [t|t].
        -- destruct Hs as (-> & Hall & Ht). split; [done|]. split; [|done].
           by constructor.
        -- destruct Hs as (Ht & rs0 & r' & -> & Hr'). split; [done|].
           by exists (r :: rs0), r'.
Qed.

(** When [run_cycle] returns, it has run [process_account] for a prefix of
    the accounts of accounts.txt, in order and once each; no account but
    the last of that prefix reported the global limit; the value returned
    says whether the last one did, and when it did not every account was
    processed.  An account after the first one that reports the limit is
    not processed in that cycle. *)
Theorem run_cycle_stops_at_limit `{Runtime} `{Host} chat_per_agent use_proxy w
    hit w' :
  run_cycle chat_per_agent use_proxy w = (Return (Done hit), w') →
  ∃ acc_lines accounts topics done rest rs,
    read_lines "accounts.txt" = Return acc_lines ∧
    load_accounts acc_lines = Some accounts ∧
    load_topics TOPIC_FILES ∅ = Return topics ∧
    accounts = done ++ rest ∧
    processed chat_per_agent topics done w rs w' ∧
    Forall (λ r, r.2 = false) (removelast rs) ∧
    hit = (List.last rs (0, 0, false)).2 ∧
    (hit = false → rest = []).
Proof.
  unfold run_cycle. unfold bind at 1, lift.
  destruct (read_lines "accounts.txt") as [acc_lines|e]; [|done].
  destruct acc_lines as [|raw lines]; [done|].
  destruct (load_accounts (raw :: lines)) as [accounts|] eqn:Hacc; [|done].
  unfold bind at 1. destruct (assign_proxies _ _) as [proxies|e]; [|done].
  unfold bind at 1. destruct (load_topics TOPIC_FILES ∅) as [topics|e]; [|done].
  unfold bind at 1.
  destruct (for_each accounts _ _ w) as [[s|e] w1] eqn:Hloop; [|done].
  intros [= <- <-].
  destruct (account_loop_spec _ _ _ _ _ _ _ Hloop)
    as (done & rest & rs & -> & Hp & Hlast & Hs).
  exists (raw :: lines), (done ++ rest), topics, done, rest, rs.
  split_and!; try done.
  - destruct s as [t|t]; simpl.
    + destruct Hs as (_ & Hall & ->). simpl.
      destruct rs as [|r rs] using rev_ind; [done|].
      rewrite last_last. apply Forall_app in Hall as [_ [Hr _]%Forall_cons].
      by rewrite Hr.
    + destruct Hs as (Ht & rs0 & r & -> & Hr). rewrite last_last. congruence.
  - destruct s as [t|t]; simpl.
    + by destruct Hs as (-> & _).
    + destruct Hs as (Ht & _). congruence.
Qed.

Lemma run_cycle_stops_at_limit_witness :
  let w := fresh [status_reply 429] in
  let host := toy_host (key_a +:+ String "010" key_b) in
  run_cycle (H:=toy_runtime) (H0:=host) 1 false w
  = (Return (Done true), sent EthCall w) ∧
  ∃ done rest rs,
    load_accounts (H:=host) [key_a; key_b] = Some (done ++ rest) ∧
    processed (H:=toy_runtime) 1 (list_to_map ((λ f, (f.1, [])) <$> TOPIC_FILES))
      done w rs (sent EthCall w) ∧
    (List.last rs (0, 0, false)).2 = true.
Proof.
  intros w host.
  assert (run_cycle (H:=toy_runtime) (H0:=host) 1 false w
          = (Return (Done true), sent EthCall w)) as Hrun
    by (vm_compute; reflexivity).
  split; [exact Hrun|].
  destruct (run_cycle_stops_at_limit (H:=toy_runtime) (H0:=host) 1 false w true
              (sent EthCall w) Hrun)
    as (acc_lines & accounts & topics & done & rest & rs
        & Hread & Hacc & Htop & -> & Hp & _ & Hhit & _).
  injection Hread as <-. injection Htop as <-.
  exists done, rest, rs. split; [exact Hacc|]. split; [exact Hp|]. by symmetry.
Defined.

(** ** Waiting for the next cycle *)

Lemma seconds_left_reached next_time w :
  next_time ≤ clock w → seconds_left next_time w = 0%nat.
Proof.
  intros Hle. unfold seconds_left.
  assert ((next_time - clock w + 999999) `div` 1000000 < 1); [|lia].
  apply Z.div_lt_upper_bound; lia.
Qed.

Lemma seconds_left_slept next_time w :
  clock w < next_time →
  seconds_left next_time w = S (seconds_left next_time (slept 1 w)).
Proof.
  intros Hlt. unfold seconds_left, slept. cbn [clock].
  replace (next_time - (clock w + 1 * 1000000) + 999999)
    with (next_time - clock w + 999999 + (-1) * 1000000) by lia.
  rewrite Z.div_add by lia.
  assert (1 ≤ (next_time - clock w + 999999) `div` 1000000); [|lia].
  apply Z.div_le_lower_bound; lia.
Qed.

Lemma countdown_to_run next_time w :
  countdown_to next_time w
  = (Return tt, Nat.iter (seconds_left next_time w) (slept 1) w).
Proof.
  funelim (countdown_to next_time w).
  - by rewrite seconds_left_reached by done.
  - rewrite H. rewrite (seconds_left_slept next_time w) by lia.
    by rewrite Nat.iter_succ_r.
Qed.

Lemma iter_slept n w :
  clock (Nat.iter n (slept 1) w) = clock w + Z.of_nat n * 1000000 ∧
  log (Nat.iter n (slept 1) w) = log w ++ replicate n (Slept 1) ∧
  st (Nat.iter n (slept 1) w) = st w ∧ disk (Nat.iter n (slept 1) w) = disk w ∧
  script (Nat.iter n (slept 1) w) = script w.
Proof.
  induction n as [|n (Hc & Hl & Hs & Hd & Hsc)].
  - change (Nat.iter 0 (slept 1) w) with w.
    split; [lia|]. split; [by rewrite app_nil_r|done].
  - rewrite Nat.iter_succ. set (w1 := Nat.iter n (slept 1) w) in *.
    change (clock (slept 1 w1)) with (clock w1 + 1 * 1000000).
    change (log (slept 1 w1)) with (log w1 ++ [Slept 1]).
    change (st (slept 1 w1)) with (st w1).
    change (disk (slept 1 w1)) with (disk w1).
    change (script (slept 1 w1)) with (script w1).
    rewrite Hc, Hl. split; [lia|]. split; [|done].
    rewrite <- app_assoc. f_equal.
    change [Slept 1] with (replicate 1 (Slept 1)).
    rewrite <- replicate_add. f_equal. lia.
Qed.

(** [countdown_to] returns, and not before the clock has reached
    [next_time].  Until then it does nothing but sleep one second at a
    time, at most as many times as there are seconds, rounded up, between
    the clock and [next_time]: it sends no request and leaves the state in
    memory and the store alone; and it does not sleep at all when
    [next_time] has been reached already. *)
Theorem countdown_to_waits next_time w :
  let out := countdown_to next_time w in
  out.1 = Return tt ∧
  next_time ≤ clock out.2 ∧
  Forall (λ e, e = Slept 1) (new_events w out.2) ∧
  (length (new_events w out.2) ≤ seconds_left next_time w)%nat ∧
  (next_time ≤ clock w → new_events w out.2 = []) ∧
  st out.2 = st w ∧ disk out.2 = disk w ∧ script out.2 = script w.
Proof.
  intros out. unfold out. rewrite countdown_to_run. cbn [fst snd].
  set (n := seconds_left next_time w).
  destruct (iter_slept n w) as (Hc & Hl & Hs & Hd & Hsc).
  rewrite (new_events_app _ _ _ Hl), length_replicate.
  split; [done|]. split; [|split; [|split; [|split]]]; [|by apply Forall_replicate|done| |done].
  - rewrite Hc.
    assert (0 < 1000000) as Hpos by lia.
    pose proof (Z.mul_succ_div_gt (next_time - clock w + 999999) 1000000 Hpos) as Hhi.
    unfold n, seconds_left in *.
    destruct (Z_le_gt_dec next_time (clock w)) as [Hle|Hgt]; [lia|].
    assert (0 ≤ (next_time - clock w + 999999) `div` 1000000)
      by (apply Z.div_pos; lia).
    rewrite Z2Nat.id by done. lia.
  - intros Hle. unfold n. by rewrite seconds_left_reached.
Qed.

Lemma main_iteration_run `{Runtime} `{Host} chat_per_agent use_proxy w :
  main_iteration chat_per_agent use_proxy w
  = match run_cycle chat_per_agent use_proxy w with
    | (Return (Exit code), w1) => (Return (Some code), w1)
    | (_, w1) =>
        (Return None, (countdown_to (clock w1 + 24 * 3600 * 1000000) w1).2)
    end.
Proof.
  unfold main_iteration, bind, try_except, now_jkt, ret, lift.
  destruct (run_cycle chat_per_agent use_proxy w) as [[[code|hit]|e] w1]; [done| |].
  all: pose proof (countdown_to_run (clock w1 + 24 * 3600 * 1000000) w1) as Hrun.
  all: by destruct (countdown_to _ w1) as [[[]|e'] w2]; [|discriminate Hrun].
Qed.

(** One turn of the loop of [main]: when [run_cycle] leaves through
    [sys.exit], the process ends there, without waiting.  Otherwise,
    whether the cycle returned (limit reached or not) or raised, the turn,
    when it ends, has done nothing after the cycle but sleep one second at
    a time until at least 24 hours had passed since the cycle ended: no
    request was sent and the staking state and its file are as the cycle
    left them. *)
Theorem main_iteration_waits `{Runtime} `{Host} chat_per_agent use_proxy w :
  let cycle := run_cycle chat_per_agent use_proxy w in
  let out := main_iteration chat_per_agent use_proxy w in
  match cycle.1 with
  | Return (Exit code) => out = (Return (Some code), cycle.2)
  | _ =>
      ∀ r, out.1 = Return r →
        r = None ∧
        Forall (λ e, e = Slept 1) (new_events cycle.2 out.2) ∧
        clock cycle.2 + 24 * 3600 * 1000000 ≤ clock out.2 ∧
        st out.2 = st cycle.2 ∧ disk out.2 = disk cycle.2 ∧
        script out.2 = script cycle.2
  end.
Proof.
  intros cycle out. unfold out, cycle. rewrite main_iteration_run.
  destruct (run_cycle chat_per_agent use_proxy w) as [[[code|hit]|e] w1];
    cbn [fst snd]; [done| |].
  all: rewrite countdown_to_run; cbn [snd].
  all: assert (seconds_left (clock w1 + 24 * 3600 * 1000000) w1
               = Z.to_nat (24 * 3600)) as ->
         by (unfold seconds_left; f_equal;
             replace (clock w1 + 24 * 3600 * 1000000 - clock w1 + 999999)
               with (86400999999) by lia; reflexivity).
  all: assert (Z.of_nat (Z.to_nat (24 * 3600)) = 24 * 3600) as Hn by lia.
  all: revert Hn; generalize (Z.to_nat (24 * 3600)); intros n Hn.
  all: destruct (iter_slept n w1) as (Hc & Hl & Hs & Hd & Hsc).
  all: rewrite Hn in Hc.
  all: intros r [= <-]; split; [reflexivity|].
  all: rewrite (new_events_app _ _ _ Hl).
  all: split; [by apply Forall_replicate|].
  all: split; [lia|]; split; [exact Hs|]; split; [exact Hd|exact Hsc].
Qed.

Lemma main_iteration_waits_witness :
  let w := fresh [status_reply 429] in
  let host := toy_host (key_a +:+ String "010" "0xnothex") in
  main_iteration (H:=toy_runtime) (H0:=host) 1 false w = (Return (Some 1), w).
Proof.
  intros w host.
  exact (main_iteration_waits (H:=toy_runtime) (H0:=host) 1 false w).
Defined.

(** ** The counters of an account *)

Lemma daily_quiz_counts address c w :
  wp (daily_quiz address c) w
     (λ r w', adds background w w' ∧
              ∃ c', r = Return c' ∧
                    ((success c' = success c + 1 ∧ failed c' = failed c)
                     ∨ (success c' = success c ∧ failed c' = failed c + 1))).
Proof.
  assert (respects (adds background) (daily_quiz address c)) as Hadd.
  { unfold daily_quiz, create_quiz, get_quiz_and_answer, submit_quiz.
    respects_auto adds_prim. }
  unfold wp. split; [apply Hadd|].
  unfold daily_quiz, try_except.
  destruct (bind _ _ w) as [[c'|e] w'] eqn:Hrun; simpl; [|eexists; by eauto].
  exists c'. split; [done|].
  unfold bind in Hrun.
  repeat match type of Hrun with
         | (match ?m ?w with _ => _ end) = _ =>
             destruct (m w) as [[?|?] ?]; try discriminate
         | (if ?b then _ else _) _ = _ => destruct b
         end;
    unfold ret, lift in Hrun; injection Hrun as <- _; simpl; by eauto.
Qed.

Lemma quiet_counts w w' :
  adds background w w' →
  chats (new_events w w') = [] ∧ oks (new_events w w') = 0.
Proof.
  intros (E & Hl & HE). rewrite (new_events_app _ _ _ Hl).
  split; [by apply chats_background|by apply oks_background].
Qed.

(** Whenever [process_account] returns [(success, failed, limit)], the two
    counters add up to the number of chat attempts plus one (the quiz, or
    the login that failed); [success] counts the successful chats and the
    quiz when it passed, so it never exceeds the daily cap plus one. *)
Theorem process_account_counts `{Runtime} address chat_per_agent topics w :
  let out := process_account address chat_per_agent topics w in
  let evs := new_events w out.2 in
  ∀ s f b, out.1 = Return (s, f, b) →
    s + f = Z.of_nat (length (chats evs)) + 1 ∧
    oks evs ≤ s ≤ oks evs + 1 ∧
    s ≤ GLOBAL_DAILY_CHAT_CAP + 1 ∧
    0 ≤ s ∧ 0 ≤ f.
Proof.
  intros out evs. unfold evs, out.
  change (wp (process_account address chat_per_agent topics) w
            (λ r w', ∀ s f b, r = Return (s, f, b) →
               s + f = Z.of_nat (length (chats (new_events w w'))) + 1 ∧
               oks (new_events w w') ≤ s ≤ oks (new_events w w') + 1 ∧
               s ≤ GLOBAL_DAILY_CHAT_CAP + 1 ∧ 0 ≤ s ∧ 0 ≤ f)).
  assert (∀ (limited : bool) w', adds background w w' →
            ∀ (s f : Z) (b : bool), Return (0, 1, limited) = Return (s, f, b) →
               s + f = Z.of_nat (length (chats (new_events w w'))) + 1 ∧
               oks (new_events w w') ≤ s ≤ oks (new_events w w') + 1 ∧
               s ≤ GLOBAL_DAILY_CHAT_CAP + 1 ∧ 0 ≤ s ∧ 0 ≤ f) as Hfail.
  { intros limited w' [Hc Ho]%quiet_counts s f b [= <- <- _].
    rewrite Hc, Ho. unfold GLOBAL_DAILY_CHAT_CAP. simpl. lia. }
  unfold process_account. apply wp_bind.
  set (m1 := try_except _ _).
  assert (respects (adds background) m1) as H1.
  { unfold m1, rpc_eth_call_smart_account. respects_auto adds_prim. }
  eapply wp_mono; [apply (respects_wp _ m1 w w H1); reflexivity|].
  intros [[aa|limited]|e] w1 Hw1; [|by apply wp_ret, Hfail|done].
  apply wp_bind. set (m2 := try_except _ _).
  assert (respects (adds background) m2) as H2.
  { unfold m2, signin_and_login. respects_auto adds_prim. }
  eapply wp_mono; [apply (respects_wp _ m2 w w1 H2); exact Hw1|].
  intros [[[]|limited]|e] w2 Hw2; [|by apply wp_ret, Hfail|done].
  apply wp_bind.
  eapply wp_mono; [by apply chat_rounds_spec|].
  intros r3 w3 Hpost. apply rounds_post_trace in Hpost as (Hp & -> & Hl3).
  set (T := new_events w2 w3) in *.
  apply wp_bind. eapply wp_mono; [apply daily_quiz_counts|].
  intros r4 w4 (Hw4 & c4 & -> & Hc4).
  apply wp_bind.
  assert (respects (adds background) (staking_cycle address)) as H5.
  { apply staking_cycle_adds; try done. by intros []. }
  eapply wp_mono; [apply (respects_wp _ _ w3 w4 H5); exact Hw4|].
  intros [counts|e] w5 Hw5; [|done].
  apply wp_bind.
  assert (respects (adds background) final_statistics) as H6.
  { unfold final_statistics, wallet_info, get_balances, get_staked_totals.
    respects_auto adds_prim. }
  eapply wp_mono; [apply (respects_wp _ _ w3 w5 H6); exact Hw5|].
  intros [[]|e] w6 Hw6; [|done].
  apply wp_ret. intros s f b [= <- <- _].
  destruct Hw2 as (E0 & Hl2 & HE0), Hw6 as (E1 & Hl6 & HE1).
  rewrite (new_events_app w w6 (E0 ++ T ++ E1))
    by by rewrite Hl6, Hl3, Hl2, <- !app_assoc.
  rewrite !chats_app, !oks_app, !length_app.
  rewrite (chats_background E0), (chats_background E1) by done.
  rewrite (oks_background E0), (oks_background E1) by done.
  destruct (replay_success chat0 T) as [Hs Hf].
  pose proof (replay_total chat0 T) as Ht.
  pose proof (paced_cap chat0 T) as Hcap.
  pose proof (oks_nonneg T) as H0. pose proof (oks_le_chats T) as Hle.
  change (success chat0) with 0 in Hs. change (failed chat0) with 0 in Hf.
  change (total_success_today chat0) with 0 in Ht, Hcap.
  unfold GLOBAL_DAILY_CHAT_CAP in *. specialize (Hcap ltac:(lia) Hp).
  simpl length. fold chat0 in *. destruct Hc4 as [[-> ->]|[-> ->]]; lia.
Qed.

Lemma process_account_counts_witness :
  let w := fresh throttled_then_staking in
  let out := process_account (H:=toy_runtime) "0xme" 5 topics_professor w in
  out.1 = Return (0, 6, true) ∧
  0 + 6 = Z.of_nat (length (chats (new_events w out.2))) + 1.
Proof.
  intros w out.
  assert (out.1 = Return (0, 6, true)) as Hr by (vm_compute; reflexivity).
  split; [exact Hr|].
  exact (proj1 (process_account_counts (H:=toy_runtime) "0xme" 5 topics_professor w
                  0 6 true Hr)).
Defined.

(** ** The history of the positions *)

Lemma keeps_history_refl r : keeps_history r r.
Proof. by split_and!. Qed.

Lemma keeps_history_trans r1 r2 r3 :
  keeps_history r1 r2 → keeps_history r2 r3 → keeps_history r1 r3.
Proof.
  intros (Hn & H1 & H2 & H3) (Hn' & H1' & H2' & H3').
  split_and!; [congruence|auto..].
Qed.

Lemma history_kept_refl s : history_kept s s.
Proof. intros a t r Hr. exists r. split; [done|apply keeps_history_refl]. Qed.

Lemma history_kept_update s0 s a t f :
  (∀ r, keeps_history r (f r)) →
  history_kept s0 s → history_kept s0 (update_row s a t f).
Proof.
  intros Hf Hs a' t' r Hr. destruct (Hs a' t' r Hr) as (r1 & Hr1 & Hk).
  rewrite lookup_row_update. case_decide as Heq.
  - destruct Heq as [<- <-]. rewrite Hr1. exists (f r1). split; [done|].
    by eapply keeps_history_trans.
  - by exists r1.
Qed.

Section history_invariant.
Context (s0 : state).
Implicit Types w : world.

Lemma history_inv_sent ep w : history_inv s0 w → history_inv s0 (sent ep w).
Proof. done. Qed.

Lemma history_inv_logged e w : history_inv s0 w → history_inv s0 (logged e w).
Proof. done. Qed.

Lemma history_inv_saved w : history_inv s0 w → history_inv s0 (saved (st w) w).
Proof.
  intros [Hst Hd]. split; [done|]. exists (st w). by rewrite disk_saved.
Qed.

Lemma history_inv_mutated a t f w :
  (∀ r, keeps_history r (f r)) →
  history_inv s0 w → history_inv s0 (mutated a t f w).
Proof.
  intros Hf [Hst Hd]. split; [|done]. rewrite st_mutated.
  by apply history_kept_update.
Qed.

Lemma history_inv_throttled w :
  history_inv s0 w → history_inv s0 (throttled_world w).
Proof.
  intros Hw. unfold throttled_world.
  rewrite <- (st_logged (Said LimitReached) w).
  by apply history_inv_saved, history_inv_logged.
Qed.

Lemma stake_target_history `{Runtime} a name t :
  respects (preserved (history_inv s0)) (stake_target a name t).
Proof.
  intros w Hw. destruct (lookup_row (st w) a (SUBNETS name)) as [row|] eqn:Hrow.
  - rewrite (stake_target_run _ _ _ _ _ Hrow).
    destruct (negb _ && _); [|done]. cbv zeta.
    destruct (stake_answer _) as [[]|[]]; simpl;
      first [ by apply history_inv_sent
            | by apply history_inv_throttled, history_inv_sent
            | idtac ].
    apply history_inv_mutated; [|apply history_inv_mutated];
      [ |by intros r|by apply history_inv_sent].
    intros r. by split_and!.
  - by rewrite stake_target_missing.
Qed.

Lemma claim_target_history `{Runtime} a name t :
  respects (preserved (history_inv s0)) (claim_target a name t).
Proof.
  intros w Hw. destruct (lookup_row (st w) a (SUBNETS name)) as [row|] eqn:Hrow.
  - rewrite (claim_target_run _ _ _ _ _ Hrow).
    destruct (staked row); [|done]. cbv zeta.
    destruct (claim_answer _) as [?|[]]; simpl;
      first [ by apply history_inv_sent
            | by apply history_inv_throttled, history_inv_sent
            | idtac ].
    apply history_inv_mutated; [|by apply history_inv_sent].
    intros r. by split_and!.
  - by rewrite claim_target_missing.
Qed.

Lemma unstake_target_history `{Runtime} a name t :
  respects (preserved (history_inv s0)) (unstake_target a name t).
Proof.
  intros w Hw. destruct (lookup_row (st w) a (SUBNETS name)) as [row|] eqn:Hrow.
  - rewrite (unstake_target_run _ _ _ _ _ Hrow).
    destruct (staked row); [|done]. cbv zeta.
    destruct (PrimFloat.leb _ _).
    + destruct (classify _ _) as [?|[]]; simpl;
        try first [ by apply history_inv_sent
                  | by apply history_inv_throttled, history_inv_sent ].
      * apply history_inv_mutated; [|apply history_inv_mutated];
          [ |by intros r|by apply history_inv_sent].
        intros r. by split_and!.
      * destruct (py_in _ _); [|by apply history_inv_sent].
        destruct (seconds_to_24h _); simpl; [|by apply history_inv_sent].
        by apply history_inv_logged, history_inv_sent.
    + destruct (seconds_to_24h _); simpl; [|done]. by apply history_inv_logged.
  - by rewrite unstake_target_missing.
Qed.

Lemma detect_target_history `{Runtime} a name t :
  respects (preserved (history_inv s0)) (detect_target a name t).
Proof.
  intros w Hw. destruct (lookup_row (st w) a (SUBNETS name)) as [row|] eqn:Hrow.
  - rewrite (detect_target_run _ _ _ _ _ Hrow).
    destruct (staked row); [|done].
    destruct (seconds_to_24h _); simpl; [|done]. by apply history_inv_logged.
  - by rewrite detect_target_missing.
Qed.

Lemma request_json_history ep :
  respects (preserved (history_inv s0)) (request_json ep).
Proof. intros w Hw. by apply history_inv_sent. Qed.

Lemma save_current_history {A} (k : M A) :
  respects (preserved (history_inv s0)) k →
  respects (preserved (history_inv s0)) (s <- get_st ;; state_save s ;;; k).
Proof.
  intros Hk w Hw. unfold bind at 1 2, get_st, state_save. cbn.
  apply Hk. by apply history_inv_saved.
Qed.

Lemma print_history r :
  respects (preserved (history_inv s0)) (console_print r).
Proof. intros w Hw. by apply history_inv_logged. Qed.
End history_invariant.

Ltac history_step :=
  first
    [ apply save_current_history
    | apply stake_target_history
    | apply claim_target_history
    | apply unstake_target_history
    | apply detect_target_history
    | apply request_json_history
    | apply print_history
    | respects_step fail ].

Lemma stake_phase_history `{Runtime} address s0 t :
  respects (preserved (history_inv s0)) (stake_phase address t).
Proof.
  unfold stake_phase, claim_phase, claim_loop, unstake_phase, restake_phase, get_balances.
  repeat history_step.
Qed.

(** A staking cycle run over a state file keeps every position of the file,
    in memory and in the file it leaves, under its name and with every
    timestamp it had: a cycle may set or renew [last_stake_at],
    [last_claim_at] and [last_unstake_at], it never clears one. *)
Theorem staking_cycle_keeps_history `{Runtime} address w s0 :
  disk w = Stored s0 →
  let w' := (staking_cycle address w).2 in
  history_kept s0 (st w') ∧ ∃ s', disk w' = Stored s' ∧ history_kept s0 s'.
Proof.
  intros Hdisk w'. unfold w', staking_cycle.
  unfold bind at 1 2, state_load, set_st. cbn. rewrite Hdisk.
  set (w1 := with_st _ w).
  assert (history_inv s0 w1) as H1.
  { split.
    - intros a t r Hr. exists r. split; [|apply keeps_history_refl].
      unfold w1. rewrite st_with_st.
      by apply (proj1 (ensure_account_state_rows s0 address)).
    - exists s0. split; [done|apply history_kept_refl]. }
  set (rest := bind _ _).
  assert (respects (preserved (history_inv s0)) rest) as Hrest.
  { unfold rest, get_balances.
    repeat first [ apply stake_phase_history | history_step ]. }
  by apply Hrest.
Qed.

Lemma staking_cycle_keeps_history_witness :
  let w := World [balance_reply 0; claim_reply; ok_reply (JObj [])] 90000000000 [] []
             (Stored (staked_since (Some "0"))) (State None) [] in
  let w' := (staking_cycle (H:=toy_runtime) "0xme" w).2 in
  lookup_row (st w') "0xme" (SUBNETS "Bitte")
  = Some (Row "Bitte" false (Some "0") (Some "90000002000") (Some "90000003000")) ∧
  history_kept (staked_since (Some "0")) (st w').
Proof.
  intros w w'. split; [vm_compute; reflexivity|].
  exact (proj1 (staking_cycle_keeps_history (H:=toy_runtime) "0xme" w
                  (staked_since (Some "0")) eq_refl)).
Defined.

(** ** The stake loop *)

Lemma stays_staked_frame s0 s s' a t :
  stays_staked s0 s →
  (∀ r, lookup_row s a t = Some r → staked r = false) →
  (∀ a' t', ¬ (a = a' ∧ t = t') → lookup_row s' a' t' = lookup_row s a' t') →
  stays_staked s0 s'.
Proof.
  intros Hs Hidle Hframe a' t' r Hr Hst.
  destruct (decide (a = a' ∧ t = t')) as [[<- <-]|Hne].
  - specialize (Hs a t r Hr Hst). rewrite (Hidle r Hs) in Hst. done.
  - rewrite Hframe by done. by apply Hs.
Qed.

Lemma stake_target_post_idle `{Runtime} address name t s0 w :
  stays_staked s0 (st w) →
  let out := stake_target address name t w in
  stays_staked s0 (st out.2) ∧
  ∃ evs, log out.2 = log w ++ evs ∧
         (requests evs = []
          ∨ (requests evs = [Delegate (SUBNETS name)] ∧
             staked_at s0 address name = false)).
Proof.
  intros Hs out. unfold out.
  assert (stays_staked s0 (st w) ∧
          ∃ evs, log w = log w ++ evs ∧
                 (requests evs = []
                  ∨ (requests evs = [Delegate (SUBNETS name)] ∧
                     staked_at s0 address name = false))) as Hidle.
  { split; [done|]. exists []. split; [by rewrite app_nil_r|by left]. }
  destruct (lookup_row (st w) address (SUBNETS name)) as [row|] eqn:Hrow.
  2:{ by rewrite stake_target_missing. }
  rewrite (stake_target_run _ _ _ _ _ Hrow).
  destruct (negb (staked row)) eqn:Hst; cbn [andb]; [|exact Hidle].
  destruct (PrimFloat.leb _ _); [|exact Hidle]. cbv zeta.
  apply negb_true_iff in Hst.
  assert (staked_at s0 address name = false) as Hs0.
  { unfold staked_at. destruct (lookup_row s0 _ _) as [r0|] eqn:Hr0; [|done].
    destruct (staked r0) eqn:Hst0; [|done].
    rewrite (Hs _ _ _ Hr0 Hst0) in Hrow. injection Hrow as <-. congruence. }
  assert (∃ evs, log (sent (Delegate (SUBNETS name)) w) = log w ++ evs ∧
                 (requests evs = []
                  ∨ (requests evs = [Delegate (SUBNETS name)] ∧
                     staked_at s0 address name = false))) as Hsent.
  { exists [Sent (Delegate (SUBNETS name)) (next_answer w)].
    split; [by rewrite log_sent|by right]. }
  destruct (stake_answer _) as [[]|e]; cbn [fst snd].
  - split; [|by rewrite !log_mutated].
    rewrite !st_mutated, st_sent.
    apply (stays_staked_frame s0 (st w) _ address (SUBNETS name)); [done| |].
    + intros r. rewrite Hrow. by intros [= <-].
    + intros a' t' Hne. by rewrite !lookup_row_update, !decide_False.
  - destruct e; cbn [fst snd]; try (split; [exact Hs|exact Hsent]).
    unfold throttled_world. split; [exact Hs|].
    exists [Sent (Delegate (SUBNETS name)) (next_answer w); Said LimitReached;
            Saved (st w)].
    split; [by autorewrite with world; rewrite <- !app_assoc|by right].
Qed.

Lemma stake_loop_post `{Runtime} address s0 xs : ∀ t w,
  stays_staked s0 (st w) →
  stake_post address xs s0 w (for_each xs (stake_target address) t w).2.
Proof.
  induction xs as [|x xs IH]; intros t w Hs.
  - split; [done|]. exists []. split; [by rewrite app_nil_r|constructor].
  - cbn [for_each]. unfold bind at 1.
    destruct (stake_target_post_idle address x t s0 w Hs)
      as (Hs1 & evs1 & Hl1 & Hreq1).
    assert (Forall (λ ep, ∃ name, In name (x :: xs) ∧ ep = Delegate (SUBNETS name) ∧
                                  staked_at s0 address name = false)
              (requests evs1)) as Hevs1.
    { destruct Hreq1 as [-> | [-> Hidle]]; [constructor|].
      constructor; [|constructor]. exists x. split; [by left|done]. }
    destruct (stake_target address x t w) as [[[t'|t']|e] w1]; cbn [fst snd] in *;
      try (split; [done|]; by exists evs1).
    destruct (IH t' w1 Hs1) as (Hs2 & evs2 & Hl2 & Hevs2).
    split; [done|]. exists (evs1 ++ evs2).
    split; [by rewrite Hl2, Hl1, <- app_assoc|].
    unfold requests in *. rewrite omap_app. apply Forall_app. split; [done|].
    eapply Forall_impl; [done|]. intros ep (name & Hin & -> & Hidle).
    exists name. split; [by right|done].
Qed.

(** The stake loop sends delegate requests only, and only for targets of
    the account that were not staked when the loop started; it leaves every
    position that was staked then exactly as it was: it never stakes twice
    and never renews the stake time of a staked position. *)
Theorem stake_loop_idle_only `{Runtime} address t w :
  let out := stake_loop address t w in
  stays_staked (st w) (st out.2) ∧
  Forall (λ ep, ∃ name, In name SUBNET_ORDER ∧ ep = Delegate (SUBNETS name) ∧
                        staked_at (st w) address name = false)
    (requests (new_events w out.2)).
Proof.
  intros out.
  destruct (stake_loop_post address (st w) SUBNET_ORDER t w)
    as (Hs & evs & Hl & Hevs); [by intros a tgt r|].
  fold (stake_loop address t w) in Hs, Hl. fold out in Hs, Hl.
  split; [exact Hs|]. by rewrite (new_events_app _ _ _ Hl).
Qed.

